(** * cs2-dumper-merger: the JSON merger of [src/generator/cs2-dumper-merger.py]

    The script downloads every [*.json] file below a directory of a GitHub
    repository ([get_file_contents_from_github]), folds the parsed documents
    into one ([merge_json_files], built on [deep_merge]) and writes the result
    ([main]).

    The development has three parts.
    - [Module Value]: the merger on JSON values as trees.  A Python [dict] is
      an association list in insertion order (keys unique), exceptions are an
      explicit result type.
    - [Module Collector]: the directory walk and [main], over the tree of
      responses the remote side gives.
    - [Module Store]: the merger once more, over a store of mutable [dict] and
      [list] objects addressed by reference, which is what the aliasing
      questions need.

    The last sections relate the two mergers: on a FileSet as [json.loads]
    builds it, the merger over the store returns the value, or raises the
    exception, of the merger over values. *)

From stdpp Require Import base option list strings sorting.
From Stdlib Require Import ZArith Ascii String.

Local Open Scope string_scope.
Local Open Scope list_scope.
Local Open Scope Z_scope.

(** ** Exceptions *)

(** The exceptions the modelled code can raise.  [OtherException] is the
    [Exception] of line 31; [ValueError] and [RecursionError] are what
    [json.loads] raises besides [JSONDecodeError] (an integer of more than
    4300 digits, nesting beyond the recursion limit); [OSError] and
    [UnicodeEncodeError] are what the write step can raise. *)
Inductive exn : Type :=
  | TypeError
  | AttributeError
  | KeyError
  | RequestException
  | OtherException
  | ValueError
  | RecursionError
  | OSError
  | UnicodeEncodeError.

Inductive result (A : Type) : Type :=
  | Ok (a : A)
  | Raise (e : exn).
Arguments Ok {A} a.
Arguments Raise {A} e.

Definition rbind {A B} (r : result A) (k : A -> result B) : result B :=
  match r with
  | Ok a => k a
  | Raise e => Raise e
  end.

(** ** JSON values, as [json.loads] produces them *)

(** The values that are neither [dict] nor [list].  A float is carried as its
    binary64 bit pattern: the program never computes with numbers. *)
Inductive prim : Type :=
  | PNull
  | PBool (b : bool)
  | PInt (n : Z)
  | PFloat (bits : Z)
  | PStr (s : string).

Unset Elimination Schemes.
Inductive json : Type :=
  | JPrim (p : prim)
  | JList (elems : list json)
  | JObj (items : list (string * json)).
Set Elimination Schemes.

(** A [dict] with string keys: the items in insertion order. *)
Abbreviation dict := (list (string * json)).

(** Python truthiness of a primitive ([not merged] at line 100). *)
Definition prim_truthy (p : prim) : bool :=
  match p with
  | PNull => false
  | PBool b => b
  | PInt n => negb (n =? 0)
  | PFloat bits => negb (Z.land bits (2 ^ 63 - 1) =? 0)
  | PStr s => negb (String.eqb s "")
  end.

Definition truthy (v : json) : bool :=
  match v with
  | JPrim p => prim_truthy p
  | JList [] => false
  | JList (_ :: _) => true
  | JObj [] => false
  | JObj (_ :: _) => true
  end.

Definition is_dict (v : json) : bool :=
  match v with JObj _ => true | _ => false end.

Definition is_list (v : json) : bool :=
  match v with JList _ => true | _ => false end.

(** ** Induction on JSON values *)

Definition json_ind (P : json -> Prop)
    (Hprim : forall p, P (JPrim p))
    (Hlist : forall elems, Forall P elems -> P (JList elems))
    (Hobj : forall items, Forall (fun kv => P kv.2) items -> P (JObj items))
  : forall v, P v :=
  fix go (v : json) : P v :=
    match v with
    | JPrim p => Hprim p
    | JList elems =>
        Hlist elems
          (list_ind (Forall P) (Forall_nil_2 P)
             (fun x l IH => Forall_cons_2 P x l (go x) IH) elems)
    | JObj items =>
        Hobj items
          (list_ind (Forall (fun kv => P kv.2)) (Forall_nil_2 _)
             (fun kv l IH => Forall_cons_2 _ kv l (go kv.2) IH) items)
    end.

(** ** Dictionaries *)

(** The items of a [dict], whatever stands for its values. *)
Section dict_ops.
Context {V : Type}.

(** [d.get(key)]: [Some] is also [key in d]. *)
Fixpoint dict_get (key : string) (d : list (string * V)) : option V :=
  match d with
  | [] => None
  | (k, v) :: d' => if String.eqb k key then Some v else dict_get key d'
  end.

(** [d[key] = value]: an existing key keeps its place, a new one goes last. *)
Fixpoint dict_set (key : string) (value : V) (d : list (string * V))
  : list (string * V) :=
  match d with
  | [] => [(key, value)]
  | (k, v) :: d' =>
      if String.eqb k key then (k, value) :: d'
      else (k, v) :: dict_set key value d'
  end.

Definition keys (d : list (string * V)) : list string := d.*1.

End dict_ops.

(** The invariant of a Python [dict], at every depth: no key twice. *)
Fixpoint wf (v : json) : bool :=
  match v with
  | JPrim _ => true
  | JList elems => forallb wf elems
  | JObj items =>
      bool_decide (NoDup items.*1) && forallb (fun kv => wf kv.2) items
  end.

Module Value.

(** ** [deep_merge] (lines 72-85) *)

(** What one round of the loop (lines 80-83) stores at [key]: the recursive
    merge when [key] is in [result] and both values are a [dict], else
    [value].  The inner [loop] is the [for] of the recursive call, on the
    items of [value]. *)
Fixpoint merge_value (existing : option json) (value : json) {struct value}
  : json :=
  match existing, value with
  | Some (JObj sub), JObj n =>
      JObj ((fix loop (result new : dict) {struct new} : dict :=
               match new with
               | [] => result
               | (key, v) :: rest =>
                   loop (dict_set key (merge_value (dict_get key result) v)
                           result) rest
               end) sub n)
  | _, _ => value
  end.

(** The loop of [deep_merge] on two dictionaries: [result] starts as the copy
    of [base], and every item of [new] is stored into it. *)
Fixpoint deep_merge_dict (result new : dict) {struct new} : dict :=
  match new with
  | [] => result
  | (key, value) :: rest =>
      deep_merge_dict
        (dict_set key (merge_value (dict_get key result) value) result) rest
  end.

(** [deep_merge(base, new)] on whatever values arrive at run time.
    [base.copy()] exists on [dict] and [list] only, [new.items()] on [dict]
    only (AttributeError otherwise, [base.copy()] first); on a [list] copy
    every round of the loop ends in [result[key]] with a string index, a
    TypeError. *)
Definition deep_merge (base new : json) : result json :=
  match base with
  | JPrim _ => Raise AttributeError
  | JList l =>
      match new with
      | JObj [] => Ok (JList l)
      | JObj (_ :: _) => Raise TypeError
      | _ => Raise AttributeError
      end
  | JObj b =>
      match new with
      | JObj n => Ok (JObj (deep_merge_dict b n))
      | _ => Raise AttributeError
      end
  end.

(** ** [os.path.splitext] *)

(** [p.rfind(c)]: the index of the last [c] in [p], [-1] when there is none. *)
Fixpoint rfind_from (c : ascii) (p : string) (i last : Z) : Z :=
  match p with
  | EmptyString => last
  | String a p' => rfind_from c p' (i + 1) (if Ascii.eqb a c then i else last)
  end.

Definition rfind (c : ascii) (p : string) : Z := rfind_from c p 0 (-1).

Fixpoint has_non_dot (s : string) : bool :=
  match s with
  | EmptyString => false
  | String a s' => negb (Ascii.eqb a ".") || has_non_dot s'
  end.

(** [os.path.splitext(p)[0]] of the Python library, POSIX flavour (separator
    [/], no alternative separator): the extension starts at the last dot,
    provided that dot comes after the last separator and some character
    between the two is not a dot.  Strings are UTF-8 bytes here; the two
    ASCII characters looked for do not occur inside a multi-byte sequence. *)
Definition splitext_root (p : string) : string :=
  let sepIndex := rfind "/" p in
  let dotIndex := rfind "." p in
  if (sepIndex <? dotIndex)
     && has_non_dot (substring (Z.to_nat (sepIndex + 1))
                       (Z.to_nat (dotIndex - (sepIndex + 1))) p)
  then substring 0 (Z.to_nat dotIndex) p
  else p.

(** ** [merge_json_files] (lines 88-119) *)

(** A FileSet: the [dict] from file name to parsed content. *)
Abbreviation fileset := (list (string * json)) (only parsing).

(** The order of [sorted(json_files.items())]: the keys of a [dict] are
    distinct, so two items are always told apart by their file names, which
    Python compares code point by code point (the same order as byte by byte
    on UTF-8). *)
Definition file_le {V} (x y : string * V) : Prop := String.le x.1 y.1.

Global Instance file_le_dec {V} : RelDecision (@file_le V).
Proof. intros x y. unfold file_le. apply _. Defined.

Definition sorted_items {V} (json_files : list (string * V))
  : list (string * V) :=
  merge_sort file_le json_files.

(** [merged[key] = content] (lines 109, 113, 117): only a [dict] takes a
    string key. *)
Definition setitem (merged : json) (key : string) (content : json)
  : result json :=
  match merged with
  | JObj d => Ok (JObj (dict_set key content d))
  | _ => Raise TypeError
  end.

(** One round of the loop, lines 96-117. *)
Definition merge_file (merged : json) (file : string * json) : result json :=
  let '(filename, content) := file in
  match content with
  | JObj _ => deep_merge merged content
  | JList c =>
      if negb (truthy merged) then Ok content
      else
        match merged with
        | JList m => Ok (JList (m ++ c))
        | JObj d =>
            let key := splitext_root filename in
            match dict_get key d with
            | None => setitem merged key content
            | Some (JList old) => Ok (JObj (dict_set key (JList (old ++ c)) d))
            | Some _ => setitem merged key content
            end
        | JPrim _ =>
            (* a truthy primitive: [key not in merged] or [merged[key]] *)
            Raise TypeError
        end
  | JPrim _ => setitem merged (splitext_root filename) content
  end.

Fixpoint merge_loop (merged : json) (files : fileset) : result json :=
  match files with
  | [] => Ok merged
  | file :: rest => rbind (merge_file merged file) (fun m => merge_loop m rest)
  end.

Definition merge_json_files (json_files : fileset) : result json :=
  merge_loop (JObj []) (sorted_items json_files).

End Value.

Import Value.

(** * The collector and [main] *)

Module Collector.

(** One entry of a directory listing: [item.get("path", "")],
    [item.get("type")] and [item.get("download_url")]. *)
Record item : Type := Item {
  item_path : string;
  item_type : option string;
  download_url : option string;
}.

(** What [requests.get] gives: a response, or a [RequestException]. *)
Inductive http (A : Type) : Type :=
  | Http (status_code : Z) (content : A)
  | ConnectionFailed.
Arguments Http {A} status_code content.
Arguments ConnectionFailed {A}.

(** The answers of the remote side, laid out along the walk: the answer to a
    listing request is a status and the entries ([response.json()], a single
    entry already wrapped into a list as at lines 37-38), and every entry
    comes with the answer a download of it would get and the answer a
    listing of it would get.  The walk asks for at most one of the two. *)
Unset Elimination Schemes.
Inductive listing : Type :=
  | Listing (response : http (list (item * http string * listing))).
Set Elimination Schemes.

Abbreviation entry := (item * http string * listing)%type.

(** Induction on the answers of the remote side. *)
Definition listing_ind (P : listing -> Prop)
    (Hfailed : P (Listing ConnectionFailed))
    (Hlisting : forall status_code files,
        Forall (fun e : entry => P e.2) files ->
        P (Listing (Http status_code files)))
  : forall remote, P remote :=
  fix go (remote : listing) : P remote :=
    match remote with
    | Listing ConnectionFailed => Hfailed
    | Listing (Http status_code files) =>
        Hlisting status_code files
          (list_ind (Forall (fun e : entry => P e.2)) (Forall_nil_2 _)
             (fun e l IH => Forall_cons_2 _ e l (go e.2) IH) files)
    end.

(** The lines printed, without their wording. *)
Inductive event : Type :=
  | FetchingFileList (path : string)
  | Downloading (file_path : string)
  | Loaded (filename : string)
  | FailedToParse (file_path : string)
  | FailedToDownload (file_path : string) (status_code : Z)
  | ExploringSubdirectory (subdir_path : string)
  | FetchingJsonFiles
  | NoJsonFilesFound
  | Found (count : nat)
  | Merging
  | Writing
  | Success (count : nat)
  | NetworkError
  | ErrorWithTraceback (e : exn).

(** Printing and raising: the lines printed so far, and the value or the
    exception. *)
Definition M (A : Type) : Type := (list event * result A)%type.

Definition ret {A} (a : A) : M A := ([], Ok a).
Definition raise {A} (e : exn) : M A := ([], Raise e).
Definition print (ev : event) : M unit := ([ev], Ok tt).
Definition bind {A B} (m : M A) (k : A -> M B) : M B :=
  match m with
  | (out, Ok a) => let '(out', r) := k a in (out ++ out', r)
  | (out, Raise e) => (out, Raise e)
  end.

Global Instance M_bind : MBind M := fun A B k m => bind m k.

(** [for x in xs: acc = body(acc, x)], left by the first exception. *)
Fixpoint for_each {A B} (body : B -> A -> M B) (xs : list A) (acc : B) : M B :=
  match xs with
  | [] => ret acc
  | x :: xs' => acc' ← body acc x; for_each body xs' acc'
  end.

(** [s.endswith(suffix)]. *)
Definition endswith (s suffix : string) : bool :=
  (String.length suffix <=? String.length s)%nat
  && String.eqb
       (substring (String.length s - String.length suffix)
          (String.length suffix) s)
       suffix.

(** [os.path.basename(p)], POSIX flavour: what follows the last [/]. *)
Definition basename (p : string) : string :=
  let i := Z.to_nat (rfind "/" p + 1) in
  substring i (String.length p - i) p.

(** [json_files.update(subdir_files)]. *)
Definition update (json_files subdir_files : fileset) : fileset :=
  fold_left (fun d kv => dict_set kv.1 kv.2 d) subdir_files json_files.

(** Truthiness of [download_url] (line 48). *)
Definition url_given (url : option string) : bool :=
  match url with
  | Some u => negb (String.eqb u "")
  | None => false
  end.

Definition is_json_file (it : item) : bool :=
  bool_decide (item_type it = Some "file") && endswith (item_path it) ".json".

Definition is_dir (it : item) : bool :=
  bool_decide (item_type it = Some "dir").

(** What [json.loads] does with a text: it returns the value, raises the
    [JSONDecodeError] that line 57 catches, or raises an exception that line
    57 does not catch. *)
Inductive parse : Type :=
  | Parsed (json_content : json)
  | DecodeError
  | ParseRaises (e : exn).

(** What the write step (lines 148-149) comes to: the document is written,
    [open] raises, or [json.dump] raises after the file was opened. *)
Inductive write_outcome : Type :=
  | Written
  | OpenRaises (e : exn)
  | DumpRaises (e : exn).

(** [merged_output.json] after the run: as it was before (or absent), opened
    for writing but left with only part of the text, or holding the
    document. *)
Inductive file : Type :=
  | Untouched
  | Truncated
  | Document (merged_data : json).

(** What the run leaves behind: the lines printed and the output file. *)
Record outcome : Type := Outcome {
  stdout : list event;
  output_file : file;
}.

Definition OUTPUT_PATH : string := "output".

(** The two handlers of [main] (lines 156-161). *)
Definition report (e : exn) : event :=
  match e with
  | RequestException => NetworkError
  | _ => ErrorWithTraceback e
  end.

Section collector.

(** [json.loads] on the text of a response. *)
Variable loads : string -> parse.

(** The body of the loop over the entries (lines 41-67); [recurse] is the
    call of line 66. *)
Definition visit (recurse : string -> listing -> M fileset)
    (json_files : fileset) (e : entry) : M fileset :=
  let '(it, download, subdir) := e in
  let file_path := item_path it in
  if is_json_file it then
    print (Downloading file_path);;
    if url_given (download_url it) then
      match download with
      | ConnectionFailed => raise RequestException
      | Http status_code text =>
          if status_code =? 200 then
            match loads text with
            | Parsed json_content =>
                let filename := basename file_path in
                print (Loaded filename);;
                ret (dict_set filename json_content json_files)
            | DecodeError =>
                print (FailedToParse file_path);; ret json_files
            | ParseRaises e => raise e
            end
          else
            print (FailedToDownload file_path status_code);; ret json_files
      end
    else ret json_files
  else if is_dir it then
    print (ExploringSubdirectory file_path);;
    subdir_files ← recurse file_path subdir;
    ret (update json_files subdir_files)
  else ret json_files.

(** [get_file_contents_from_github(owner, repo, path)] (lines 20-69); owner
    and repository only go into the URL. *)
Fixpoint get_file_contents_from_github (path : string) (remote : listing)
  : M fileset :=
  print (FetchingFileList path);;
  match remote with
  | Listing ConnectionFailed => raise RequestException
  | Listing (Http status_code files) =>
      if status_code =? 200 then
        for_each (visit get_file_contents_from_github) files []
      else raise OtherException
  end.

(** The write step on the merged document: [open(OUTPUT_FILE, 'w')] and
    [json.dump]. *)
Variable write : json -> write_outcome.

(** [main()] (lines 122-161).  The banner lines are left out. *)
Definition main (remote : listing) : outcome :=
  let '(out, r) :=
    print FetchingJsonFiles;;
    get_file_contents_from_github OUTPUT_PATH remote in
  match r with
  | Ok [] => Outcome (out ++ [NoJsonFilesFound]) Untouched
  | Ok json_files =>
      let n := List.length json_files in
      match merge_json_files json_files with
      | Ok merged_data =>
          match write merged_data with
          | Written =>
              Outcome (out ++ [Found n; Merging; Writing; Success n])
                (Document merged_data)
          | OpenRaises e =>
              Outcome (out ++ [Found n; Merging; Writing; report e]) Untouched
          | DumpRaises e =>
              Outcome (out ++ [Found n; Merging; Writing; report e]) Truncated
          end
      | Raise e => Outcome (out ++ [Found n; Merging; report e]) Untouched
      end
  | Raise e => Outcome (out ++ [report e]) Untouched
  end.

End collector.

End Collector.

(** * The merger over a store of objects *)

Module Store.

(** A Python value is a primitive or a reference to a [dict] or [list]
    object.  The store is the list of the objects made so far; a new object
    goes to the end, so a location is an index. *)
Abbreviation loc := nat.

Inductive val : Type :=
  | VPrim (p : prim)
  | VRef (l : loc).

Inductive object : Type :=
  | ODict (items : list (string * val))
  | OList (elems : list val).

Abbreviation heap := (list object).

(** How a call ends.  [Stuck] is a reference to no object and [OutOfFuel] a
    recursion deeper than the fuel given; neither is a Python outcome. *)
Inductive outcome (A : Type) : Type :=
  | Returns (a : A)
  | Raises (e : exn)
  | Stuck
  | OutOfFuel.
Arguments Returns {A} a.
Arguments Raises {A} e.
Arguments Stuck {A}.
Arguments OutOfFuel {A}.

Definition St (A : Type) : Type := heap -> outcome A * heap.

Definition ret {A} (a : A) : St A := fun h => (Returns a, h).
Definition throw {A} (e : exn) : St A := fun h => (Raises e, h).
Definition bind {A B} (m : St A) (k : A -> St B) : St B :=
  fun h =>
    match m h with
    | (Returns a, h') => k a h'
    | (Raises e, h') => (Raises e, h')
    | (Stuck, h') => (Stuck, h')
    | (OutOfFuel, h') => (OutOfFuel, h')
    end.

Local Notation "'let*' x ':=' m 'in' k" := (bind m (fun x => k))
  (at level 10, x pattern, m at level 100, k at level 200).
Local Notation "m ';;' k" := (bind m (fun _ => k))
  (at level 100, k at level 200, right associativity).

Definition alloc (o : object) : St loc :=
  fun h => (Returns (List.length h), h ++ [o]).

Definition read (l : loc) : St object :=
  fun h =>
    match h !! l with
    | Some o => (Returns o, h)
    | None => (Stuck, h)
    end.

Definition write (l : loc) (o : object) : St unit :=
  fun h =>
    match h !! l with
    | Some _ => (Returns tt, <[l := o]> h)
    | None => (Stuck, h)
    end.

Fixpoint for_each {A B} (body : B -> A -> St B) (xs : list A) (acc : B)
  : St B :=
  match xs with
  | [] => ret acc
  | x :: xs' => let* acc' := body acc x in for_each body xs' acc'
  end.

(** ** The operations of Python the merger uses *)

(** [isinstance(v, dict)], [isinstance(v, list)], or neither. *)
Inductive kind : Type :=
  | KDict (l : loc)
  | KList (l : loc)
  | KPrim (p : prim).

Definition kind_of (v : val) : St kind :=
  match v with
  | VPrim p => ret (KPrim p)
  | VRef l =>
      let* o := read l in
      match o with
      | ODict _ => ret (KDict l)
      | OList _ => ret (KList l)
      end
  end.

Definition isinstance_dict (v : val) : St bool :=
  let* k := kind_of v in ret (match k with KDict _ => true | _ => false end).

(** [base.copy()]: a new object with the same items or elements. *)
Definition copy (base : val) : St loc :=
  match base with
  | VPrim _ => throw AttributeError
  | VRef l => let* o := read l in alloc o
  end.

(** [new.items()], taken once; the loop does not change [new]. *)
Definition items (new : val) : St (list (string * val)) :=
  match new with
  | VPrim _ => throw AttributeError
  | VRef l =>
      let* o := read l in
      match o with
      | ODict its => ret its
      | OList _ => throw AttributeError
      end
  end.

(** [key in container] for a string [key]: a key of the [dict], an element
    of the [list] equal to the string. *)
Definition contains (key : string) (container : loc) : St bool :=
  let* o := read container in
  match o with
  | ODict its => ret (bool_decide (is_Some (dict_get key its)))
  | OList elems =>
      ret (existsb
             (fun v => match v with
                       | VPrim (PStr s) => String.eqb s key
                       | _ => false
                       end) elems)
  end.

(** [container[key]] for a string [key]. *)
Definition getitem (container : loc) (key : string) : St val :=
  let* o := read container in
  match o with
  | ODict its =>
      match dict_get key its with
      | Some v => ret v
      | None => throw KeyError
      end
  | OList _ => throw TypeError
  end.

(** [container[key] = value] for a string [key]. *)
Definition setitem (container : loc) (key : string) (value : val) : St unit :=
  let* o := read container in
  match o with
  | ODict its => write container (ODict (dict_set key value its))
  | OList _ => throw TypeError
  end.

(** [target.extend(content)]; the merger calls it on two lists only. *)
Definition extend (target content : loc) : St unit :=
  let* o := read target in
  let* c := read content in
  match o, c with
  | OList elems, OList more => write target (OList (elems ++ more))
  | _, _ => throw AttributeError
  end.

(** Truthiness of a container ([not merged]). *)
Definition nonempty (container : loc) : St bool :=
  let* o := read container in
  ret (match o with
       | ODict [] | OList [] => false
       | _ => true
       end).

(** ** [deep_merge] (lines 72-85) *)

(** One round of the loop (lines 80-83); [recurse] is the call of line 81. *)
Definition merge_item (recurse : val -> val -> St loc) (result : loc)
    (item : string * val) : St unit :=
  let '(key, value) := item in
  let* present := contains key result in
  if present then
    let* existing := getitem result key in
    let* existing_is_dict := isinstance_dict existing in
    if existing_is_dict then
      let* value_is_dict := isinstance_dict value in
      if value_is_dict then
        let* existing' := getitem result key in
        let* merged := recurse existing' value in
        setitem result key (VRef merged)
      else setitem result key value
    else setitem result key value
  else setitem result key value.

(** The fuel bounds the depth of the recursion. *)
Fixpoint deep_merge (fuel : nat) (base new : val) : St loc :=
  match fuel with
  | O => fun h => (OutOfFuel, h)
  | S fuel' =>
      let* result := copy base in
      let* new_items := items new in
      for_each (fun _ => merge_item (deep_merge fuel') result) new_items tt;;
      ret result
  end.

(** ** [merge_json_files] (lines 88-119) *)

(** One round of the loop; [merged] is always a [dict] or a [list], hence a
    location. *)
Definition merge_file (fuel : nat) (merged : loc) (file : string * val)
  : St loc :=
  let '(filename, content) := file in
  let* k := kind_of content in
  match k with
  | KDict _ => deep_merge fuel (VRef merged) content
  | KList c =>
      let* filled := nonempty merged in
      if negb filled then ret c
      else
        let* merged_kind := kind_of (VRef merged) in
        match merged_kind with
        | KList _ => extend merged c;; ret merged
        | _ =>
            let key := splitext_root filename in
            let* present := contains key merged in
            if negb present then setitem merged key content;; ret merged
            else
              let* existing := getitem merged key in
              let* existing_kind := kind_of existing in
              match existing_kind with
              | KList e => extend e c;; ret merged
              | _ => setitem merged key content;; ret merged
              end
        end
  | KPrim _ => setitem merged (splitext_root filename) content;; ret merged
  end.

(** [json_files] is the FileSet, a [dict] object of the store. *)
Definition merge_json_files (fuel : nat) (json_files : val) : St loc :=
  let* merged := alloc (ODict []) in
  let* files := items json_files in
  for_each (merge_file fuel) (sorted_items files) merged.

(** ** Values in the store *)

(** [json.loads]-like: put a JSON value into the store, children first. *)
Fixpoint store (j : json) : St val :=
  match j with
  | JPrim p => ret (VPrim p)
  | JList elems =>
      let* vs := (fix store_all (js : list json) : St (list val) :=
              match js with
              | [] => ret []
              | x :: js' =>
                  let* v := store x in
                  let* vs := store_all js' in
                  ret (v :: vs)
              end) elems in
      let* l := alloc (OList vs) in
      ret (VRef l)
  | JObj its =>
      let* vits := (fix store_all (js : dict) : St (list (string * val)) :=
                match js with
                | [] => ret []
                | (k, x) :: js' =>
                    let* v := store x in
                    let* vs := store_all js' in
                    ret ((k, v) :: vs)
                end) its in
      let* l := alloc (ODict vits) in
      ret (VRef l)
  end.

(** The JSON value a store value stands for, read to a depth of [fuel]
    objects. *)
Fixpoint load (fuel : nat) (h : heap) (v : val) : option json :=
  match v with
  | VPrim p => Some (JPrim p)
  | VRef l =>
      match fuel with
      | O => None
      | S fuel' =>
          match h !! l with
          | Some (OList vs) => JList <$> mapM (load fuel' h) vs
          | Some (ODict its) =>
              JObj <$> mapM (fun kv => pair kv.1 <$> load fuel' h kv.2) its
          | None => None
          end
      end
  end.

(** [repr D h v j]: in the store [h] the value [v] is the JSON value [j],
    and the objects it is made of all lie at locations in [D]. *)
Unset Elimination Schemes.
Inductive repr (D : loc -> Prop) (h : heap) : val -> json -> Prop :=
  | repr_prim p : repr D h (VPrim p) (JPrim p)
  | repr_list l vs elems :
      D l -> h !! l = Some (OList vs) ->
      Forall2 (repr D h) vs elems ->
      repr D h (VRef l) (JList elems)
  | repr_dict l vits its :
      D l -> h !! l = Some (ODict vits) ->
      Forall2 (fun kv kj => kv.1 = kj.1 /\ repr D h kv.2 kj.2) vits its ->
      repr D h (VRef l) (JObj its).
Set Elimination Schemes.

End Store.

(** * Vocabulary of the statements *)

Import Collector.

(** [serves loads remote filename content]: somewhere below [remote] a
    [*.json] file entry with a download address and base name [filename] is
    listed, whose download is answered with status 200 and a text that
    [loads] parses to [content]; directories are entered only through
    entries the walk takes for directories. *)
Inductive serves (loads : string -> parse)
  : listing -> string -> json -> Prop :=
  | serves_file status_code files it text subdir content :
      (it, Http 200 text, subdir) ∈ files ->
      is_json_file it = true ->
      url_given (download_url it) = true ->
      loads text = Parsed content ->
      serves loads (Listing (Http status_code files))
        (basename (item_path it)) content
  | serves_dir status_code files it download subdir filename content :
      (it, download, subdir) ∈ files ->
      is_json_file it = false ->
      is_dir it = true ->
      serves loads subdir filename content ->
      serves loads (Listing (Http status_code files)) filename content.

(** The download of an entry did not give a document: the status is not 200,
    or the text does not parse ([JSONDecodeError]).  [diagnostic] is the line
    printed for it. *)
Inductive not_loaded (loads : string -> parse) (file_path : string)
  : http string -> event -> Prop :=
  | not_downloaded status_code text :
      status_code <> 200 ->
      not_loaded loads file_path (Http status_code text)
        (FailedToDownload file_path status_code)
  | not_parsed text :
      loads text = DecodeError ->
      not_loaded loads file_path (Http 200 text) (FailedToParse file_path).

(** What ends at a key once an incoming dictionary has been merged in:
    [existing] is the value under the key before ([None]: the key is new),
    [incoming] the value the incoming dictionary has there. *)
Definition merge_opt (existing incoming : option json) : option json :=
  match incoming with
  | None => existing
  | Some v => Some (merge_value existing v)
  end.

(** [deep_merged base incoming result]: [result] is the recursive deep merge
    of two objects as the specification words it, said without
    [deep_merge]: a key [incoming] does not have holds what [base] holds
    there (nothing, if [base] does not have it either); a key of [incoming]
    holds the value of [incoming], unless [base] has the key and both values
    are objects, in which case it holds the deep merge of the two. *)
Unset Elimination Schemes.
Inductive deep_merged : json -> json -> json -> Prop :=
  | deep_merged_objects (base incoming result : dict) :
      (forall k,
          dict_get k incoming = None ->
          dict_get k result = dict_get k base) ->
      (forall k v,
          dict_get k incoming = Some v -> dict_get k base = None ->
          dict_get k result = Some v) ->
      (forall k v existing,
          dict_get k incoming = Some v -> dict_get k base = Some existing ->
          is_dict existing && is_dict v = false ->
          dict_get k result = Some v) ->
      (forall k v existing,
          dict_get k incoming = Some v -> dict_get k base = Some existing ->
          is_dict existing && is_dict v = true ->
          exists vr, dict_get k result = Some vr /\ deep_merged existing v vr) ->
      deep_merged (JObj base) (JObj incoming) (JObj result).
Set Elimination Schemes.

(** [assoc_ok a b c]: at no key path do [a] and [c] both hold a [dict] while
    [b] holds something else there.  (A path counts only as far as all three
    hold a [dict] along it.) *)
Fixpoint assoc_ok_value (va : json) (ob oc : option json) {struct va} : bool :=
  match va, ob, oc with
  | JObj a', Some vb, Some (JObj c') =>
      match vb with
      | JObj b' =>
          (fix all (items : dict) : bool :=
             match items with
             | [] => true
             | (k, v) :: rest =>
                 assoc_ok_value v (dict_get k b') (dict_get k c') && all rest
             end) a'
      | _ => false
      end
  | _, _, _ => true
  end.

Fixpoint assoc_ok (a b c : dict) {struct a} : bool :=
  match a with
  | [] => true
  | (k, v) :: rest =>
      assoc_ok_value v (dict_get k b) (dict_get k c) && assoc_ok rest b c
  end.


(** The accumulator is a [dict] or a [list]. *)
Definition is_container (v : json) : bool := is_dict v || is_list v.

(** The nesting of objects in objects, which is as deep as [deep_merge]
    recurses into its second argument. *)
Fixpoint depth (j : json) : nat :=
  match j with
  | JObj its => S (foldr (fun kv d => Nat.max (depth kv.2) d) O its)
  | _ => O
  end.

(** The items of a [dict] object against those of a JSON object. *)
Definition items_repr (D : Store.loc -> Prop) (h : Store.heap)
    (vits : list (string * Store.val)) (its : dict) : Prop :=
  Forall2 (fun kv kj => kv.1 = kj.1 /\ Store.repr D h kv.2 kj.2) vits its.

(** The objects a call may have added above [r], with those of [D]. *)
Definition above (D : Store.loc -> Prop) (r : Store.loc) (h : Store.heap)
  : Store.loc -> Prop :=
  fun l => D l \/ (r < l < List.length h)%nat.

(** [keeps n m Q]: run from a store of at least [n] objects, [m] leaves the
    first [n] as they are and takes none away, and a value it returns
    satisfies [Q]. *)
Definition keeps {A} (n : nat) (m : Store.St A) (Q : A -> Prop) : Prop :=
  forall h o h',
    (n <= List.length h)%nat -> m h = (o, h') ->
    (List.length h <= List.length h')%nat
    /\ take n h' = take n h
    /\ forall a, o = Store.Returns a -> Q a.

(** [merge_json_files] of the store model on a FileSet given as a value:
    the FileSet is put into an empty store, the merger runs, and what it
    returns is read back.  [None]: the fuel did not suffice. *)
Definition run_merge (fuel : nat) (json_files : fileset)
  : option (result json) :=
  match Store.store (JObj json_files) [] with
  | (Store.Returns fs, h) =>
      match Store.merge_json_files fuel fs h with
      | (Store.Returns l, h') => Ok <$> Store.load fuel h' (Store.VRef l)
      | (Store.Raises e, _) => Some (Raise e)
      | _ => None
      end
  | _ => None
  end.

(** A numeral of [n] digits. *)
Fixpoint nines (n : nat) : string :=
  match n with
  | O => EmptyString
  | S n' => String "9" (nines n')
  end.

Fixpoint all_digits (s : string) : bool :=
  match s with
  | EmptyString => true
  | String a s' =>
      (48 <=? nat_of_ascii a)%nat && (nat_of_ascii a <=? 57)%nat
      && all_digits s'
  end.

(** A parser and a remote side to run the collector on: [1] and [[2]]
    parse, a numeral of more than 4300 digits is refused with a ValueError
    as [json.loads] refuses it, and nothing else parses. *)
Definition sample_loads (text : string) : parse :=
  if String.eqb text "1" then Parsed (JPrim (PInt 1))
  else if String.eqb text "[2]" then Parsed (JList [JPrim (PInt 2)])
  else if all_digits text && (4300 <? String.length text)%nat
       then ParseRaises ValueError
  else DecodeError.

(** A write step that succeeds. *)
Definition sample_write (merged_data : json) : write_outcome := Written.

Definition sample_file (file_path text : string) : entry :=
  (Item file_path (Some "file") (Some "https://raw.example/f"),
   Http 200 text, Listing ConnectionFailed).

Definition sample_remote : listing :=
  Listing (Http 200
    [sample_file "output/a.json" "1";
     sample_file "output/b.json" "{";
     (Item "output/sub" (Some "dir") None, ConnectionFailed,
      Listing (Http 200 [sample_file "output/sub/c.json" "[2]"]))]).

(** ** The FileSet in the store *)

(** [item_ok R D h v j]: [v] is [j] on the locations [D]; when it is a list,
    its own object lies in [R] and is no part of its elements. *)
Definition item_ok (R D : Store.loc -> Prop) (h : Store.heap)
    (v : Store.val) (j : json) : Prop :=
  match j with
  | JList js =>
      exists e es,
        v = Store.VRef e /\ R e /\ h !! e = Some (Store.OList es)
        /\ Forall2 (Store.repr (fun l => D l /\ l <> e) h) es js
  | _ => Store.repr D h v j
  end.

(** The items of a [dict] object, each on the locations of its key. *)
Definition items_ok (R W : string -> Store.loc -> Prop) (h : Store.heap)
    (vits : list (string * Store.val)) (its : dict) : Prop :=
  Forall2 (fun kv kj => kv.1 = kj.1 /\ item_ok (R kv.1) (W kv.1) h kv.2 kj.2)
    vits its.

(** The objects of the FileSet lie below [n0], and [owner] tells for each
    which file it belongs to and under which key of the accumulator it may
    end: the key it is under in an object file, the name without extension
    for a sequence file. *)
Definition owned_by (owner : Store.loc -> option (string * string))
    (f k : string) : Store.loc -> Prop :=
  fun l => owner l = Some (f, k).

Definition owned (owner : Store.loc -> option (string * string))
    (S : list string) (k : string) : Store.loc -> Prop :=
  fun l => exists f, f ∈ S /\ owner l = Some (f, k).

(** The objects made since the call, other than the accumulator [m]. *)
Definition fresh (n0 : nat) (h : Store.heap) (m : Store.loc)
  : Store.loc -> Prop :=
  fun l => (n0 <= l < List.length h)%nat /\ l <> m.

(** The accumulator [m] is the value [M], made of objects of the files [S]
    merged so far and of new ones; the values under different keys share no
    object of a file, and a list under a key is an object of a file. *)
Definition acc_ok (n0 : nat) (owner : Store.loc -> option (string * string))
    (S : list string) (h : Store.heap) (m : Store.loc) (M : json) : Prop :=
  (n0 <= List.length h)%nat /\
  match M with
  | JObj its =>
      (n0 <= m)%nat /\ NoDup (keys its)
      /\ exists mitems,
          h !! m = Some (Store.ODict mitems)
          /\ items_ok (owned owner S)
               (fun k l => owned owner S k l \/ fresh n0 h m l) h mitems its
  | JList js =>
      ((exists k, owned owner S k m) \/ (n0 <= m)%nat)
      /\ exists es,
          h !! m = Some (Store.OList es)
          /\ Forall2
               (Store.repr
                  (fun l => ((exists k, owned owner S k l)
                             \/ (n0 <= l < List.length h)%nat) /\ l <> m) h)
               es js
  | JPrim _ => False
  end.

(** A file of the FileSet, as [json.loads] left it in the store. *)
Definition file_ok (n0 : nat) (owner : Store.loc -> option (string * string))
    (fuel : nat) (h : Store.heap) (f : string) (v : Store.val) (j : json)
  : Prop :=
  (depth j <= fuel)%nat
  /\ match j with
     | JObj its =>
         exists c vits,
           v = Store.VRef c /\ (c < n0)%nat /\ owner c = None
           /\ h !! c = Some (Store.ODict vits)
           /\ items_ok (owned_by owner f) (owned_by owner f) h vits its
     | _ =>
         item_ok (owned_by owner f (splitext_root f))
           (owned_by owner f (splitext_root f)) h v j
     end.

(** The files of the FileSet in the store against the FileSet as a value. *)
Definition files_ok (n0 : nat) (owner : Store.loc -> option (string * string))
    (fuel : nat) (h : Store.heap) (svs : list (string * Store.val))
    (fjs : fileset) : Prop :=
  Forall2 (fun fv fj => fv.1 = fj.1
                        /\ file_ok n0 owner fuel h fv.1 fv.2 fj.2) svs fjs.

(** What a round leaves alone: the objects of the files not yet merged, and
    those of no file. *)
Definition untouched (n0 : nat) (owner : Store.loc -> option (string * string))
    (S : list string) (h h' : Store.heap) : Prop :=
  (List.length h <= List.length h')%nat
  /\ forall l, (l < n0)%nat ->
       (forall g k, owner l = Some (g, k) -> g ∉ S) -> h' !! l = h !! l.

(** The two loops of [Store.store], by themselves. *)
Fixpoint store_list (js : list json) : Store.St (list Store.val) :=
  match js with
  | [] => Store.ret []
  | x :: js' =>
      Store.bind (Store.store x) (fun v =>
      Store.bind (store_list js') (fun vs => Store.ret (v :: vs)))
  end.

Fixpoint store_items (its : dict) : Store.St (list (string * Store.val)) :=
  match its with
  | [] => Store.ret []
  | (k, x) :: its' =>
      Store.bind (Store.store x) (fun v =>
      Store.bind (store_items its') (fun vs => Store.ret ((k, v) :: vs)))
  end.

(** The locations from [a] up to [b]. *)
Definition range (a b : nat) : Store.loc -> Prop :=
  fun l => (a <= l < b)%nat.

(** How deep the objects and arrays of a value are nested. *)
Fixpoint height (j : json) : nat :=
  match j with
  | JPrim _ => O
  | JList js => S (foldr (fun x d => Nat.max (height x) d) O js)
  | JObj its => S (foldr (fun kv d => Nat.max (height kv.2) d) O its)
  end.

(** What [store] is to do for a value. *)
Definition stores (j : json) : Prop :=
  forall h, exists v h',
    Store.store j h = (Store.Returns v, h') /\ h `prefix_of` h'
    /\ item_ok (range (List.length h) (List.length h'))
         (range (List.length h) (List.length h')) h' v j.

(** ** How [merge_json_files] ends *)

(** A file a sequence accumulator cannot take: a non-empty object
    ([deep_merge] on a list, line 97) or a primitive (line 117). *)
Definition breaks_sequence (content : json) : bool :=
  match content with
  | JPrim _ | JObj (_ :: _) => true
  | _ => false
  end.

(** The first content that is not the empty object is a sequence, and after
    it comes one a sequence accumulator cannot take. *)
Fixpoint sequence_then_other (contents : list json) : bool :=
  match contents with
  | JObj [] :: rest => sequence_then_other rest
  | JList _ :: rest => existsb breaks_sequence rest
  | _ => false
  end.

(** The elements of the sequence files, in the order given. *)
Fixpoint elements (contents : list json) : list json :=
  match contents with
  | [] => []
  | JList c :: rest => c ++ elements rest
  | _ :: rest => elements rest
  end.

(** ** Paths *)

(** [c in s] for a character [c]. *)
Fixpoint contains_char (c : ascii) (s : string) : bool :=
  match s with
  | EmptyString => false
  | String a s' => Ascii.eqb a c || contains_char c s'
  end.

(** ** Entries of a listing *)

(** An entry at which the walk ends with an exception: a [*.json] file whose
    download fails as a request, or a directory whose walk ends with one.
    [out] is what is printed from the entry on. *)
Inductive entry_raises (loads : string -> parse)
  : entry -> list event -> exn -> Prop :=
  | download_raises it subdir :
      is_json_file it = true -> url_given (download_url it) = true ->
      entry_raises loads (it, ConnectionFailed, subdir)
        [Downloading (item_path it)] RequestException
  | subdir_raises it download subdir out e :
      is_json_file it = false -> is_dir it = true ->
      get_file_contents_from_github loads (item_path it) subdir
      = (out, Raise e) ->
      entry_raises loads (it, download, subdir)
        (ExploringSubdirectory (item_path it) :: out) e.

(** An entry the walk passes over without a request: a [*.json] file
    without a download address, or what is neither such a file nor a
    directory. *)
Definition passed_over (it : item) : bool :=
  if is_json_file it then negb (url_given (download_url it))
  else negb (is_dir it).

(** ** What becomes of the objects of the store *)

(** [grows n h h']: of the first [n] objects of [h], the dictionaries are
    in [h'] as they were and the lists have at most got longer at the end;
    no object is gone. *)
Definition grows (n : nat) (h h' : Store.heap) : Prop :=
  (List.length h <= List.length h')%nat
  /\ forall l, (l < n)%nat ->
       match h !! l with
       | Some (Store.ODict its) => h' !! l = Some (Store.ODict its)
       | Some (Store.OList es) =>
           exists more, h' !! l = Some (Store.OList (es ++ more))
       | None => True
       end.

(** The accumulator is an object made since the call, or a list. *)
Definition new_or_list (n : nat) (h : Store.heap) (m : Store.loc) : Prop :=
  (n <= m)%nat \/ exists es, h !! m = Some (Store.OList es).


(** * Properties *)

(** ** Dictionaries *)

Section dict_facts.
Context {V : Type}.
Implicit Types (d : list (string * V)) (k key : string) (v : V).

Lemma dict_get_None key d : dict_get key d = None <-> key ∉ keys d.
Proof.
  unfold keys. induction d as [|[k v] d IH]; simpl.
  - split; [intros _; apply not_elem_of_nil | done].
  - rewrite not_elem_of_cons. destruct (String.eqb_spec k key) as [->|Hne].
    + split; [done | intros [? _]; done].
    + rewrite IH. split; [intros ?; split; [congruence | done] | tauto].
Qed.

Lemma dict_get_Some_elem key v d : dict_get key d = Some v -> (key, v) ∈ d.
Proof.
  induction d as [|[k v'] d IH]; simpl; [done|].
  destruct (String.eqb_spec k key) as [->|Hne].
  - intros [= ->]. apply elem_of_cons; by left.
  - intros ?. apply elem_of_cons; right; auto.
Qed.

Lemma dict_get_set key k v d :
  dict_get k (dict_set key v d) = if String.eqb key k then Some v else dict_get k d.
Proof.
  induction d as [|[k' v'] d IH]; simpl.
  - done.
  - destruct (String.eqb_spec k' key) as [->|Hne]; simpl.
    + by destruct (String.eqb_spec key k).
    + rewrite IH. destruct (String.eqb_spec k' k) as [->|?]; [|done].
      by destruct (String.eqb_spec key k) as [->|?].
Qed.

Lemma keys_dict_set key v d :
  keys (dict_set key v d)
  = match dict_get key d with
    | Some _ => keys d
    | None => keys d ++ [key]
    end.
Proof.
  unfold keys. induction d as [|[k' v'] d IH]; csimpl; [done|].
  destruct (String.eqb_spec k' key) as [->|Hne]; csimpl; [done|].
  rewrite IH. by destruct (dict_get key d).
Qed.

(** Two dictionaries with the same keys in the same order and the same
    value at every key are the same. *)
Lemma dict_ext d1 d2 :
  keys d1 = keys d2 -> NoDup (keys d1) ->
  (forall k, dict_get k d1 = dict_get k d2) -> d1 = d2.
Proof.
  unfold keys. revert d2.
  induction d1 as [|[k1 v1] d1 IH]; intros [|[k2 v2] d2]; csimpl; try done.
  intros [= -> Hk] [Hnin Hnd]%NoDup_cons Hget.
  pose proof (Hget k2) as Hk2. simpl in Hk2.
  rewrite String.eqb_refl in Hk2. injection Hk2 as ->.
  f_equal. apply IH; [done..|].
  intros k. specialize (Hget k). simpl in Hget.
  destruct (String.eqb_spec k2 k) as [->|?]; [|done].
  assert (dict_get k d1 = None) as -> by by apply dict_get_None.
  symmetry. apply dict_get_None. unfold keys. by rewrite <- Hk.
Qed.
End dict_facts.

(** ** The value of [deep_merge] at a key *)

Section deep_merge_facts.
Implicit Types (r n d : dict) (k key : string) (v : json).

Lemma merge_value_dict r n :
  merge_value (Some (JObj r)) (JObj n) = JObj (deep_merge_dict r n).
Proof. reflexivity. Qed.

Lemma merge_value_new v : merge_value None v = v.
Proof. by destruct v. Qed.

Lemma merge_value_over existing v :
  (forall sub, existing <> Some (JObj sub)) -> merge_value existing v = v.
Proof.
  intros H. destruct existing as [[]|], v; try done. by edestruct H.
Qed.

Lemma filter_ext_in {A} (P Q : A -> Prop)
    `{!forall x, Decision (P x), !forall x, Decision (Q x)} (l : list A) :
  (forall x, x ∈ l -> P x <-> Q x) -> filter P l = filter Q l.
Proof.
  induction l as [|x l IH]; intros Hext; [done|].
  rewrite !filter_cons.
  rewrite IH by (intros y Hy; apply Hext; by apply elem_of_cons; right).
  apply decide_ext, Hext, elem_of_cons. by left.
Qed.

Lemma dict_get_deep_merge k r n :
  NoDup (keys n) ->
  dict_get k (deep_merge_dict r n) = merge_opt (dict_get k r) (dict_get k n).
Proof.
  unfold keys. revert r.
  induction n as [|[key v] n IH]; intros r; csimpl; [done|].
  intros [Hkey Hn]%NoDup_cons. rewrite IH by done. rewrite dict_get_set.
  destruct (String.eqb_spec key k) as [->|Hne]; [|done].
  by assert (dict_get k n = None) as -> by by apply dict_get_None.
Qed.

Lemma keys_deep_merge r n :
  NoDup (keys n) ->
  keys (deep_merge_dict r n)
  = keys r ++ filter (fun k => k ∉ keys r) (keys n).
Proof.
  revert r. induction n as [|[key v] n IH]; intros r; csimpl.
  - intros _. by rewrite app_nil_r.
  - unfold keys at 1. csimpl. intros [Hkey Hn]%NoDup_cons.
    rewrite IH by done. rewrite keys_dict_set. unfold keys at 4. csimpl.
    rewrite filter_cons.
    destruct (dict_get key r) eqn:Hget.
    + assert (key ∈ keys r) as Hin.
      { destruct (decide (key ∈ keys r)) as [|Hnin]; [done|].
        apply dict_get_None in Hnin. congruence. }
      by rewrite decide_False by auto.
    + apply dict_get_None in Hget. rewrite decide_True by done.
      rewrite <- app_assoc. simpl. do 2 f_equal.
      apply filter_ext_in. intros x Hx. rewrite not_elem_of_app.
      split; [tauto|]. intros ?; split; [done|].
      intros ->%list_elem_of_singleton. done.
Qed.

Lemma NoDup_keys_deep_merge r n :
  NoDup (keys r) -> NoDup (keys n) -> NoDup (keys (deep_merge_dict r n)).
Proof.
  intros Hr Hn. rewrite keys_deep_merge by done.
  apply NoDup_app. split_and!; [done| |by apply NoDup_filter].
  intros x Hx [Hnin _]%list_elem_of_filter. done.
Qed.
End deep_merge_facts.

(** ** The empty dictionary is neutral *)

Lemma deep_merge_dict_empty_l (n : dict) :
  NoDup (keys n) -> deep_merge_dict [] n = n.
Proof.
  intros Hn. apply dict_ext.
  - rewrite keys_deep_merge by done. simpl.
    generalize (keys n). intros l. induction l as [|x l IH]; [done|].
    rewrite filter_cons_True by apply not_elem_of_nil. by rewrite IH.
  - by apply NoDup_keys_deep_merge; [constructor|].
  - intros k. rewrite dict_get_deep_merge by done. simpl.
    destruct (dict_get k n); simpl; [|done]. by rewrite merge_value_new.
Qed.

(** C7: merging the empty object in, on either side, changes nothing:
    [deep_merge(A, {}) == A] and [deep_merge({}, B) == B] for all objects
    [A] and [B] (the keys of a Python [dict] are distinct). *)
Theorem deep_merge_identity (A B : dict) :
  NoDup (keys B) ->
  deep_merge (JObj A) (JObj []) = Ok (JObj A)
  /\ deep_merge (JObj []) (JObj B) = Ok (JObj B).
Proof.
  intros HB. split; [done|]. simpl. by rewrite deep_merge_dict_empty_l.
Qed.

Lemma deep_merge_identity_witness :
  let A := [("a", JPrim (PInt 1))] in
  let B := [("b", JObj [("c", JPrim (PInt 2))]); ("d", JList [])] in
  NoDup (keys B)
  /\ deep_merge (JObj A) (JObj []) = Ok (JObj A)
  /\ deep_merge (JObj []) (JObj B) = Ok (JObj B).
Proof.
  intros A B.
  assert (NoDup (keys B)) as HB
    by (apply (bool_decide_unpack _); vm_compute; exact I).
  split; [exact HB | exact (deep_merge_identity A B HB)].
Defined.

(** ** Well-formed values *)

Lemma wf_obj (d : dict) :
  wf (JObj d) = true <-> NoDup (keys d) /\ Forall (fun kv => wf kv.2 = true) d.
Proof.
  simpl. rewrite andb_true_iff, forallb_forall, Forall_forall.
  rewrite <- Is_true_true, bool_decide_spec. unfold keys.
  split; intros [Hk Hv]; (split; [done|]); intros x Hx; apply Hv;
    by apply list_elem_of_In.
Qed.

Lemma wf_dict_get (k : string) (v : json) (d : dict) :
  wf (JObj d) = true -> dict_get k d = Some v -> wf v = true.
Proof.
  intros [_ Hd]%wf_obj Hget%dict_get_Some_elem.
  rewrite Forall_forall in Hd. exact (Hd _ Hget).
Qed.

(** ** When [deep_merge] is associative *)

Lemma merge_opt_new_assoc (ob oc : option json) :
  merge_opt (merge_opt None ob) oc = merge_opt None (merge_opt ob oc).
Proof. destruct ob, oc; simpl; by rewrite ?merge_value_new. Qed.

Lemma deep_merge_dict_assoc_pointwise (a b c : dict) :
  NoDup (keys a) -> NoDup (keys b) -> NoDup (keys c) ->
  (forall k,
      merge_opt (merge_opt (dict_get k a) (dict_get k b)) (dict_get k c)
      = merge_opt (dict_get k a) (merge_opt (dict_get k b) (dict_get k c))) ->
  deep_merge_dict (deep_merge_dict a b) c
  = deep_merge_dict a (deep_merge_dict b c).
Proof.
  intros Ha Hb Hc Hpt.
  assert (NoDup (keys (deep_merge_dict b c))) as Hbc
    by by apply NoDup_keys_deep_merge.
  assert (NoDup (keys (deep_merge_dict a b))) as Hab
    by by apply NoDup_keys_deep_merge.
  apply dict_ext.
  - rewrite !keys_deep_merge by done.
    rewrite filter_app, <- app_assoc. do 2 f_equal.
    rewrite list_filter_filter. apply list_filter_iff. intros x.
    rewrite not_elem_of_app, list_elem_of_filter. tauto.
  - by apply NoDup_keys_deep_merge.
  - intros k. rewrite !dict_get_deep_merge by done. apply Hpt.
Qed.

Lemma assoc_ok_value_dict (a b c : dict) :
  assoc_ok_value (JObj a) (Some (JObj b)) (Some (JObj c)) = assoc_ok a b c.
Proof.
  simpl. induction a as [|[k v] a IH]; [done|]. simpl. by rewrite IH.
Qed.

Lemma assoc_ok_elem (a b c : dict) (k : string) (v : json) :
  assoc_ok a b c = true -> (k, v) ∈ a ->
  assoc_ok_value v (dict_get k b) (dict_get k c) = true.
Proof.
  induction a as [|[k' v'] a IH]; simpl.
  - intros _ H. by apply elem_of_nil in H.
  - intros [Hv Ha]%andb_true_iff [H|H]%elem_of_cons; [|auto].
    by injection H as -> ->.
Qed.

Lemma merge_opt_assoc (va : json) :
  forall ob oc : option json,
    wf va = true ->
    (forall vb, ob = Some vb -> wf vb = true) ->
    (forall vc, oc = Some vc -> wf vc = true) ->
    assoc_ok_value va ob oc = true ->
    merge_opt (merge_opt (Some va) ob) oc
    = merge_opt (Some va) (merge_opt ob oc).
Proof.
  induction va as [p|elems _|a IH] using json_ind; intros ob oc Hwa Hwb Hwc Hok.
  - destruct ob as [[| |]|], oc as [[| |]|]; try done.
  - destruct ob as [[| |]|], oc as [[| |]|]; try done.
  - destruct oc as [vc|]; [|done].
    destruct ob as [vb|]; [|simpl; by rewrite merge_value_new].
    destruct vc as [pc|lc|c]; [by destruct vb..|].
    destruct vb as [pb|lb|b]; [done..|].
    unfold merge_opt. rewrite !merge_value_dict. do 2 f_equal.
    rewrite assoc_ok_value_dict in Hok.
    pose proof (Hwb _ eq_refl) as Hb. pose proof (Hwc _ eq_refl) as Hc.
    apply wf_obj in Hwa as [Hka Hva]. apply deep_merge_dict_assoc_pointwise;
      [done | by apply wf_obj in Hb as [? _] | by apply wf_obj in Hc as [? _] |].
    intros k. destruct (dict_get k a) as [va|] eqn:Hget;
      [|apply merge_opt_new_assoc].
    apply dict_get_Some_elem in Hget.
    rewrite Forall_forall in IH. rewrite Forall_forall in Hva.
    apply (IH _ Hget); simpl.
    + exact (Hva _ Hget).
    + intros vb. by apply wf_dict_get.
    + intros vc. by apply wf_dict_get.
    + by apply assoc_ok_elem with a.
Qed.

Lemma deep_merge_dict_assoc (a b c : dict) :
  wf (JObj a) = true -> wf (JObj b) = true -> wf (JObj c) = true ->
  assoc_ok a b c = true ->
  deep_merge_dict (deep_merge_dict a b) c
  = deep_merge_dict a (deep_merge_dict b c).
Proof.
  intros Ha Hb Hc Hok.
  pose proof (merge_opt_assoc (JObj a) (Some (JObj b)) (Some (JObj c))) as H.
  unfold merge_opt in H. rewrite !merge_value_dict in H.
  assert (forall x y : dict, Some (JObj x) = Some (JObj y) -> x = y) as Hinj
    by congruence.
  apply Hinj, H; [done| | |by rewrite assoc_ok_value_dict]; by intros ? [= <-].
Qed.

(** C1, as it is written, fails: with [a = {"k": {"p": 1}}], [b = {"k": 1}]
    and [c = {"k": {"q": 2}}] the scalar of [b] first replaces the object of
    [a], so merging from the left yields [{"k": {"q": 2}}], whereas merging
    [b] and [c] first keeps the object of [c] for [a] to be merged with:
    [{"k": {"p": 1, "q": 2}}]. *)
Lemma deep_merge_assoc_counterexample :
  let a := JObj [("k", JObj [("p", JPrim (PInt 1))])] in
  let b := JObj [("k", JPrim (PInt 1))] in
  let c := JObj [("k", JObj [("q", JPrim (PInt 2))])] in
  rbind (deep_merge a b) (fun ab => deep_merge ab c)
    = Ok (JObj [("k", JObj [("q", JPrim (PInt 2))])])
  /\ rbind (deep_merge b c) (fun bc => deep_merge a bc)
    = Ok (JObj [("k", JObj [("p", JPrim (PInt 1)); ("q", JPrim (PInt 2))])])
  /\ rbind (deep_merge a b) (fun ab => deep_merge ab c)
     <> rbind (deep_merge b c) (fun bc => deep_merge a bc).
Proof. intros a b c. split_and!; [reflexivity..|]. vm_compute. congruence. Qed.

(** C1 (amended): for all objects [a], [b], [c] such that at no key path [a]
    and [c] both hold an object while [b] holds a non-object,
    [deep_merge(deep_merge(a, b), c)] equals
    [deep_merge(a, deep_merge(b, c))]; and [deep_merge] is not commutative:
    there are two objects with different values at a shared key where the
    value that survives at that key is the one of the second argument, so
    that swapping the arguments changes it. *)
Theorem deep_merge_assoc_not_comm (a b c : dict) :
  wf (JObj a) = true -> wf (JObj b) = true -> wf (JObj c) = true ->
  assoc_ok a b c = true ->
  rbind (deep_merge (JObj a) (JObj b)) (fun ab => deep_merge ab (JObj c))
  = rbind (deep_merge (JObj b) (JObj c)) (fun bc => deep_merge (JObj a) bc)
  /\ exists (x y xy yx : dict) (k : string) (vx vy : json),
      dict_get k x = Some vx /\ dict_get k y = Some vy /\ vx <> vy
      /\ deep_merge (JObj x) (JObj y) = Ok (JObj xy)
      /\ deep_merge (JObj y) (JObj x) = Ok (JObj yx)
      /\ dict_get k xy = Some vy /\ dict_get k yx = Some vx.
Proof.
  intros Ha Hb Hc Hok. split.
  - simpl. by rewrite deep_merge_dict_assoc.
  - exists [("k", JPrim (PInt 1))], [("k", JPrim (PInt 2))],
      [("k", JPrim (PInt 2))], [("k", JPrim (PInt 1))],
      "k", (JPrim (PInt 1)), (JPrim (PInt 2)).
    split_and!; try reflexivity. congruence.
Qed.

Lemma deep_merge_assoc_not_comm_witness :
  let a := [("k", JObj [("p", JPrim (PInt 1))]); ("x", JPrim PNull)] in
  let b := [("k", JObj [("p", JPrim (PStr "s"))]); ("y", JList [])] in
  let c := [("k", JObj [("q", JPrim (PInt 2))]); ("x", JObj [])] in
  rbind (deep_merge (JObj a) (JObj b)) (fun ab => deep_merge ab (JObj c))
  = rbind (deep_merge (JObj b) (JObj c)) (fun bc => deep_merge (JObj a) bc).
Proof.
  intros a b c.
  exact (proj1 (deep_merge_assoc_not_comm a b c eq_refl eq_refl eq_refl eq_refl)).
Defined.

(** ** The order of the files *)

Global Instance file_le_trans {V} : Transitive (@file_le V).
Proof. intros x y z. unfold file_le. apply transitivity. Qed.

Global Instance file_le_total {V} : Total (@file_le V).
Proof. intros x y. unfold file_le. apply total, _. Qed.

Lemma sorted_items_perm (json_files : fileset) :
  sorted_items json_files ≡ₚ json_files.
Proof. apply merge_sort_Permutation. Qed.

Lemma sorted_items_sorted (json_files : fileset) :
  StronglySorted file_le (sorted_items json_files).
Proof. apply StronglySorted_merge_sort; apply _. Qed.

(** Two files, put into the FileSet in either order, come out with the
    smaller name first. *)
Lemma sorted_items_pair (f1 f2 : string) (c1 c2 : json) (json_files : fileset) :
  String.le f1 f2 -> f1 <> f2 ->
  json_files ≡ₚ [(f1, c1); (f2, c2)] ->
  sorted_items json_files = [(f1, c1); (f2, c2)].
Proof.
  intros Hle Hne Hperm.
  assert (json_files = [(f1, c1); (f2, c2)] \/ json_files = [(f2, c2); (f1, c1)])
    as [-> | ->].
  { destruct json_files as [|x [|y [|z l]]];
      try (apply Permutation_length in Hperm; simpl in Hperm; lia).
    assert (x ∈ [(f1, c1); (f2, c2)]) as Hx
      by (rewrite <- Hperm; apply elem_of_cons; by left).
    assert (y ∈ [(f1, c1); (f2, c2)]) as Hy
      by (rewrite <- Hperm; apply elem_of_cons; right; apply elem_of_cons; by left).
    assert (NoDup [x; y]) as Hnd.
    { rewrite Hperm. apply NoDup_cons; split; [|apply NoDup_singleton].
      intros H%list_elem_of_singleton. congruence. }
    apply NoDup_cons in Hnd as [Hxy _].
    apply elem_of_cons in Hx as [->|Hx%list_elem_of_singleton];
      apply elem_of_cons in Hy as [->|Hy%list_elem_of_singleton]; subst;
      try (exfalso; apply Hxy; apply list_elem_of_singleton; reflexivity); auto. }
  - unfold sorted_items, merge_sort. simpl.
    rewrite decide_True by done. reflexivity.
  - unfold sorted_items, merge_sort. simpl.
    rewrite decide_False; [reflexivity|].
    unfold file_le; simpl. intros Hge. apply Hne. by apply (anti_symm String.le).
Qed.

(** ** Two object files *)

Lemma merge_json_files_two_objects (f1 f2 : string) (d1 d2 : dict)
    (json_files : fileset) :
  String.le f1 f2 -> f1 <> f2 -> NoDup (keys d1) ->
  json_files ≡ₚ [(f1, JObj d1); (f2, JObj d2)] ->
  merge_json_files json_files = Ok (JObj (deep_merge_dict d1 d2)).
Proof.
  intros Hle Hne Hd1 Hperm. unfold merge_json_files.
  rewrite (sorted_items_pair f1 f2 (JObj d1) (JObj d2)) by done.
  simpl. by rewrite deep_merge_dict_empty_l.
Qed.

(** ** The accumulator *)

Lemma merge_loop_app (merged : json) (l1 l2 : fileset) :
  merge_loop merged (l1 ++ l2)
  = rbind (merge_loop merged l1) (fun m => merge_loop m l2).
Proof.
  revert merged. induction l1 as [|file l1 IH]; intros merged; simpl; [done|].
  destruct (merge_file merged file); simpl; [apply IH | done].
Qed.



(** ** Object files *)

(** What [deep_merge] stores for two objects is their deep merge. *)
Lemma merge_value_deep_merged (v2 : json) :
  wf v2 = true ->
  forall v1 : json,
    is_dict v1 && is_dict v2 = true ->
    deep_merged v1 v2 (merge_value (Some v1) v2).
Proof.
  induction v2 as [p|elems _|n IH] using json_ind; intros Hwf v1 Hboth;
    [by destruct v1..|].
  destruct v1 as [q|l|a]; [done..|]. rewrite merge_value_dict.
  apply wf_obj in Hwf as [Hn Hvals]. constructor.
  - intros k Hk. by rewrite dict_get_deep_merge, Hk by done.
  - intros k v Hk Hb. rewrite dict_get_deep_merge, Hk, Hb by done.
    cbn [merge_opt]. by rewrite merge_value_new.
  - intros k v existing Hk Hb Hnot.
    rewrite dict_get_deep_merge, Hk, Hb by done. cbn [merge_opt]. f_equal.
    by destruct existing as [| |x], v as [| |y].
  - intros k v existing Hk Hb Hobjects.
    exists (merge_value (Some existing) v). split.
    + by rewrite dict_get_deep_merge, Hk, Hb by done.
    + apply dict_get_Some_elem in Hk. rewrite Forall_forall in IH, Hvals.
      apply (IH _ Hk); [exact (Hvals _ Hk)|done].
Qed.

Lemma deep_merge_dict_deep_merged (a n : dict) :
  wf (JObj n) = true ->
  deep_merged (JObj a) (JObj n) (JObj (deep_merge_dict a n)).
Proof.
  intros Hwf. rewrite <- merge_value_dict.
  by apply merge_value_deep_merged.
Qed.

(** C2: [merge_json_files] walks the files in the order of their names: the
    list it walks is a rearrangement of the FileSet, and when it comes to a
    file, the files before it are those that sort before it.  When that file
    is an object and so is the accumulator built from the files before it,
    the accumulator becomes their deep merge ([deep_merged], which keeps
    what only the accumulator has): at a key both have, the recursive deep
    merge of the two values when both are objects, and otherwise the value
    of the file, the later one in the order. *)
Theorem merge_json_files_order_collision (json_files before rest : fileset)
    (filename : string) (d acc : dict) :
  sorted_items json_files = before ++ (filename, JObj d) :: rest ->
  merge_loop (JObj []) before = Ok (JObj acc) ->
  wf (JObj d) = true ->
  (sorted_items json_files ≡ₚ json_files
   /\ Forall (fun file => String.le file.1 filename) before
   /\ Forall (fun file => String.le filename file.1) rest)
  /\ exists r : dict,
      merge_file (JObj acc) (filename, JObj d) = Ok (JObj r)
      /\ merge_json_files json_files = merge_loop (JObj r) rest
      /\ deep_merged (JObj acc) (JObj d) (JObj r)
      /\ forall (k : string) (v1 v2 : json),
          dict_get k acc = Some v1 -> dict_get k d = Some v2 ->
          exists vr, dict_get k r = Some vr
            /\ if is_dict v1 && is_dict v2
               then deep_merge v1 v2 = Ok vr /\ deep_merged v1 v2 vr
               else vr = v2.
Proof.
  intros Hsort Hbefore Hwf. apply wf_obj in Hwf as Hd.
  destruct Hd as [Hd Hvals]. split.
  { pose proof (sorted_items_sorted json_files) as Hsorted.
    rewrite Hsort in Hsorted. split_and!.
    - apply sorted_items_perm.
    - apply Forall_forall. intros file Hfile.
      apply (StronglySorted_app_1_elem_of _ _ _ file (filename, JObj d)
               Hsorted Hfile).
      apply elem_of_cons. by left.
    - apply StronglySorted_app_1_r, StronglySorted_cons in Hsorted.
      apply Hsorted. }
  exists (deep_merge_dict acc d). split_and!.
  - reflexivity.
  - unfold merge_json_files.
    by rewrite Hsort, merge_loop_app, Hbefore.
  - by apply deep_merge_dict_deep_merged.
  - intros k v1 v2 H1 H2. rewrite dict_get_deep_merge, H1, H2 by done.
    cbn [merge_opt]. eexists; split; [reflexivity|].
    destruct (is_dict v1 && is_dict v2) eqn:Hobjects.
    + split.
      * by destruct v1 as [p1|l1|x], v2 as [p2|l2|y].
      * apply merge_value_deep_merged; [|done].
        apply dict_get_Some_elem in H2. rewrite Forall_forall in Hvals.
        exact (Hvals _ H2).
    + by destruct v1 as [p1|l1|x], v2 as [p2|l2|y].
Qed.

Lemma merge_json_files_order_collision_witness :
  let x := [("a", JPrim (PInt 1)); ("o", JObj [("p", JPrim (PInt 1))])] in
  let y := [("a", JObj [("b", JPrim (PInt 2))]); ("o", JObj [("q", JPrim PNull)])] in
  exists r : dict,
    merge_json_files [("y.json", JObj y); ("x.json", JObj x)] = Ok (JObj r)
    /\ deep_merged (JObj x) (JObj y) (JObj r)
    /\ dict_get "a" r = Some (JObj [("b", JPrim (PInt 2))])
    /\ dict_get "o" r
       = Some (JObj [("p", JPrim (PInt 1)); ("q", JPrim PNull)]).
Proof.
  intros x y.
  destruct (merge_json_files_order_collision
              [("y.json", JObj y); ("x.json", JObj x)]
              [("x.json", JObj x)] [] "y.json" y x eq_refl eq_refl eq_refl)
    as [_ [r (_ & Hr & Hmerged & Hk)]].
  exists r. split; [exact Hr|]. split; [exact Hmerged|].
  destruct (Hk "a" _ _ eq_refl eq_refl) as [va [Ha Hva]].
  destruct (Hk "o" _ _ eq_refl eq_refl) as [vo [Ho [Hvo _]]].
  simpl in Hva. injection Hvo as Hvo. by rewrite Ha, Ho, Hva, <- Hvo.
Defined.

(** ** Sequence files *)


(** ** The collector *)

Section collector_facts.
Context (loads : string -> parse).
Implicit Types (json_files : fileset) (out : list event) (e : entry).

Lemma bind_Ok {A B} (m : M A) (k : A -> M B) out (b : B) :
  m ≫= k = (out, Ok b) ->
  exists out1 a out2,
    m = (out1, Ok a) /\ k a = (out2, Ok b) /\ out = out1 ++ out2.
Proof.
  unfold mbind, M_bind, bind. destruct m as [out1 [a|ex]]; [|done].
  destruct (k a) as [out2 r] eqn:Hk. intros [= <- ->]. by exists out1, a, out2.
Qed.

Lemma bind_assoc {A B C} (m : M A) (k : A -> M B) (k' : B -> M C) :
  (m ≫= k) ≫= k' = m ≫= (fun a => k a ≫= k').
Proof.
  unfold mbind, M_bind, bind. destruct m as [out1 [a|ex]]; [|done].
  destruct (k a) as [out2 [b|ex]]; [|done].
  destruct (k' b) as [out3 r]. by rewrite app_assoc.
Qed.

Lemma for_each_app {A B} (body : B -> A -> M B) (xs ys : list A) (acc : B) :
  for_each body (xs ++ ys) acc
  = for_each body xs acc ≫= for_each body ys.
Proof.
  revert acc. induction xs as [|x xs IH]; intros acc; simpl.
  - unfold mbind, M_bind, bind, ret. by destruct (for_each body ys acc).
  - rewrite bind_assoc. unfold mbind, M_bind, bind.
    destruct (body acc x) as [out [acc'|ex]]; [|done]. by rewrite IH.
Qed.

(** A property of the accumulator that every round keeps holds at the end. *)
Lemma for_each_invariant {A B} (Inv : B -> Prop) (body : B -> A -> M B)
    (xs : list A) (acc acc' : B) out :
  Forall (fun x => forall a a' o, Inv a -> body a x = (o, Ok a') -> Inv a') xs ->
  Inv acc -> for_each body xs acc = (out, Ok acc') -> Inv acc'.
Proof.
  intros Hbody. revert acc out.
  induction Hbody as [|x xs Hx _ IH]; intros acc out Hacc; simpl.
  - by intros [= _ <-].
  - intros (o1 & a & o2 & Hb & Hrest & _)%bind_Ok. eauto.
Qed.

Lemma elem_of_dict_set (k k' : string) (v v' : json) (d : dict) :
  (k', v') ∈ dict_set k v d -> (k', v') = (k, v) \/ (k', v') ∈ d.
Proof.
  induction d as [|[k0 v0] d IH]; simpl.
  - intros ?%list_elem_of_singleton. by left.
  - destruct (String.eqb_spec k0 k) as [->|Hne];
      intros [H|H]%elem_of_cons; rewrite elem_of_cons; auto.
    destruct (IH H); auto.
Qed.

Lemma elem_of_update (kv : string * json) json_files (subdir_files : fileset) :
  kv ∈ update json_files subdir_files -> kv ∈ subdir_files \/ kv ∈ json_files.
Proof.
  unfold update. revert json_files.
  induction subdir_files as [|[k v] l IH]; intros json_files; simpl; [auto|].
  intros [H|H]%IH; rewrite elem_of_cons; [auto|].
  destruct kv as [k' v']. apply elem_of_dict_set in H as [H|H]; auto.
Qed.

Lemma get_file_contents_from_github_unfold (path : string) (remote : listing) :
  get_file_contents_from_github loads path remote
  = (print (FetchingFileList path);;
     match remote with
     | Listing ConnectionFailed => raise RequestException
     | Listing (Http status_code files) =>
         if status_code =? 200 then
           for_each (visit loads (get_file_contents_from_github loads)) files []
         else raise OtherException
     end).
Proof. by destruct remote as [[]]. Qed.

(** Only what was downloaded and parsed gets into the FileSet. *)
Lemma collector_serves (remote : listing) :
  forall path out json_files,
    get_file_contents_from_github loads path remote = (out, Ok json_files) ->
    forall filename content,
      (filename, content) ∈ json_files -> serves loads remote filename content.
Proof.
  induction remote as [|status_code files IH] using listing_ind;
    intros path out json_files Hrun;
    rewrite get_file_contents_from_github_unfold in Hrun;
    apply bind_Ok in Hrun as (o1 & [] & o2 & _ & Hrun & _); [done|].
    destruct (status_code =? 200); [|done].
    intros filename content.
    revert Hrun. generalize o2 json_files. clear o1 o2 out json_files.
    intros out json_files Hrun.
    refine (for_each_invariant
              (fun acc : fileset => forall filename content,
                   (filename, content) ∈ acc ->
                   serves loads (Listing (Http status_code files)) filename content)
              _ files [] json_files out _ _ Hrun filename content).
    + clear Hrun. apply Forall_forall. intros [[it download] subdir] He.
      intros a a' o Ha Hvisit f c Hin. unfold visit in Hvisit.
      cbv beta iota in Hvisit.
      rewrite Forall_forall in IH.
      destruct (is_json_file it) eqn:Hjson.
      * apply bind_Ok in Hvisit as (? & [] & ? & _ & Hvisit & _).
        destruct (url_given (download_url it)) eqn:Hurl;
          [|injection Hvisit as _ <-; auto].
        destruct download as [st text|]; [|done].
        destruct (Z.eqb_spec st 200) as [->|Hst].
        -- destruct (loads text) as [json_content| |e] eqn:Hloads; [| |done].
           ++ apply bind_Ok in Hvisit as (? & [] & ? & _ & Hvisit & _).
              injection Hvisit as _ <-.
              apply elem_of_dict_set in Hin as [[= -> ->]|Hin]; [|auto].
              by eapply serves_file.
           ++ apply bind_Ok in Hvisit as (? & [] & ? & _ & Hvisit & _).
              injection Hvisit as _ <-. auto.
        -- apply bind_Ok in Hvisit as (? & [] & ? & _ & Hvisit & _).
           injection Hvisit as _ <-. auto.
      * destruct (is_dir it) eqn:Hdir; [|injection Hvisit as _ <-; auto].
        apply bind_Ok in Hvisit as (? & [] & ? & _ & Hvisit & _).
        apply bind_Ok in Hvisit as (? & subdir_files & ? & Hsub & Hvisit & _).
        injection Hvisit as _ <-.
        apply elem_of_update in Hin as [Hin|Hin]; [|auto].
        eapply serves_dir; [done..|]. exact (IH _ He _ _ _ Hsub _ _ Hin).
    + intros f c Hin. by apply elem_of_nil in Hin.
Qed.

(** A file that is not downloaded or does not parse costs two printed lines
    and leaves the FileSet as it was. *)
Lemma visit_not_loaded recurse json_files (it : item) download subdir diagnostic :
  is_json_file it = true -> url_given (download_url it) = true ->
  not_loaded loads (item_path it) download diagnostic ->
  visit loads recurse json_files (it, download, subdir)
  = ([Downloading (item_path it); diagnostic], Ok json_files).
Proof.
  intros Hjson Hurl Hnot. unfold visit. rewrite Hjson, Hurl.
  destruct Hnot as [status_code text Hst|text Hparse].
  - apply Z.eqb_neq in Hst. by rewrite Hst.
  - simpl. by rewrite Hparse.
Qed.

(** The walk goes on after such a file as if it had not been listed. *)
Lemma collector_skips path (before after : list entry) (it : item) download
    subdir diagnostic :
  is_json_file it = true -> url_given (download_url it) = true ->
  not_loaded loads (item_path it) download diagnostic ->
  let listed :=
    get_file_contents_from_github loads path
      (Listing (Http 200 (before ++ (it, download, subdir) :: after))) in
  let unlisted :=
    get_file_contents_from_github loads path
      (Listing (Http 200 (before ++ after))) in
  listed.2 = unlisted.2
  /\ (forall json_files, listed.2 = Ok json_files -> diagnostic ∈ listed.1).
Proof.
  intros Hjson Hurl Hnot listed unlisted. subst listed unlisted.
  rewrite !get_file_contents_from_github_unfold.
  change (200 =? 200) with true. cbv iota. rewrite !for_each_app.
  destruct (for_each _ before []) as [out1 [acc|ex]];
    unfold mbind, M_bind, bind, print; [|done].
  cbn [for_each]. rewrite (visit_not_loaded _ _ _ _ _ _ Hjson Hurl Hnot).
  unfold mbind, M_bind, bind.
  destruct (for_each _ after acc) as [out2 r]. simpl. split; [done|].
  intros _ _. rewrite !elem_of_cons, elem_of_app, !elem_of_cons. auto.
Qed.

(** A [*.json] entry without a download address costs the line that
    announces the download and nothing else. *)
Lemma visit_no_url recurse json_files (it : item) download subdir :
  is_json_file it = true -> url_given (download_url it) = false ->
  visit loads recurse json_files (it, download, subdir)
  = ([Downloading (item_path it)], Ok json_files).
Proof. intros Hjson Hurl. unfold visit. by rewrite Hjson, Hurl. Qed.

Lemma collector_no_url path (before after : list entry) (it : item) download
    subdir :
  is_json_file it = true -> url_given (download_url it) = false ->
  let listed :=
    get_file_contents_from_github loads path
      (Listing (Http 200 (before ++ (it, download, subdir) :: after))) in
  let unlisted :=
    get_file_contents_from_github loads path
      (Listing (Http 200 (before ++ after))) in
  listed.2 = unlisted.2
  /\ forall ev, ev ∈ listed.1 ->
       ev ∈ unlisted.1 \/ ev = Downloading (item_path it).
Proof.
  intros Hjson Hurl listed unlisted. subst listed unlisted.
  rewrite !get_file_contents_from_github_unfold.
  change (200 =? 200) with true. cbv iota. rewrite !for_each_app.
  destruct (for_each _ before []) as [out1 [acc|ex]];
    unfold mbind, M_bind, bind, print; [|by auto].
  cbn [for_each]. rewrite (visit_no_url _ _ _ _ _ Hjson Hurl).
  unfold mbind, M_bind, bind.
  destruct (for_each _ after acc) as [out2 r]. simpl. split; [done|].
  intros ev. rewrite !elem_of_cons, !elem_of_app, !elem_of_cons. tauto.
Qed.

End collector_facts.

(** C8, as it is written, fails.  A [*.json] entry that comes without a
    download address is dropped and no diagnostic is printed for it: only
    the line that announces the download, then the walk goes on.  And a
    text that [json.loads] refuses with an exception other than
    [JSONDecodeError] (here a numeral of 4301 digits, a ValueError) is not
    skipped: the walk ends with that exception and the file listed after it
    is never asked for. *)
Lemma collector_drop_counterexample :
  get_file_contents_from_github sample_loads "output"
    (Listing (Http 200
       [(Item "output/a.json" (Some "file") None, Http 200 "1",
         Listing ConnectionFailed);
        sample_file "output/c.json" "[2]"]))
  = ([FetchingFileList "output"; Downloading "output/a.json";
      Downloading "output/c.json"; Loaded "c.json"],
     Ok [("c.json", JList [JPrim (PInt 2)])])
  /\ get_file_contents_from_github sample_loads "output"
       (Listing (Http 200
          [sample_file "output/big.json" (nines 4301);
           sample_file "output/c.json" "[2]"]))
     = ([FetchingFileList "output"; Downloading "output/big.json"],
        Raise ValueError).
Proof. split; vm_compute; reflexivity. Qed.

(** C8 (amended): when the collector returns, the FileSet holds only what
    some listed [*.json] file gave when its download succeeded and its text
    parsed (under the base name of that file); a file with a download
    address whose download is answered with a status other than 200, or
    whose text [json.loads] refuses with [JSONDecodeError], is reported in
    the output and then passed over: the walk ends as it ends without that
    entry in the listing; and a [*.json] entry without a download address
    is passed over in the same way, but without a diagnostic. *)
Theorem collector_only_parsed (loads : string -> parse) (path : string)
    (remote : listing) (out : list event) (json_files : fileset)
    (filename : string) (content : json) :
  get_file_contents_from_github loads path remote = (out, Ok json_files) ->
  (filename, content) ∈ json_files ->
  serves loads remote filename content
  /\ (forall (before after : list entry) (it : item) (download : http string)
        (subdir : listing) (diagnostic : event),
      is_json_file it = true -> url_given (download_url it) = true ->
      not_loaded loads (item_path it) download diagnostic ->
      let listed :=
        get_file_contents_from_github loads path
          (Listing (Http 200 (before ++ (it, download, subdir) :: after))) in
      let unlisted :=
        get_file_contents_from_github loads path
          (Listing (Http 200 (before ++ after))) in
      listed.2 = unlisted.2
      /\ (forall fs, listed.2 = Ok fs -> diagnostic ∈ listed.1))
  /\ (forall (before after : list entry) (it : item) (download : http string)
        (subdir : listing),
      is_json_file it = true -> url_given (download_url it) = false ->
      let listed :=
        get_file_contents_from_github loads path
          (Listing (Http 200 (before ++ (it, download, subdir) :: after))) in
      let unlisted :=
        get_file_contents_from_github loads path
          (Listing (Http 200 (before ++ after))) in
      listed.2 = unlisted.2
      /\ (forall ev, ev ∈ listed.1 ->
            ev ∈ unlisted.1 \/ ev = Downloading (item_path it))).
Proof.
  intros Hrun Hin. split_and!.
  - by eapply collector_serves.
  - intros. by apply collector_skips.
  - intros. by apply collector_no_url.
Qed.

Lemma collector_only_parsed_witness :
  serves sample_loads sample_remote "c.json" (JList [JPrim (PInt 2)])
  /\ (get_file_contents_from_github sample_loads "output" sample_remote).2
     = (get_file_contents_from_github sample_loads "output"
          (Listing (Http 200
             [sample_file "output/a.json" "1";
              (Item "output/sub" (Some "dir") None, ConnectionFailed,
               Listing (Http 200 [sample_file "output/sub/c.json" "[2]"]))]))).2
  /\ FailedToParse "output/b.json"
     ∈ (get_file_contents_from_github sample_loads "output" sample_remote).1.
Proof.
  assert (("c.json", JList [JPrim (PInt 2)])
          ∈ [("a.json", JPrim (PInt 1)); ("c.json", JList [JPrim (PInt 2)])])
    as Hin by (apply elem_of_cons; right; apply elem_of_cons; by left).
  destruct (collector_only_parsed sample_loads "output" sample_remote
              _ _ "c.json" (JList [JPrim (PInt 2)]) eq_refl Hin)
    as (Hserves & Hskip & _).
  split; [exact Hserves|].
  destruct (Hskip [sample_file "output/a.json" "1"]
              [(Item "output/sub" (Some "dir") None, ConnectionFailed,
                Listing (Http 200 [sample_file "output/sub/c.json" "[2]"]))]
              (Item "output/b.json" (Some "file") (Some "https://raw.example/f"))
              (Http 200 "{") (Listing ConnectionFailed)
              (FailedToParse "output/b.json") eq_refl eq_refl
              (not_parsed sample_loads "output/b.json" "{" eq_refl))
    as [Hsame Hdiag].
  split; [exact Hsame|]. exact (Hdiag _ eq_refl).
Defined.

(** ** [main] without files *)

(** C9: when the collector returns an empty FileSet, [main] prints that no
    JSON files were found and returns: nothing is merged, no file is written
    and no error is reported. *)
Theorem main_no_files (loads : string -> parse)
    (write : json -> write_outcome) (remote : listing) (out : list event) :
  get_file_contents_from_github loads OUTPUT_PATH remote = (out, Ok []) ->
  main loads write remote
  = Outcome (FetchingJsonFiles :: out ++ [NoJsonFilesFound]) Untouched.
Proof.
  intros Hrun. unfold main, mbind, M_bind, bind, print. by rewrite Hrun.
Qed.

Lemma main_no_files_witness :
  let remote :=
    Listing (Http 200
      [sample_file "output/b.json" "{";
       (Item "output/readme.md" (Some "file") (Some "https://raw.example/f"),
        Http 200 "1", Listing ConnectionFailed)]) in
  main sample_loads sample_write remote
  = Outcome [FetchingJsonFiles; FetchingFileList "output";
             Downloading "output/b.json"; FailedToParse "output/b.json";
             NoJsonFilesFound] Untouched.
Proof.
  intros remote.
  exact (main_no_files sample_loads sample_write remote _ eq_refl).
Defined.

(** ** A sequence accumulator meets other files *)

Lemma merge_file_object_onto_sequence (m : list json) (filename : string)
    (kv : string * json) (d : dict) :
  merge_file (JList m) (filename, JObj (kv :: d)) = Raise TypeError.
Proof. reflexivity. Qed.

Lemma merge_file_primitive_onto_sequence (m : list json) (filename : string)
    (p : prim) :
  merge_file (JList m) (filename, JPrim p) = Raise TypeError.
Proof. reflexivity. Qed.

(** C5: an object file that follows a sequence accumulator is not written
    into it: with [a.json = [1]] and [b.json = {"k": 1}] the run ends in a
    TypeError, and so does every round that merges a non-empty object into a
    sequence. *)
Theorem merge_json_files_object_after_sequence :
  merge_json_files
    [("a.json", JList [JPrim (PInt 1)]);
     ("b.json", JObj [("k", JPrim (PInt 1))])]
  = Raise TypeError
  /\ forall (m : list json) (filename : string) (kv : string * json) (d : dict),
      merge_file (JList m) (filename, JObj (kv :: d)) = Raise TypeError.
Proof. split; [reflexivity | apply merge_file_object_onto_sequence]. Qed.

(** C10: there is a FileSet whose first file in name order is a sequence and
    which has a primitive file later, on which [merge_json_files] raises a
    TypeError instead of returning a document: the primitive is to be stored
    under a string key of the list the accumulator has become. *)
Theorem merge_json_files_primitive_after_sequence :
  exists (json_files : fileset) (f1 f2 : string) (c : list json) (p : prim)
         (rest : fileset),
    sorted_items json_files = (f1, JList c) :: rest
    /\ (f2, JPrim p) ∈ rest
    /\ merge_loop (JObj []) [(f1, JList c)] = Ok (JList c)
    /\ setitem (JList c) (splitext_root f2) (JPrim p) = Raise TypeError
    /\ merge_file (JList c) (f2, JPrim p) = Raise TypeError
    /\ merge_json_files json_files = Raise TypeError.
Proof.
  exists [("version.json", JPrim (PStr "1.0"));
          ("a.json", JList [JPrim (PInt 1); JPrim (PInt 2)])],
    "a.json", "version.json", [JPrim (PInt 1); JPrim (PInt 2)], (PStr "1.0"),
    [("version.json", JPrim (PStr "1.0"))].
  split_and!; try reflexivity. apply elem_of_cons. by left.
Qed.


(** ** The store: what a call leaves alone *)

Section keeps_facts.
Import Store.
Implicit Types (h : heap) (n l : nat).

Lemma keeps_weaken {A} n (m : St A) (Q R : A -> Prop) :
  keeps n m Q -> (forall a, Q a -> R a) -> keeps n m R.
Proof.
  intros Hm HQR h o h' Hn Hrun. destruct (Hm h o h' Hn Hrun) as (? & ? & HQ).
  split_and!; [done..|]. intros a Ha. by apply HQR, HQ.
Qed.

Lemma keeps_ret {A} n (a : A) (Q : A -> Prop) : Q a -> keeps n (ret a) Q.
Proof.
  intros HQ h o h' _. unfold ret. intros [= <- <-].
  split_and!; [done..|]. by intros ? [= <-].
Qed.

Lemma keeps_throw {A} n (e : exn) (Q : A -> Prop) : keeps n (throw e) Q.
Proof. intros h o h' _. unfold throw. intros [= <- <-]. split_and!; done. Qed.

Lemma keeps_bind {A B} n (m : St A) (k : A -> St B) (Q : A -> Prop)
    (R : B -> Prop) :
  keeps n m Q -> (forall a, Q a -> keeps n (k a) R) -> keeps n (bind m k) R.
Proof.
  intros Hm Hk h o h' Hn. unfold bind.
  destruct (m h) as [o1 h1] eqn:Hrun1.
  destruct (Hm h o1 h1 Hn Hrun1) as (Hlen & Htake & HQ).
  destruct o1 as [a|e| |]; try (intros [= <- <-]; split_and!; done).
  intros Hrun2.
  destruct (Hk a (HQ a eq_refl) h1 o h' ltac:(lia) Hrun2) as (? & ? & ?).
  split_and!; [lia | congruence | done].
Qed.

Lemma keeps_read n l : keeps n (read l) (fun _ => True).
Proof.
  intros h o h' _. unfold read.
  destruct (h !! l); intros [= <- <-]; split_and!; done.
Qed.

Lemma keeps_alloc n (ob : object) : keeps n (alloc ob) (fun l => (n <= l)%nat).
Proof.
  intros h o h' Hn. unfold alloc. intros [= <- <-].
  rewrite length_app. simpl. split_and!; [lia| |].
  - by rewrite take_app_le.
  - by intros ? [= <-].
Qed.

Lemma keeps_write n l (ob : object) :
  (n <= l)%nat -> keeps n (write l ob) (fun _ => True).
Proof.
  intros Hl h o h' _. unfold write.
  destruct (h !! l); intros [= <- <-]; [|split_and!; done].
  rewrite length_insert. split_and!; [done| |done].
  by rewrite take_insert_ge.
Qed.

Lemma keeps_for_each {A B} n (body : B -> A -> St B) (xs : list A) (acc : B) :
  (forall b x, keeps n (body b x) (fun _ => True)) ->
  keeps n (for_each body xs acc) (fun _ => True).
Proof.
  intros Hbody. revert acc. induction xs as [|x xs IH]; intros acc; simpl.
  - by apply keeps_ret.
  - eapply keeps_bind; [apply Hbody|]. intros b _. apply IH.
Qed.

Lemma keeps_kind_of n (v : val) : keeps n (kind_of v) (fun _ => True).
Proof.
  destruct v as [p|l]; simpl; [by apply keeps_ret|].
  eapply keeps_bind; [apply keeps_read|].
  intros [|] _; by apply keeps_ret.
Qed.

Lemma keeps_isinstance_dict n (v : val) :
  keeps n (isinstance_dict v) (fun _ => True).
Proof.
  eapply keeps_bind; [apply keeps_kind_of|]. intros k _. by apply keeps_ret.
Qed.

Lemma keeps_copy n (base : val) : keeps n (copy base) (fun l => (n <= l)%nat).
Proof.
  destruct base as [p|l]; simpl; [apply keeps_throw|].
  eapply keeps_bind; [apply keeps_read|]. intros o _. apply keeps_alloc.
Qed.

Lemma keeps_items n (new : val) : keeps n (items new) (fun _ => True).
Proof.
  destruct new as [p|l]; simpl; [apply keeps_throw|].
  eapply keeps_bind; [apply keeps_read|].
  intros [|] _; [by apply keeps_ret | apply keeps_throw].
Qed.

Lemma keeps_contains n key l : keeps n (contains key l) (fun _ => True).
Proof.
  eapply keeps_bind; [apply keeps_read|]. intros [|] _; by apply keeps_ret.
Qed.

Lemma keeps_getitem n l key : keeps n (getitem l key) (fun _ => True).
Proof.
  eapply keeps_bind; [apply keeps_read|]. intros [its|] _; [|apply keeps_throw].
  destruct (dict_get key its); [by apply keeps_ret | apply keeps_throw].
Qed.

Lemma keeps_setitem n l key (v : val) :
  (n <= l)%nat -> keeps n (setitem l key v) (fun _ => True).
Proof.
  intros Hl. eapply keeps_bind; [apply keeps_read|].
  intros [its|] _; [by apply keeps_write | apply keeps_throw].
Qed.

Lemma keeps_merge_item n (recurse : val -> val -> St loc) (result : loc)
    (item : string * val) :
  (n <= result)%nat ->
  (forall b v, keeps n (recurse b v) (fun _ => True)) ->
  keeps n (merge_item recurse result item) (fun _ => True).
Proof.
  intros Hres Hrec. destruct item as [key value]. unfold merge_item.
  eapply keeps_bind; [apply keeps_contains|].
  intros [|] _; [|by apply keeps_setitem].
  eapply keeps_bind; [apply keeps_getitem|]. intros existing _.
  eapply keeps_bind; [apply keeps_isinstance_dict|].
  intros [|] _; [|by apply keeps_setitem].
  eapply keeps_bind; [apply keeps_isinstance_dict|].
  intros [|] _; [|by apply keeps_setitem].
  eapply keeps_bind; [apply keeps_getitem|]. intros existing' _.
  eapply keeps_bind; [apply Hrec|]. intros merged _. by apply keeps_setitem.
Qed.

(** [deep_merge] only adds objects, and what it returns is one of them. *)
Lemma keeps_deep_merge fuel n (base new : val) :
  keeps n (deep_merge fuel base new) (fun l => (n <= l)%nat).
Proof.
  revert base new. induction fuel as [|fuel IH]; intros base new; simpl.
  - intros h o h' _ [= <- <-]. split_and!; done.
  - eapply keeps_bind; [apply keeps_copy|]. intros result Hres.
    eapply keeps_bind; [apply keeps_items|]. intros new_items _.
    eapply keeps_bind; [|intros _ _; by apply keeps_ret].
    apply keeps_for_each. intros _ item. apply keeps_merge_item; [done|].
    intros b v. eapply keeps_weaken; [apply IH|done].
Qed.

End keeps_facts.

(** ** The store: values as JSON *)

Section repr_facts.
Import Store.
Implicit Types (h : heap) (D : loc -> Prop) (v : val) (j : json).

(** A representation survives any change of the store outside its
    locations. *)
Lemma repr_mono D D' h h' v j :
  (forall l, D l -> D' l /\ h' !! l = h !! l) ->
  repr D h v j -> repr D' h' v j.
Proof.
  intros Hagree. revert v.
  induction j as [p|elems IH|its IH] using json_ind; intros v Hv;
    inversion Hv as [|l vs ? HD Hl Hall|l vits ? HD Hl Hall]; subst.
  - constructor.
  - destruct (Hagree l HD) as [HD' Hl']. apply repr_list with vs;
      [done | congruence |].
    clear Hv Hl Hl'. induction Hall as [|x y xs ys Hxy _ IHall];
      [constructor|].
    apply Forall_cons in IH as [IHy IHys]. constructor; auto.
  - destruct (Hagree l HD) as [HD' Hl']. apply repr_dict with vits;
      [done | congruence |].
    clear Hv Hl Hl'. induction Hall as [|x y xs ys [Hk Hxy] _ IHall];
      [constructor|].
    apply Forall_cons in IH as [IHy IHys]. constructor; auto.
Qed.

Lemma items_repr_mono D D' h h' (vits : list (string * val)) (its : dict) :
  (forall l, D l -> D' l /\ h' !! l = h !! l) ->
  items_repr D h vits its -> items_repr D' h' vits its.
Proof.
  intros Hagree Hall. unfold items_repr in *.
  eapply Forall2_impl; [exact Hall|]. intros x y [Hk Hxy].
  split; [done|]. by eapply repr_mono.
Qed.

Lemma items_repr_get D h key (vits : list (string * val)) (its : dict) :
  items_repr D h vits its ->
  match dict_get key vits, dict_get key its with
  | Some v, Some j => repr D h v j
  | None, None => True
  | _, _ => False
  end.
Proof.
  induction 1 as [|[k v] [k' j] vits its [Hk Hv] _ IH]; simpl in *; [done|].
  subst k'. by destruct (String.eqb k key).
Qed.

Lemma items_repr_set D h key v j (vits : list (string * val)) (its : dict) :
  items_repr D h vits its -> repr D h v j ->
  items_repr D h (dict_set key v vits) (dict_set key j its).
Proof.
  intros Hall Hv.
  induction Hall as [|[k v0] [k' j0] vits its [Hk Hv0] Hall IH]; simpl in *.
  - by repeat constructor.
  - subst k'. destruct (String.eqb k key); constructor; auto.
Qed.

Lemma repr_is_dict D h v j :
  repr D h v j -> isinstance_dict v h = (Returns (is_dict j), h).
Proof.
  intros Hv. unfold isinstance_dict, kind_of, bind, read, ret.
  inversion Hv as [|l vs ? HD Hl Hall|l vits ? HD Hl Hall]; subst; [done|..];
    by rewrite Hl.
Qed.

End repr_facts.

(** ** The store: [deep_merge] computes the merge of the values *)

Section deep_merge_store.
Import Store.
Implicit Types (h : heap) (D : loc -> Prop) (v : val) (j : json) (r : loc).

Lemma bind_returns {A B} (m : St A) (k : A -> St B) h (a : A) h1 :
  m h = (Returns a, h1) -> bind m k h = k a h1.
Proof. intros Hm. unfold bind. by rewrite Hm. Qed.

Lemma run_contains key r h its :
  h !! r = Some (ODict its) ->
  contains key r h = (Returns (bool_decide (is_Some (dict_get key its))), h).
Proof. intros Hr. unfold contains, bind, read, ret. by rewrite Hr. Qed.

Lemma run_getitem key r h its v :
  h !! r = Some (ODict its) -> dict_get key its = Some v ->
  getitem r key h = (Returns v, h).
Proof. intros Hr Hv. unfold getitem, bind, read, ret. by rewrite Hr, Hv. Qed.

Lemma run_setitem key r h its v :
  h !! r = Some (ODict its) ->
  setitem r key v h = (Returns tt, <[r := ODict (dict_set key v its)]> h).
Proof. intros Hr. unfold setitem, bind, read, write. by rewrite Hr, Hr. Qed.

Lemma take_lookup_agree n h h' l :
  take n h' = take n h -> (l < n)%nat -> h' !! l = h !! l.
Proof.
  intros Htake Hl.
  rewrite <- (lookup_take_lt h' n l), <- (lookup_take_lt h n l) by done.
  by rewrite Htake.
Qed.

(** Storing under a key of the fresh copy [r]. *)
Lemma setitem_repr D r h key v j ritems res :
  (r < List.length h)%nat -> (forall l, D l -> (l < r)%nat) ->
  h !! r = Some (ODict ritems) ->
  items_repr (above D r h) h ritems res ->
  repr (above D r h) h v j ->
  exists h' ritems',
    setitem r key v h = (Returns tt, h')
    /\ (List.length h <= List.length h')%nat
    /\ (forall l, (l < r)%nat -> h' !! l = h !! l)
    /\ h' !! r = Some (ODict ritems')
    /\ items_repr (above D r h') h' ritems' (dict_set key j res).
Proof.
  intros Hr HD Hlook Hitems Hv.
  exists (<[r := ODict (dict_set key v ritems)]> h), (dict_set key v ritems).
  assert (forall l, above D r h l ->
            above D r (<[r := ODict (dict_set key v ritems)]> h) l
            /\ <[r := ODict (dict_set key v ritems)]> h !! l = h !! l) as Hagree.
  { intros l Hl. unfold above in *. rewrite length_insert. split; [done|].
    apply list_lookup_insert_ne. destruct Hl as [Hl%HD|Hl]; lia. }
  split_and!.
  - by apply run_setitem.
  - by rewrite length_insert.
  - intros l Hl. apply list_lookup_insert_ne. lia.
  - by apply list_lookup_insert_eq.
  - apply items_repr_set; [by eapply items_repr_mono | by eapply repr_mono].
Qed.

Section with_fuel.
Variable fuel : nat.

(** What [deep_merge] with this fuel is to do; [merge_item] relies on it. *)
Hypothesis recursion :
  forall D h base new a b,
    (forall l, D l -> (l < List.length h)%nat) ->
    repr D h base (JObj a) -> repr D h new (JObj b) ->
    (depth (JObj b) <= fuel)%nat ->
    exists h',
      deep_merge fuel base new h = (Returns (List.length h), h')
      /\ repr (fun l => D l \/ (List.length h <= l < List.length h')%nat) h'
           (VRef (List.length h)) (JObj (deep_merge_dict a b)).

Lemma merge_item_repr D r h key v j ritems res :
  (r < List.length h)%nat -> (forall l, D l -> (l < r)%nat) ->
  h !! r = Some (ODict ritems) ->
  items_repr (above D r h) h ritems res ->
  repr D h v j -> (depth j <= fuel)%nat ->
  exists h' ritems',
    merge_item (deep_merge fuel) r (key, v) h = (Returns tt, h')
    /\ (List.length h <= List.length h')%nat
    /\ (forall l, (l < r)%nat -> h' !! l = h !! l)
    /\ h' !! r = Some (ODict ritems')
    /\ items_repr (above D r h') h' ritems'
         (dict_set key (merge_value (dict_get key res) j) res).
Proof.
  intros Hr HD Hlook Hitems Hv Hdepth.
  assert (repr (above D r h) h v j) as Hv'.
  { eapply repr_mono; [|exact Hv]. intros l Hl. split; [by left | done]. }
  pose proof (items_repr_get _ _ key _ _ Hitems) as Hget.
  unfold merge_item.
  rewrite (bind_returns _ _ _ _ _ (run_contains key r h ritems Hlook)).
  destruct (dict_get key ritems) as [ev|] eqn:Hev,
           (dict_get key res) as [ej|] eqn:Hej; try done.
  2: { rewrite bool_decide_false by (by intros [? ?]).
       rewrite merge_value_new. by apply setitem_repr with ritems. }
  rewrite bool_decide_true by eauto.
  rewrite (bind_returns _ _ _ _ _ (run_getitem key r h ritems ev Hlook Hev)).
  rewrite (bind_returns _ _ _ _ _ (repr_is_dict _ _ _ _ Hget)).
  destruct ej as [pe|le|ea]; cbn [is_dict];
    [rewrite merge_value_over by (intros ? [=]);
     by apply setitem_repr with ritems..|].
  rewrite (bind_returns _ _ _ _ _ (repr_is_dict _ _ _ _ Hv)).
  destruct j as [pj|lj|b]; cbn [is_dict];
    [by apply setitem_repr with ritems..|].
  rewrite (bind_returns _ _ _ _ _ (run_getitem key r h ritems ev Hlook Hev)).
  destruct (recursion (above D r h) h ev v ea b) as (h1 & Hrec & Hm);
    [|done|done|done|].
  { intros l [Hl%HD|Hl]; lia. }
  rewrite (bind_returns _ _ _ _ _ Hrec).
  pose proof (keeps_deep_merge fuel (List.length h) ev v h _ h1
                (le_n _) Hrec) as (Hlen & Htake & _).
  assert (forall l, (l < List.length h)%nat -> h1 !! l = h !! l) as Hold
    by (intros l Hl; by apply (take_lookup_agree (List.length h))).
  rewrite merge_value_dict.
  destruct (setitem_repr D r h1 key (VRef (List.length h))
              (JObj (deep_merge_dict ea b)) ritems res)
    as (h' & ritems' & Hrun & Hlen' & Hframe & Hlook' & Hitems');
    [lia | done | by rewrite Hold | |  |].
  - eapply items_repr_mono; [|exact Hitems]. intros l Hl. split.
    + destruct Hl as [Hl|Hl]; [by left | right; lia].
    + apply Hold. destruct Hl as [Hl%HD|Hl]; lia.
  - eapply repr_mono; [|exact Hm]. intros l Hl. split; [|done].
    destruct Hl as [[Hl|Hl]|Hl]; [by left | right; lia | right; lia].
  - exists h', ritems'. split_and!; [done | lia | | done | done].
    intros l Hl. rewrite Hframe by done. apply Hold. lia.
Qed.

(** The loop over the items of [new]. *)
Lemma merge_items_repr D r (vits : list (string * val)) (its : dict) :
  forall h ritems res,
    (r < List.length h)%nat -> (forall l, D l -> (l < r)%nat) ->
    h !! r = Some (ODict ritems) ->
    items_repr (above D r h) h ritems res ->
    items_repr D h vits its ->
    Forall (fun kj => (depth kj.2 <= fuel)%nat) its ->
    exists h' ritems',
      for_each (fun _ => merge_item (deep_merge fuel) r) vits tt h
      = (Returns tt, h')
      /\ (List.length h <= List.length h')%nat
      /\ (forall l, (l < r)%nat -> h' !! l = h !! l)
      /\ h' !! r = Some (ODict ritems')
      /\ items_repr (above D r h') h' ritems' (deep_merge_dict res its).
Proof.
  revert vits. induction its as [|[k j] its IH];
    intros vits h ritems res Hr HD Hlook Hitems Hnew Hdepth;
    inversion Hnew as [|[k' v] ? vits' ? [Hk Hv] Hnew']; subst;
    cbn [for_each deep_merge_dict].
  - exists h, ritems. split_and!; done.
  - apply Forall_cons in Hdepth as [Hj Hdepth]. simpl in Hj, Hk, Hv. subst k'.
    destruct (merge_item_repr D r h k v j ritems res)
      as (h1 & ritems1 & Hrun1 & Hlen1 & Hframe1 & Hlook1 & Hitems1); [done..|].
    rewrite (bind_returns _ _ _ _ _ Hrun1).
    destruct (IH vits' h1 ritems1
                (dict_set k (merge_value (dict_get k res) j) res))
      as (h' & ritems' & Hrun & Hlen & Hframe & Hlook' & Hitems');
      [lia | done | done | done | | done |].
    { eapply items_repr_mono; [|exact Hnew']. intros l Hl. split; [done|].
      by apply Hframe1, HD. }
    exists h', ritems'. split_and!; [done | lia | | done | done].
    intros l Hl. rewrite Hframe by done. by apply Hframe1.
Qed.

End with_fuel.

Lemma depth_items (its : dict) (n : nat) :
  (depth (JObj its) <= S n)%nat ->
  Forall (fun kj => (depth kj.2 <= n)%nat) its.
Proof.
  simpl. intros H%le_S_n. induction its as [|[k j] its IH]; [constructor|].
  simpl in H. constructor; [simpl; lia | apply IH; lia].
Qed.

(** With fuel for the depth of [new], [deep_merge] on two objects returns a
    new object, which is the merge of the two values. *)
Lemma deep_merge_repr (fuel : nat) :
  forall D h base new a b,
    (forall l, D l -> (l < List.length h)%nat) ->
    repr D h base (JObj a) -> repr D h new (JObj b) ->
    (depth (JObj b) <= fuel)%nat ->
    exists h',
      deep_merge fuel base new h = (Returns (List.length h), h')
      /\ repr (fun l => D l \/ (List.length h <= l < List.length h')%nat) h'
           (VRef (List.length h)) (JObj (deep_merge_dict a b)).
Proof.
  induction fuel as [|fuel IH]; intros D h base new a b HD Hbase Hnew Hdepth.
  { simpl in Hdepth. lia. }
  inversion Hbase as [| |lb avits ? HDb Hlb Ha]; subst.
  inversion Hnew as [| |ln bvits ? HDn Hln Hb]; subst.
  set (r := List.length h). set (h1 := h ++ [ODict avits]).
  assert (forall l, D l -> above D r h1 l /\ h1 !! l = h !! l) as Hagree.
  { intros l Hl. split; [by left|]. apply lookup_app_l. by apply HD. }
  destruct (merge_items_repr fuel IH D r bvits b h1 avits a)
    as (h' & ritems' & Hrun & Hlen & Hframe & Hlook' & Hitems').
  { subst r h1. rewrite length_app. simpl. lia. }
  { done. }
  { subst r h1. by apply list_lookup_middle. }
  { by eapply items_repr_mono. }
  { eapply items_repr_mono; [|exact Hb]. intros l Hl.
    split; [done | by apply Hagree]. }
  { by apply depth_items. }
  exists h'. split.
  - cbn [deep_merge]. unfold copy.
    assert (bind (read lb) alloc h = (Returns r, h1)) as Hcopy.
    { unfold bind, read, alloc. by rewrite Hlb. }
    rewrite (bind_returns _ _ _ _ _ Hcopy).
    assert (items (VRef ln) h1 = (Returns bvits, h1)) as Hitems.
    { unfold items, bind, read, ret. rewrite (proj2 (Hagree ln HDn)).
      by rewrite Hln. }
    rewrite (bind_returns _ _ _ _ _ Hitems).
    by rewrite (bind_returns _ _ _ _ _ Hrun).
  - assert (r < List.length h')%nat as Hr'.
    { subst r h1. rewrite length_app in Hlen. simpl in Hlen. lia. }
    apply repr_dict with ritems'; [right; lia | done |].
    eapply items_repr_mono; [|exact Hitems']. intros l Hl. split; [|done].
    destruct Hl as [Hl|Hl]; [by left | right; lia].
Qed.

End deep_merge_store.

Lemma take_prefix (h h' : Store.heap) :
  take (List.length h) h' = take (List.length h) h -> h `prefix_of` h'.
Proof.
  intros Htake. rewrite firstn_all in Htake. exists (drop (List.length h) h').
  rewrite <- (take_drop (List.length h) h') at 1. by rewrite Htake.
Qed.

(** C6: [deep_merge] changes no object there is: whatever its arguments,
    and however it ends, the store it leaves is the one it found with
    objects added behind, and the object it returns is one of those.  On two
    objects (with fuel for the depth of [new]) it returns, the object
    returned is the merge of the two as values, and [base] and [new] are the
    values they were. *)
Theorem deep_merge_pure (fuel : nat) (base new : Store.val) (h h' : Store.heap)
    (o : Store.outcome Store.loc) :
  Store.deep_merge fuel base new h = (o, h') ->
  h `prefix_of` h'
  /\ (forall l, o = Store.Returns l -> (List.length h <= l)%nat)
  /\ forall (D : Store.loc -> Prop) (a b : dict),
      (forall l, D l -> (l < List.length h)%nat) ->
      Store.repr D h base (JObj a) -> Store.repr D h new (JObj b) ->
      (depth (JObj b) <= fuel)%nat ->
      o = Store.Returns (List.length h)
      /\ deep_merge (JObj a) (JObj b) = Ok (JObj (deep_merge_dict a b))
      /\ Store.repr
           (fun l => D l \/ (List.length h <= l < List.length h')%nat) h'
           (Store.VRef (List.length h)) (JObj (deep_merge_dict a b))
      /\ Store.repr D h' base (JObj a)
      /\ Store.repr D h' new (JObj b).
Proof.
  intros Hrun.
  destruct (keeps_deep_merge fuel (List.length h) base new h o h'
              (le_n _) Hrun) as (Hlen & Htake & Hfresh).
  split_and!; [by apply take_prefix | done |].
  intros D a b HD Hbase Hnew Hdepth.
  destruct (deep_merge_repr fuel D h base new a b HD Hbase Hnew Hdepth)
    as (h1 & Hrun1 & Hres).
  rewrite Hrun in Hrun1. injection Hrun1 as -> <-.
  assert (forall l, D l -> D l /\ h' !! l = h !! l) as Hagree.
  { intros l Hl. split; [done|].
    apply (take_lookup_agree (List.length h)); [done | by apply HD]. }
  split_and!; [done | done | done | by eapply repr_mono..].
Qed.

Lemma deep_merge_pure_witness :
  let h := [Store.ODict [("p", Store.VPrim (PInt 1))];
            Store.OList [Store.VPrim PNull];
            Store.ODict [("k", Store.VRef 0); ("l", Store.VRef 1)];
            Store.ODict [("q", Store.VPrim (PInt 2))];
            Store.ODict [("k", Store.VRef 3); ("l", Store.VPrim PNull)]] in
  let a := [("k", JObj [("p", JPrim (PInt 1))]); ("l", JList [JPrim PNull])] in
  let b := [("k", JObj [("q", JPrim (PInt 2))]); ("l", JPrim PNull)] in
  exists h',
    Store.deep_merge 2 (Store.VRef 2) (Store.VRef 4) h = (Store.Returns 5%nat, h')
    /\ h `prefix_of` h'
    /\ Store.repr (fun l => (l < 5)%nat) h' (Store.VRef 2) (JObj a)
    /\ Store.repr (fun l => (l < 5)%nat) h' (Store.VRef 4) (JObj b).
Proof.
  intros h a b.
  destruct (Store.deep_merge 2 (Store.VRef 2) (Store.VRef 4) h) as [o h']
    eqn:Hrun.
  destruct (deep_merge_pure 2 (Store.VRef 2) (Store.VRef 4) h h' o Hrun)
    as (Hprefix & _ & Hobj).
  assert (Store.repr (fun l => (l < 5)%nat) h (Store.VRef 2) (JObj a)) as Ha.
  { repeat first [ reflexivity | progress (cbv beta; simpl; lia) | split
                 | econstructor ]. }
  assert (Store.repr (fun l => (l < 5)%nat) h (Store.VRef 4) (JObj b)) as Hb.
  { repeat first [ reflexivity | progress (cbv beta; simpl; lia) | split
                 | econstructor ]. }
  destruct (Hobj (fun l => (l < 5)%nat) a b (fun l Hl => Hl) Ha Hb
              ltac:(simpl; lia)) as (-> & _ & _ & Ha' & Hb').
  exists h'. split_and!; done.
Defined.

(** ** The store: [merge_json_files] and its FileSet *)

(** C4: the FileSet does not stay as it was.  With [a.json = [1]] and
    [b.json = [2]] the accumulator becomes the list of [a.json] itself
    (line 101), and the elements of [b.json] are appended to that very
    object (line 103): after the call the FileSet reads
    [{"a.json": [1, 2], "b.json": [2]}]. *)
Theorem merge_json_files_mutates_fileset (fuel : nat) :
  let h := [Store.OList [Store.VPrim (PInt 1)];
            Store.OList [Store.VPrim (PInt 2)];
            Store.ODict [("b.json", Store.VRef 1); ("a.json", Store.VRef 0)]] in
  exists h',
    Store.merge_json_files fuel (Store.VRef 2) h = (Store.Returns 0%nat, h')
    /\ Store.load 2 h (Store.VRef 2)
       = Some (JObj [("b.json", JList [JPrim (PInt 2)]);
                     ("a.json", JList [JPrim (PInt 1)])])
    /\ Store.load 2 h' (Store.VRef 2)
       = Some (JObj [("b.json", JList [JPrim (PInt 2)]);
                     ("a.json", JList [JPrim (PInt 1); JPrim (PInt 2)])]).
Proof. intros h. eexists. split_and!; reflexivity. Qed.

(** The same through a key: with [a.json = {"x": [1]}] and [x.json = [2]]
    the list under ["x"] of the accumulator is the one of [a.json]
    ([deep_merge] copies one level only), and line 111 extends it. *)
Lemma merge_json_files_mutates_nested (fuel : nat) :
  let h := [Store.OList [Store.VPrim (PInt 1)];
            Store.ODict [("x", Store.VRef 0)];
            Store.OList [Store.VPrim (PInt 2)];
            Store.ODict [("a.json", Store.VRef 1); ("x.json", Store.VRef 2)]] in
  exists l h',
    Store.merge_json_files (S fuel) (Store.VRef 3) h = (Store.Returns l, h')
    /\ Store.load 3 h (Store.VRef 3)
       = Some (JObj [("a.json", JObj [("x", JList [JPrim (PInt 1)])]);
                     ("x.json", JList [JPrim (PInt 2)])])
    /\ Store.load 3 h' (Store.VRef 3)
       = Some (JObj [("a.json",
                      JObj [("x", JList [JPrim (PInt 1); JPrim (PInt 2)])]);
                     ("x.json", JList [JPrim (PInt 2)])]).
Proof. intros h. do 2 eexists. split_and!; reflexivity. Qed.

(** ** The two models side by side *)

(** On these FileSets, which between them take every branch of the loop,
    the merger over the store ends as the merger over values does. *)
Example run_merge_objects :
  let json_files :=
    [("y.json", JObj [("a", JObj [("b", JPrim (PInt 2))]);
                      ("o", JObj [("q", JPrim PNull)])]);
     ("x.json", JObj [("a", JPrim (PInt 1));
                      ("o", JObj [("p", JPrim (PInt 1))])])] in
  run_merge 4 json_files = Some (merge_json_files json_files).
Proof. reflexivity. Qed.

Example run_merge_sequences :
  let json_files :=
    [("b.json", JList [JPrim (PInt 2)]); ("a.json", JList [JPrim (PInt 1)]);
     ("c.json", JObj [])] in
  run_merge 4 json_files = Some (merge_json_files json_files)
  /\ merge_json_files json_files
     = Ok (JList [JPrim (PInt 1); JPrim (PInt 2)]).
Proof. split; reflexivity. Qed.

Example run_merge_keyed_sequences :
  let json_files :=
    [("k.json", JList [JPrim (PInt 1)]);
     ("a.json", JObj [("k", JList [JPrim (PInt 2)]); ("z", JPrim PNull)]);
     ("n.json", JList [JPrim (PBool true)]);
     ("z.json", JList []);
     ("v.json", JPrim (PStr "1.0"))] in
  run_merge 4 json_files = Some (merge_json_files json_files)
  /\ merge_json_files json_files
     = Ok (JObj [("k", JList [JPrim (PInt 2); JPrim (PInt 1)]);
                 ("z", JList []);
                 ("n", JList [JPrim (PBool true)]);
                 ("v", JPrim (PStr "1.0"))]).
Proof. split; reflexivity. Qed.

Example run_merge_object_after_sequence :
  let json_files :=
    [("a.json", JList [JPrim (PInt 1)]);
     ("b.json", JObj [("k", JPrim (PInt 1))])] in
  run_merge 4 json_files = Some (merge_json_files json_files)
  /\ merge_json_files json_files = Raise TypeError.
Proof. split; reflexivity. Qed.

Example run_merge_primitive_after_sequence :
  let json_files :=
    [("version.json", JPrim (PStr "1.0"));
     ("a.json", JList [JPrim (PInt 1); JPrim (PInt 2)])] in
  run_merge 4 json_files = Some (merge_json_files json_files)
  /\ merge_json_files json_files = Raise TypeError.
Proof. split; reflexivity. Qed.

(** The rounds of C3 in the store: an empty accumulator gives way to the
    list object of the file itself; a list accumulator and a list under the
    key are extended in place; anything else under the key is replaced by a
    reference to the list object of the file. *)
Lemma store_merge_file_sequence (fuel : nat) (h : Store.heap)
    (merged c : Store.loc) (filename : string) (cs : list Store.val) :
  h !! c = Some (Store.OList cs) ->
  let run := Store.merge_file fuel merged (filename, Store.VRef c) h in
  let key := splitext_root filename in
  match h !! merged with
  | Some (Store.ODict []) | Some (Store.OList []) =>
      run = (Store.Returns c, h)
  | Some (Store.OList (x :: m)) =>
      run = (Store.Returns merged,
             <[merged := Store.OList ((x :: m) ++ cs)]> h)
  | Some (Store.ODict (kv :: d)) =>
      match dict_get key (kv :: d) with
      | Some (Store.VRef e) =>
          match h !! e with
          | Some (Store.OList old) =>
              run = (Store.Returns merged, <[e := Store.OList (old ++ cs)]> h)
          | Some (Store.ODict _) =>
              run = (Store.Returns merged,
                     <[merged := Store.ODict
                                   (dict_set key (Store.VRef c) (kv :: d))]> h)
          | None => run = (Store.Stuck, h)
          end
      | _ =>
          run = (Store.Returns merged,
                 <[merged := Store.ODict
                               (dict_set key (Store.VRef c) (kv :: d))]> h)
      end
  | None => run = (Store.Stuck, h)
  end.
Proof.
  intros Hc run key. subst run key.
  unfold Store.merge_file, Store.kind_of, Store.nonempty, Store.extend,
    Store.contains, Store.getitem, Store.setitem, Store.bind, Store.read,
    Store.write, Store.ret.
  rewrite Hc. destruct (h !! merged) as [[[|kv d]|[|x m]]|] eqn:Hm;
    cbn [negb]; repeat (first [rewrite Hm | rewrite Hc]; cbv beta iota);
    try reflexivity.
  destruct (dict_get (splitext_root filename) (kv :: d)) as [[p|e]|] eqn:Hkey;
    rewrite ?bool_decide_true by eauto;
    rewrite ?bool_decide_false by (by intros [? ?]);
    cbn [negb]; repeat (first [rewrite Hm | rewrite Hkey]; cbv beta iota);
    try reflexivity.
  destruct (h !! e) as [[its|old]|] eqn:He;
    repeat (first [rewrite Hm | rewrite Hc | rewrite He]; cbv beta iota);
    reflexivity.
Qed.

(** ** The store: the values of a file, each on objects of its own *)

Section item_facts.
Import Store.
Implicit Types (h : heap) (v : val) (j : json).

Lemma item_ok_repr (R D : loc -> Prop) h v j :
  (forall l, R l -> D l) -> item_ok R D h v j -> repr D h v j.
Proof.
  intros HRD. destruct j as [p|js|its]; simpl; [done| |done].
  intros (e & es & -> & He & Hl & Hes). apply repr_list with es; [auto|done|].
  eapply Forall2_impl; [exact Hes|]. intros x y Hxy.
  eapply repr_mono; [|exact Hxy]. by intros l [? _].
Qed.

Lemma item_ok_dict (R D : loc -> Prop) h v (its : dict) :
  repr D h v (JObj its) -> item_ok R D h v (JObj its).
Proof. done. Qed.

Lemma item_ok_mono (R R' D D' : loc -> Prop) h h' v j :
  (forall l, R l -> R' l /\ h' !! l = h !! l) ->
  (forall l, D l -> D' l /\ h' !! l = h !! l) ->
  item_ok R D h v j -> item_ok R' D' h' v j.
Proof.
  intros HR HD. destruct j as [p|js|its]; simpl.
  - by apply repr_mono.
  - intros (e & es & -> & He & Hl & Hes). exists e, es.
    destruct (HR e He) as [He' Hl']. split_and!; [done|done|congruence|].
    eapply Forall2_impl; [exact Hes|]. intros x y Hxy.
    eapply repr_mono; [|exact Hxy]. intros l [Hl1 Hl2].
    destruct (HD l Hl1). by split_and!.
  - by apply repr_mono.
Qed.

Lemma items_ok_mono (R R' W W' : string -> loc -> Prop) h h'
    (vits : list (string * val)) (its : dict) :
  (forall k l, R k l -> R' k l /\ h' !! l = h !! l) ->
  (forall k l, W k l -> W' k l /\ h' !! l = h !! l) ->
  items_ok R W h vits its -> items_ok R' W' h' vits its.
Proof.
  intros HR HW Hall. unfold items_ok in *.
  eapply Forall2_impl; [exact Hall|]. intros x y [Hk Hxy].
  split; [done|]. eapply item_ok_mono; [apply HR | apply HW | done].
Qed.

Lemma items_ok_get (R W : string -> loc -> Prop) h key
    (vits : list (string * val)) (its : dict) :
  items_ok R W h vits its ->
  match dict_get key vits, dict_get key its with
  | Some v, Some j => item_ok (R key) (W key) h v j
  | None, None => True
  | _, _ => False
  end.
Proof.
  induction 1 as [|[k v] [k' j] vits its [Hk Hv] _ IH]; simpl in *; [done|].
  subst k'. by destruct (String.eqb_spec k key) as [->|].
Qed.

Lemma items_ok_set (R W : string -> loc -> Prop) h key v j
    (vits : list (string * val)) (its : dict) :
  items_ok R W h vits its -> item_ok (R key) (W key) h v j ->
  items_ok R W h (dict_set key v vits) (dict_set key j its).
Proof.
  intros Hall Hv.
  induction Hall as [|[k v0] [k' j0] vits its [Hk Hv0] Hall IH]; simpl in *.
  - by repeat constructor.
  - subst k'. destruct (String.eqb_spec k key) as [->|]; constructor; auto.
Qed.

End item_facts.

(** ** The store: [deep_merge] keeps the values under the keys apart *)

Section deep_merge_fam.
Import Store.
Implicit Types (h : heap) (v : val) (j : json) (r : loc).
Variables (R W : string -> loc -> Prop).

Lemma setitem_fam r h key v j ritems res :
  (r < List.length h)%nat ->
  (forall k l, W k l -> (l < r)%nat) -> (forall k l, R k l -> W k l) ->
  h !! r = Some (ODict ritems) ->
  items_ok R (fun k => above (W k) r h) h ritems res ->
  item_ok (R key) (above (W key) r h) h v j ->
  exists h' ritems',
    setitem r key v h = (Returns tt, h')
    /\ (List.length h <= List.length h')%nat
    /\ (forall l, (l < r)%nat -> h' !! l = h !! l)
    /\ h' !! r = Some (ODict ritems')
    /\ items_ok R (fun k => above (W k) r h') h' ritems' (dict_set key j res).
Proof.
  intros Hr HW HRW Hlook Hitems Hv.
  set (h' := <[r := ODict (dict_set key v ritems)]> h).
  exists h', (dict_set key v ritems).
  assert (forall k l, above (W k) r h l ->
            above (W k) r h' l /\ h' !! l = h !! l) as Hagree.
  { intros k l Hl. unfold above in *. subst h'. rewrite length_insert.
    split; [done|]. apply list_lookup_insert_ne.
    destruct Hl as [Hl%HW|Hl]; lia. }
  assert (forall k l, R k l -> R k l /\ h' !! l = h !! l) as HagreeR.
  { intros k l Hl. split; [done|]. apply (Hagree k). left. by apply HRW. }
  split_and!.
  - by apply run_setitem.
  - subst h'. by rewrite length_insert.
  - intros l Hl. apply list_lookup_insert_ne. lia.
  - by apply list_lookup_insert_eq.
  - apply items_ok_set.
    + eapply items_ok_mono; [exact HagreeR | exact Hagree | done].
    + eapply item_ok_mono; [apply HagreeR | apply Hagree | done].
Qed.

Lemma merge_item_fam fuel r h key v j ritems res :
  (r < List.length h)%nat ->
  (forall k l, W k l -> (l < r)%nat) -> (forall k l, R k l -> W k l) ->
  h !! r = Some (ODict ritems) ->
  items_ok R (fun k => above (W k) r h) h ritems res ->
  item_ok (R key) (W key) h v j -> (depth j <= fuel)%nat ->
  exists h' ritems',
    merge_item (deep_merge fuel) r (key, v) h = (Returns tt, h')
    /\ (List.length h <= List.length h')%nat
    /\ (forall l, (l < r)%nat -> h' !! l = h !! l)
    /\ h' !! r = Some (ODict ritems')
    /\ items_ok R (fun k => above (W k) r h') h' ritems'
         (dict_set key (merge_value (dict_get key res) j) res).
Proof.
  intros Hr HW HRW Hlook Hitems Hv Hdepth.
  assert (item_ok (R key) (above (W key) r h) h v j) as Hv'.
  { eapply item_ok_mono; [| |exact Hv]; intros l Hl; split; try done.
    by left. }
  assert (repr (W key) h v j) as Hvr by (eapply item_ok_repr; [apply HRW|done]).
  pose proof (items_ok_get _ _ _ key _ _ Hitems) as Hget.
  unfold merge_item.
  rewrite (bind_returns _ _ _ _ _ (run_contains key r h ritems Hlook)).
  destruct (dict_get key ritems) as [ev|] eqn:Hev,
           (dict_get key res) as [ej|] eqn:Hej; try done.
  2: { rewrite bool_decide_false by (by intros [? ?]).
       rewrite merge_value_new. by apply setitem_fam with ritems. }
  assert (repr (above (W key) r h) h ev ej) as Hevr.
  { eapply item_ok_repr; [|exact Hget]. intros l Hl. left. by apply HRW. }
  rewrite bool_decide_true by eauto.
  rewrite (bind_returns _ _ _ _ _ (run_getitem key r h ritems ev Hlook Hev)).
  rewrite (bind_returns _ _ _ _ _ (repr_is_dict _ _ _ _ Hevr)).
  destruct ej as [pe|le|ea]; cbn [is_dict];
    [rewrite merge_value_over by (intros ? [=]);
     by apply setitem_fam with ritems..|].
  rewrite (bind_returns _ _ _ _ _ (repr_is_dict _ _ _ _ Hvr)).
  destruct j as [pj|lj|b]; cbn [is_dict];
    [by apply setitem_fam with ritems..|].
  rewrite (bind_returns _ _ _ _ _ (run_getitem key r h ritems ev Hlook Hev)).
  destruct (deep_merge_repr fuel (above (W key) r h) h ev v ea b)
    as (h1 & Hrec & Hm); [|done| |done|].
  { intros l [Hl%HW|Hl]; lia. }
  { eapply repr_mono; [|exact Hvr]. intros l Hl. split; [by left|done]. }
  rewrite (bind_returns _ _ _ _ _ Hrec).
  pose proof (keeps_deep_merge fuel (List.length h) ev v h _ h1
                (le_n _) Hrec) as (Hlen & Htake & _).
  assert (forall l, (l < List.length h)%nat -> h1 !! l = h !! l) as Hold
    by (intros l Hl; by apply (take_lookup_agree (List.length h))).
  rewrite merge_value_dict.
  destruct (setitem_fam r h1 key (VRef (List.length h))
              (JObj (deep_merge_dict ea b)) ritems res)
    as (h' & ritems' & Hrun & Hlen' & Hframe & Hlook' & Hitems');
    [lia | done | done | by rewrite Hold | |  |].
  - eapply items_ok_mono; [| |exact Hitems].
    + intros k l Hl. split; [done|]. apply Hold.
      apply HRW, HW in Hl. lia.
    + intros k l Hl. split.
      * destruct Hl as [Hl|Hl]; [by left | right; lia].
      * apply Hold. destruct Hl as [Hl%HW|Hl]; lia.
  - apply item_ok_dict. eapply repr_mono; [|exact Hm]. intros l Hl.
    split; [|done].
    destruct Hl as [[Hl|Hl]|Hl]; [by left | right; lia | right; lia].
  - exists h', ritems'. split_and!; [done | lia | | done | done].
    intros l Hl. rewrite Hframe by done. apply Hold. lia.
Qed.

Lemma merge_items_fam fuel r (vits : list (string * val)) (its : dict) :
  forall h ritems res,
    (r < List.length h)%nat ->
    (forall k l, W k l -> (l < r)%nat) -> (forall k l, R k l -> W k l) ->
    h !! r = Some (ODict ritems) ->
    items_ok R (fun k => above (W k) r h) h ritems res ->
    items_ok R W h vits its ->
    Forall (fun kj => (depth kj.2 <= fuel)%nat) its ->
    exists h' ritems',
      for_each (fun _ => merge_item (deep_merge fuel) r) vits tt h
      = (Returns tt, h')
      /\ (List.length h <= List.length h')%nat
      /\ (forall l, (l < r)%nat -> h' !! l = h !! l)
      /\ h' !! r = Some (ODict ritems')
      /\ items_ok R (fun k => above (W k) r h') h' ritems'
           (deep_merge_dict res its).
Proof.
  revert vits. induction its as [|[k j] its IH];
    intros vits h ritems res Hr HW HRW Hlook Hitems Hnew Hdepth;
    inversion Hnew as [|[k' v] ? vits' ? [Hk Hv] Hnew']; subst;
    cbn [for_each deep_merge_dict].
  - exists h, ritems. split_and!; done.
  - apply Forall_cons in Hdepth as [Hj Hdepth]. simpl in Hj, Hk, Hv. subst k'.
    destruct (merge_item_fam fuel r h k v j ritems res)
      as (h1 & ritems1 & Hrun1 & Hlen1 & Hframe1 & Hlook1 & Hitems1); [done..|].
    rewrite (bind_returns _ _ _ _ _ Hrun1).
    destruct (IH vits' h1 ritems1
                (dict_set k (merge_value (dict_get k res) j) res))
      as (h' & ritems' & Hrun & Hlen & Hframe & Hlook' & Hitems');
      [lia | done | done | done | done | | done |].
    { eapply items_ok_mono; [| |exact Hnew']; intros k' l Hl;
        (split; [done|]); apply Hframe1; [apply HRW in Hl|]; by eapply HW. }
    exists h', ritems'. split_and!; [done | lia | | done | done].
    intros l Hl. rewrite Hframe by done. by apply Hframe1.
Qed.

(** [deep_merge] on two [dict] objects whose items lie, key by key, on
    [W]: so do the items of the object returned, apart from new objects. *)
Lemma deep_merge_fam fuel h lb ln avits bvits (a b : dict) :
  (forall k l, W k l -> (l < List.length h)%nat) ->
  (forall k l, R k l -> W k l) ->
  h !! lb = Some (ODict avits) -> h !! ln = Some (ODict bvits) ->
  items_ok R W h avits a -> items_ok R W h bvits b ->
  (depth (JObj b) <= fuel)%nat ->
  exists h' ritems',
    deep_merge fuel (VRef lb) (VRef ln) h = (Returns (List.length h), h')
    /\ (List.length h < List.length h')%nat
    /\ (forall l, (l < List.length h)%nat -> h' !! l = h !! l)
    /\ h' !! List.length h = Some (ODict ritems')
    /\ items_ok R (fun k => above (W k) (List.length h) h') h' ritems'
         (deep_merge_dict a b).
Proof.
  intros HW HRW Hlb Hln Ha Hb Hdepth.
  destruct fuel as [|fuel]; [simpl in Hdepth; lia|].
  set (r := List.length h). set (h1 := h ++ [ODict avits]).
  assert (forall l, (l < r)%nat -> h1 !! l = h !! l) as Hold
    by (intros l Hl; by apply lookup_app_l).
  destruct (merge_items_fam fuel r bvits b h1 avits a)
    as (h' & ritems' & Hrun & Hlen & Hframe & Hlook' & Hitems').
  { subst r h1. rewrite length_app. simpl. lia. }
  { done. }
  { done. }
  { subst r h1. by apply list_lookup_middle. }
  { eapply items_ok_mono; [| |exact Ha]; intros k l Hl.
    - split; [done|]. apply Hold. by eapply HW, HRW.
    - split; [by left|]. apply Hold. by eapply HW. }
  { eapply items_ok_mono; [| |exact Hb]; intros k l Hl.
    - split; [done|]. apply Hold. by eapply HW, HRW.
    - split; [done|]. apply Hold. by eapply HW. }
  { by apply depth_items. }
  assert (List.length h1 = S r) as Hlen1
    by (subst r h1; rewrite length_app; simpl; lia).
  exists h', ritems'. split_and!; [|lia| |done|done].
  - cbn [deep_merge]. unfold copy.
    assert (bind (read lb) alloc h = (Returns r, h1)) as Hcopy.
    { unfold bind, read, alloc. by rewrite Hlb. }
    rewrite (bind_returns _ _ _ _ _ Hcopy).
    assert (items (VRef ln) h1 = (Returns bvits, h1)) as Hitems.
    { unfold items, bind, read, ret. rewrite Hold; [by rewrite Hln|].
      by apply lookup_lt_Some in Hln. }
    rewrite (bind_returns _ _ _ _ _ Hitems).
    by rewrite (bind_returns _ _ _ _ _ Hrun).
  - intros l Hl. rewrite Hframe by done. by apply Hold.
Qed.

End deep_merge_fam.

(** ** The store: a round of [merge_json_files] *)

Lemma NoDup_keys_dict_set {V} (key : string) (v : V) (d : list (string * V)) :
  NoDup (keys d) -> NoDup (keys (dict_set key v d)).
Proof.
  intros Hd. rewrite keys_dict_set.
  destruct (dict_get key d) eqn:Hget; [done|].
  apply NoDup_app. split_and!; [done| |apply NoDup_singleton].
  intros x Hx ->%list_elem_of_singleton. by apply dict_get_None in Hget.
Qed.

Lemma NoDup_keys_deep_merge_any (r n : dict) :
  NoDup (keys r) -> NoDup (keys (deep_merge_dict r n)).
Proof.
  revert r. induction n as [|[k v] n IH]; intros r Hr; simpl; [done|].
  by apply IH, NoDup_keys_dict_set.
Qed.

Section refine.
Import Store.
Variables (n0 : nat) (owner : loc -> option (string * string)) (fuel : nat).
Hypothesis owner_below : forall l fk, owner l = Some fk -> (l < n0)%nat.
Implicit Types (h : heap) (S : list string) (m c : loc) (M j : json)
  (f key : string).

Lemma untouched_old S h h' :
  (List.length h <= List.length h')%nat ->
  (forall l, (l < List.length h)%nat -> h' !! l = h !! l) ->
  (n0 <= List.length h)%nat -> untouched n0 owner S h h'.
Proof. intros Hlen Hold Hn. split; [done|]. intros l Hl _. apply Hold. lia. Qed.

Lemma items_ok_keys (R W : string -> loc -> Prop) h
    (vits : list (string * val)) (its : dict) :
  items_ok R W h vits its -> keys vits = keys its.
Proof.
  unfold keys. induction 1 as [|[] [] ?? [Hk _] _ IH]; [done|].
  csimpl in *. by rewrite Hk, IH.
Qed.

Lemma file_ok_untouched S h h' g v j :
  untouched n0 owner S h h' -> g ∉ S ->
  file_ok n0 owner fuel h g v j -> file_ok n0 owner fuel h' g v j.
Proof.
  intros [_ Hun] Hg [Hdepth Hfile]. split; [done|].
  assert (forall k l, owned_by owner g k l ->
            owned_by owner g k l /\ h' !! l = h !! l) as Hagree.
  { intros k l Hl. split; [done|]. apply Hun; [by eapply owner_below|].
    unfold owned_by in Hl. intros g' k' Hown. congruence. }
  destruct j as [p|js|its].
  - eapply item_ok_mono; [apply Hagree..|done].
  - eapply item_ok_mono; [apply Hagree..|done].
  - destruct Hfile as (c & vits & -> & Hc & Hown & Hlook & Hitems).
    exists c, vits. split_and!; [done..| |].
    + rewrite Hun; [done..|]. intros g' k' Hown'. congruence.
    + eapply items_ok_mono; [apply Hagree..|done].
Qed.

Lemma acc_below S h m M : acc_ok n0 owner S h m M -> (n0 <= List.length h)%nat.
Proof. by intros [? _]. Qed.

(** An object file onto an object accumulator. *)
Lemma refine_dict_onto_dict S h m f c (Mits its : dict) :
  acc_ok n0 owner S h m (JObj Mits) ->
  file_ok n0 owner fuel h f (VRef c) (JObj its) ->
  exists h',
    deep_merge fuel (VRef m) (VRef c) h = (Returns (List.length h), h')
    /\ acc_ok n0 owner (f :: S) h' (List.length h)
         (JObj (deep_merge_dict Mits its))
    /\ untouched n0 owner S h h'.
Proof.
  intros Hacc Hfile. pose proof (acc_below _ _ _ _ Hacc) as Hn0.
  destruct Hacc as (_ & Hm & Hnd & mitems & Hlook & Hitems).
  destruct Hfile as (Hdepth & c' & vits & [= <-] & Hc & Hown & Hlookc & Hvits).
  destruct (deep_merge_fam (owned owner (f :: S))
              (fun k l => owned owner (f :: S) k l
                          \/ (n0 <= l < List.length h)%nat)
              fuel h m c mitems vits Mits its)
    as (h' & ritems' & Hrun & Hlen & Hold & Hlook' & Hitems').
  { intros k l [(g & _ & Hl%owner_below)|Hl]; lia. }
  { intros k l Hl. by left. }
  { done. }
  { done. }
  { eapply items_ok_mono; [| |exact Hitems]; intros k l Hl; (split; [|done]).
    - destruct Hl as (g & Hg & Hl). exists g. split; [|done].
      apply elem_of_cons. by right.
    - destruct Hl as [(g & Hg & Hl)|[Hl _]]; [left|by right].
      exists g. split; [|done]. apply elem_of_cons. by right. }
  { eapply items_ok_mono; [| |exact Hvits]; intros k l Hl; (split; [|done]).
    - exists f. split; [apply elem_of_cons; by left | done].
    - left. exists f. split; [apply elem_of_cons; by left | done]. }
  { done. }
  exists h'. split_and!; [done| |].
  - split_and!; [lia | done | by apply NoDup_keys_deep_merge_any |].
    exists ritems'. split; [done|].
    eapply items_ok_mono; [| |exact Hitems']; intros k l Hl; (split; [|done]);
      [done|].
    unfold above, fresh in *. destruct Hl as [[Hl|Hl]|Hl]; [by left|right..]; lia.
  - apply untouched_old; [lia | done | done].
Qed.

(** An object file onto a sequence accumulator: a copy of the accumulator
    when the object is empty, else a TypeError. *)
Lemma refine_dict_onto_list S h m f c (ms : list json) (its : dict) :
  acc_ok n0 owner S h m (JList ms) ->
  file_ok n0 owner fuel h f (VRef c) (JObj its) ->
  match its with
  | [] =>
      exists h',
        deep_merge fuel (VRef m) (VRef c) h = (Returns (List.length h), h')
        /\ acc_ok n0 owner (f :: S) h' (List.length h) (JList ms)
        /\ untouched n0 owner S h h'
  | _ :: _ =>
      exists h', deep_merge fuel (VRef m) (VRef c) h = (Raises TypeError, h')
  end.
Proof.
  intros (Hn0 & Hm & es & Hlook & Hes) Hfile.
  destruct Hfile as (Hdepth & c' & vits & [= <-] & Hc & Hown & Hlookc & Hvits).
  destruct fuel as [|fuel']; [simpl in Hdepth; lia|].
  pose proof (lookup_lt_Some _ _ _ Hlook) as Hmlt.
  pose proof (lookup_lt_Some _ _ _ Hlookc) as Hclt.
  assert (deep_merge (Datatypes.S fuel') (VRef m) (VRef c) h
          = bind (for_each (fun _ => merge_item (deep_merge fuel')
                                       (List.length h)) vits tt)
              (fun _ => ret (List.length h)) (h ++ [OList es])) as ->.
  { cbn [deep_merge]. unfold copy, items, bind at 1 2 3 4, read, alloc.
    rewrite Hlook. rewrite lookup_app_l by done. by rewrite Hlookc. }
  inversion Hvits as [|[k v] [k' j] vits' its' _ _]; subst.
  - eexists. split_and!; [reflexivity| |].
    + split_and!; [rewrite length_app; lia | right; lia |].
      exists es. split; [by apply list_lookup_middle|].
      eapply Forall2_impl; [exact Hes|]. intros x y Hxy.
      eapply repr_mono; [|exact Hxy]. intros l [Hl Hne].
      assert (l < List.length h)%nat as Hlt.
      { destruct Hl as [[k' (g & _ & Hl%owner_below)]|Hl]; lia. }
      split_and!; [|lia|by apply lookup_app_l].
      rewrite length_app. simpl.
      destruct Hl as [[k' (g & Hg & Hl)]|Hl]; [left|right; lia].
      exists k', g. split; [apply elem_of_cons; by right | done].
    + apply untouched_old; [rewrite length_app; lia| |done].
      intros l Hl. by apply lookup_app_l.
  - cbn [for_each]. unfold merge_item, contains, getitem, setitem,
      bind, read, ret, throw.
    rewrite list_lookup_middle by done.
    destruct (existsb _ es); rewrite list_lookup_middle by done; eauto.
Qed.

Lemma run_merge_file_dict h m f c vits :
  h !! c = Some (ODict vits) ->
  merge_file fuel m (f, VRef c) h = deep_merge fuel (VRef m) (VRef c) h.
Proof.
  intros Hc. unfold merge_file, kind_of, bind at 1 2, read, ret. by rewrite Hc.
Qed.

Lemma run_merge_file_prim h m f p :
  merge_file fuel m (f, VPrim p) h
  = bind (setitem m (splitext_root f) (VPrim p)) (fun _ => ret m) h.
Proof. reflexivity. Qed.

(** Storing a file under its key in an object accumulator. *)
Lemma refine_setitem S h m f v j (Mits : dict) :
  acc_ok n0 owner S h m (JObj Mits) ->
  item_ok (owned_by owner f (splitext_root f))
    (owned_by owner f (splitext_root f)) h v j ->
  exists h',
    setitem m (splitext_root f) v h = (Returns tt, h')
    /\ acc_ok n0 owner (f :: S) h' m
         (JObj (dict_set (splitext_root f) j Mits))
    /\ untouched n0 owner S h h'.
Proof.
  intros (Hn0 & Hm & Hnd & mitems & Hlook & Hitems) Hv.
  pose proof (lookup_lt_Some _ _ _ Hlook) as Hmlt.
  set (key := splitext_root f) in *.
  set (h' := <[m := ODict (dict_set key v mitems)]> h).
  assert (forall l, l <> m -> h' !! l = h !! l) as Hne
    by (intros l Hl; by apply list_lookup_insert_ne).
  assert (List.length h' = List.length h) as Hlen by apply length_insert.
  exists h'. split_and!.
  - by apply run_setitem.
  - split_and!; [lia | done | by apply NoDup_keys_dict_set |].
    exists (dict_set key v mitems). split; [by apply list_lookup_insert_eq|].
    apply items_ok_set.
    + eapply items_ok_mono; [| |exact Hitems]; intros k l Hl.
      * destruct Hl as (g & Hg & Hl). split.
        -- exists g. split; [apply elem_of_cons; by right | done].
        -- apply Hne. apply owner_below in Hl. lia.
      * unfold fresh in *. rewrite Hlen.
        destruct Hl as [(g & Hg & Hl)|Hl]; split.
        -- left. exists g. split; [apply elem_of_cons; by right | done].
        -- apply Hne. apply owner_below in Hl. lia.
        -- by right.
        -- apply Hne. lia.
    + eapply item_ok_mono; [| |exact Hv]; intros l Hl;
        (split; [|apply Hne; apply owner_below in Hl; lia]).
      * exists f. split; [apply elem_of_cons; by left | done].
      * left. exists f. split; [apply elem_of_cons; by left | done].
  - split; [lia|]. intros l Hl _. apply Hne. lia.
Qed.

(** A sequence file becomes the accumulator. *)
Lemma refine_list_becomes S h f c (js : list json) :
  (n0 <= List.length h)%nat -> f ∉ S ->
  item_ok (owned_by owner f (splitext_root f))
    (owned_by owner f (splitext_root f)) h (VRef c) (JList js) ->
  acc_ok n0 owner (f :: S) h c (JList js).
Proof.
  intros Hn0 Hf (e & es & [= <-] & Hown & Hlook & Hes).
  split_and!; [done| |].
  - left. exists (splitext_root f), f. split; [apply elem_of_cons; by left|done].
  - exists es. split; [done|]. eapply Forall2_impl; [exact Hes|].
    intros x y Hxy. eapply repr_mono; [|exact Hxy]. intros l [Hl Hne].
    split_and!; [|done..]. left.
    exists (splitext_root f), f. split; [apply elem_of_cons; by left|done].
Qed.

(** The elements of a sequence file go to the end of a list object [t] that
    is no object of the file. *)
Lemma refine_extend_elems h t f c (old cs : list val) (js : list json)
    (D : loc -> Prop) :
  h !! c = Some (OList cs) ->
  Forall2 (repr (fun l => owned_by owner f (splitext_root f) l /\ l <> c) h)
    cs js ->
  (forall l, owned_by owner f (splitext_root f) l -> D l /\ l <> t) ->
  Forall2 (repr (fun l => D l /\ l <> t) (<[t := OList (old ++ cs)]> h)) cs js.
Proof.
  intros Hc Hcs HD. eapply Forall2_impl; [exact Hcs|]. intros x y Hxy.
  eapply repr_mono; [|exact Hxy]. intros l [Hl Hne].
  destruct (HD l Hl) as [? ?]. split_and!; [done..|].
  by apply list_lookup_insert_ne.
Qed.

(** A sequence file onto a sequence accumulator. *)
Lemma refine_list_onto_list S h m f c (ms js : list json) :
  acc_ok n0 owner S h m (JList ms) -> f ∉ S ->
  item_ok (owned_by owner f (splitext_root f))
    (owned_by owner f (splitext_root f)) h (VRef c) (JList js) ->
  exists es cs,
    h !! m = Some (OList es) /\ h !! c = Some (OList cs)
    /\ (es = [] <-> ms = [])
    /\ acc_ok n0 owner (f :: S) (<[m := OList (es ++ cs)]> h) m
         (JList (ms ++ js))
    /\ untouched n0 owner S h (<[m := OList (es ++ cs)]> h).
Proof.
  intros (Hn0 & Hm & es & Hlook & Hes) Hf (e & cs & [= <-] & Hown & Hc & Hcs).
  pose proof (lookup_lt_Some _ _ _ Hlook) as Hmlt.
  exists es, cs. split_and!; [done | done | | |].
  - split; intros ->; [by apply Forall2_nil_inv_l in Hes
                      | by apply Forall2_nil_inv_r in Hes].
  - assert (forall l, owned_by owner f (splitext_root f) l -> l <> m) as Hnm.
    { intros l Hl ->. unfold owned_by in Hl.
      destruct Hm as [[k (g & Hg & Hown')]|Hm]; [congruence|].
      apply owner_below in Hl. lia. }
    split_and!; [by rewrite length_insert | |].
    + destruct Hm as [[k (g & Hg & Hown')]|Hm]; [left|by right].
      exists k, g. split; [apply elem_of_cons; by right | done].
    + exists (es ++ cs). split; [by apply list_lookup_insert_eq|].
      rewrite length_insert. apply Forall2_app.
      * eapply Forall2_impl; [exact Hes|]. intros x y Hxy.
        eapply repr_mono; [|exact Hxy]. intros l [Hl Hne].
        split_and!; [|done|by apply list_lookup_insert_ne].
        destruct Hl as [[k (g & Hg & Hl)]|Hl]; [left|by right].
        exists k, g. split; [apply elem_of_cons; by right | done].
      * apply (refine_extend_elems h m f c); [done..|]. intros l Hl.
        split; [|by apply Hnm]. left.
        exists (splitext_root f), f. split; [apply elem_of_cons; by left|done].
  - split; [by rewrite length_insert|]. intros l Hl Hfree.
    apply list_lookup_insert_ne. intros <-.
    destruct Hm as [[k (g & Hg & Hown')]|Hm]; [|lia].
    by apply (Hfree g k).
Qed.

Lemma items_ok_mono_except (R W R' W' : string -> loc -> Prop) h h' key
    (vits : list (string * val)) (its : dict) :
  items_ok R W h vits its -> key ∉ keys its ->
  (forall k l, k <> key -> R k l -> R' k l /\ h' !! l = h !! l) ->
  (forall k l, k <> key -> W k l -> W' k l /\ h' !! l = h !! l) ->
  items_ok R' W' h' vits its.
Proof.
  intros Hall Hkey HR HW. unfold items_ok in *.
  induction Hall as [|[k v0] [k' j0] vits its [Hk Hv0] Hall IH]; [done|].
  simpl in Hk, Hv0. subst k'. unfold keys in Hkey. csimpl in Hkey.
  apply not_elem_of_cons in Hkey as [Hne Hkey].
  constructor; [|by apply IH]. split; [done|]. simpl.
  eapply item_ok_mono; [intros l; apply HR|intros l; apply HW|done];
    congruence.
Qed.

(** A list under one key is extended by a sequence file: the items under
    the other keys are not concerned. *)
Lemma items_ok_extend (R W R' W' : string -> loc -> Prop) h h' key e
    (newj : list json) (mitems : list (string * val)) (Mits : dict) :
  items_ok R W h mitems Mits -> NoDup (keys Mits) ->
  dict_get key mitems = Some (VRef e) ->
  (forall k l, k <> key -> R k l -> R' k l /\ h' !! l = h !! l) ->
  (forall k l, k <> key -> W k l -> W' k l /\ h' !! l = h !! l) ->
  item_ok (R' key) (W' key) h' (VRef e) (JList newj) ->
  items_ok R' W' h' mitems (dict_set key (JList newj) Mits).
Proof.
  intros Hall Hnd Hget HR HW Hnew. unfold items_ok in *.
  induction Hall as [|[k v0] [k' j0] vits its [Hk Hv0] Hall IH]; [done|].
  simpl in Hk, Hv0. subst k'. unfold keys in Hnd. csimpl in Hnd.
  apply NoDup_cons in Hnd as [Hk Hnd]. simpl in Hget |- *.
  destruct (String.eqb_spec k key) as [->|Hne].
  - injection Hget as ->. constructor; [done|].
    by apply (items_ok_mono_except R W R' W' h h' key).
  - constructor; [|by apply IH].
    split; [done|]. simpl.
    eapply item_ok_mono; [intros l; apply HR|intros l; apply HW|done]; done.
Qed.

(** A sequence file onto an object accumulator that has a list under the
    key of the file. *)
Lemma refine_extend_key S h m f c (Mits : dict) (oldj js : list json) :
  acc_ok n0 owner S h m (JObj Mits) -> f ∉ S ->
  item_ok (owned_by owner f (splitext_root f))
    (owned_by owner f (splitext_root f)) h (VRef c) (JList js) ->
  dict_get (splitext_root f) Mits = Some (JList oldj) ->
  exists mitems e old cs,
    h !! m = Some (ODict mitems)
    /\ dict_get (splitext_root f) mitems = Some (VRef e)
    /\ h !! e = Some (OList old) /\ h !! c = Some (OList cs)
    /\ acc_ok n0 owner (f :: S) (<[e := OList (old ++ cs)]> h) m
         (JObj (dict_set (splitext_root f) (JList (oldj ++ js)) Mits))
    /\ untouched n0 owner S h (<[e := OList (old ++ cs)]> h).
Proof.
  intros (Hn0 & Hm & Hnd & mitems & Hlook & Hitems) Hf
    (c' & cs & [= <-] & Hown & Hc & Hcs) Hget.
  set (key := splitext_root f) in *.
  pose proof (items_ok_get _ _ _ key _ _ Hitems) as Hkey.
  rewrite Hget in Hkey. destruct (dict_get key mitems) as [ev|] eqn:Hev; [|done].
  destruct Hkey as (e & old & -> & (g & Hg & He) & Hle & Hold).
  exists mitems, e, old, cs.
  set (h' := <[e := OList (old ++ cs)]> h).
  pose proof (lookup_lt_Some _ _ _ Hle) as Helt.
  pose proof (owner_below _ _ He) as Hen0.
  assert (forall l, l <> e -> h' !! l = h !! l) as Hne
    by (intros l Hl; by apply list_lookup_insert_ne).
  assert (List.length h' = List.length h) as Hlen by apply length_insert.
  assert (forall l, owned_by owner f key l -> l <> e) as Hfe.
  { intros l Hl ->. unfold owned_by in Hl. congruence. }
  split_and!; [done..| |].
  - split_and!; [lia | done | by apply NoDup_keys_dict_set |].
    exists mitems. split; [rewrite Hne; [done|lia]|].
    eapply (items_ok_extend _ _ _ _ h h' key e); [exact Hitems|done..| | |].
    + intros k l Hk (g' & Hg' & Hl). split.
      * exists g'. split; [apply elem_of_cons; by right | done].
      * apply Hne. intros ->. congruence.
    + intros k l Hk Hl. unfold fresh in *. rewrite Hlen. split.
      * destruct Hl as [(g' & Hg' & Hl)|Hl]; [left|by right].
        exists g'. split; [apply elem_of_cons; by right | done].
      * apply Hne. destruct Hl as [(g' & Hg' & Hl)|Hl]; [|lia].
        intros ->. congruence.
    + exists e, (old ++ cs). split_and!; [done| |by apply list_lookup_insert_eq|].
      * exists g. split; [apply elem_of_cons; by right | done].
      * apply Forall2_app.
        -- eapply Forall2_impl; [exact Hold|]. intros x y Hxy.
           eapply repr_mono; [|exact Hxy]. intros l [Hl Hle'].
           unfold fresh in *. rewrite Hlen. split_and!; [|done|by apply Hne].
           destruct Hl as [(g' & Hg' & Hl)|Hl]; [left|by right].
           exists g'. split; [apply elem_of_cons; by right | done].
        -- apply (refine_extend_elems h e f c); [done..|]. intros l Hl.
           split; [|by apply Hfe]. left.
           exists f. split; [apply elem_of_cons; by left | done].
  - split; [lia|]. intros l Hl Hfree. apply Hne. intros ->.
    by apply (Hfree g key).
Qed.

(** One round of [merge_json_files]: over the store it ends as over values,
    and leaves an accumulator that is the value. *)
Lemma merge_file_refines S h m M f v j :
  acc_ok n0 owner S h m M -> f ∉ S -> file_ok n0 owner fuel h f v j ->
  match Value.merge_file M (f, j) with
  | Ok M' =>
      exists m' h',
        merge_file fuel m (f, v) h = (Returns m', h')
        /\ acc_ok n0 owner (f :: S) h' m' M'
        /\ untouched n0 owner S h h'
  | Raise e => exists h', merge_file fuel m (f, v) h = (Raises e, h')
  end.
Proof.
  intros Hacc Hf Hfile. pose proof (acc_below _ _ _ _ Hacc) as Hn0.
  destruct j as [p|js|its].
  - (* a primitive file *)
    destruct Hfile as [_ Hv]. simpl in Hv. inversion Hv; subst.
    rewrite run_merge_file_prim. destruct M as [q|ms|Mits]; [by destruct Hacc| |].
    + destruct Hacc as (_ & _ & es & Hlook & _). simpl.
      unfold setitem, bind, read, throw. rewrite Hlook. eauto.
    + destruct (refine_setitem S h m f (VPrim p) (JPrim p) Mits Hacc)
        as (h' & Hrun & Hacc' & Hun); [constructor|].
      simpl. exists m, h'. split; [|done].
      by rewrite (bind_returns _ _ _ _ _ Hrun).
  - (* a sequence file *)
    destruct Hfile as [_ Hv]. pose proof Hv as (c & cs & -> & Hown & Hc & Hcs).
    pose proof (store_merge_file_sequence fuel h m c f cs Hc) as Hrun.
    cbv zeta in Hrun. destruct M as [q|ms|Mits]; [by destruct Hacc| |].
    + destruct ms as [|x ms].
      * destruct Hacc as (_ & _ & es & Hlook & Hes).
        apply Forall2_nil_inv_r in Hes as ->. rewrite Hlook in Hrun.
        simpl. exists c, h. split_and!; [done| |].
        -- by apply refine_list_becomes.
        -- split; [done|]. done.
      * destruct (refine_list_onto_list S h m f c (x :: ms) js Hacc Hf Hv)
          as (es & cs' & Hlook & Hc' & Hnil & Hacc' & Hun).
        assert (cs' = cs) as -> by congruence.
        rewrite Hlook in Hrun.
        destruct es as [|e0 es]; [discriminate (proj1 Hnil eq_refl)|].
        simpl. eauto.
    + destruct Mits as [|kj Mits].
      * destruct Hacc as (_ & _ & _ & mitems & Hlook & Hitems).
        apply Forall2_nil_inv_r in Hitems as ->. rewrite Hlook in Hrun.
        simpl. exists c, h. split_and!; [done| |].
        -- by apply refine_list_becomes.
        -- split; [done|]. done.
      * pose proof Hacc as (_ & _ & _ & mitems & Hlook & Hitems).
        rewrite Hlook in Hrun.
        destruct mitems as [|kv mitems]; [by apply Forall2_nil_inv_l in Hitems|].
        pose proof (items_ok_get _ _ _ (splitext_root f) _ _ Hitems) as Hkey.
        unfold Value.merge_file. cbn [truthy negb].
        destruct (dict_get (splitext_root f) (kj :: Mits)) as [ej|] eqn:Hej.
        -- destruct (dict_get (splitext_root f) (kv :: mitems)) as [ev|] eqn:Hev;
             [|done].
           destruct ej as [q|oldj|sub].
           ++ simpl in Hkey. inversion Hkey; subst.
              destruct (refine_setitem S h m f (VRef c) (JList js) _ Hacc Hv)
                as (h' & Hset & Hacc' & Hun).
              rewrite (run_setitem _ _ _ _ _ Hlook) in Hset.
              injection Hset as <-. cbn [Value.setitem]. eauto.
           ++ destruct (refine_extend_key S h m f c _ oldj js Hacc Hf Hv Hej)
                as (mitems' & e & old & cs' & Hlook' & Hev' & He & Hc' & Hacc'
                    & Hun).
              assert (cs' = cs) as -> by congruence.
              assert (mitems' = kv :: mitems) as -> by congruence.
              rewrite Hev in Hev'. injection Hev' as ->.
              rewrite He in Hrun. eauto.
           ++ simpl in Hkey.
              inversion Hkey as [| |e vits ? _ He _]; subst.
              rewrite He in Hrun.
              destruct (refine_setitem S h m f (VRef c) (JList js) _ Hacc Hv)
                as (h' & Hset & Hacc' & Hun).
              rewrite (run_setitem _ _ _ _ _ Hlook) in Hset.
              injection Hset as <-. cbn [Value.setitem]. eauto.
        -- destruct (dict_get (splitext_root f) (kv :: mitems)) as [ev|] eqn:Hev;
             [done|].
           destruct (refine_setitem S h m f (VRef c) (JList js) _ Hacc Hv)
             as (h' & Hset & Hacc' & Hun).
           rewrite (run_setitem _ _ _ _ _ Hlook) in Hset.
           injection Hset as <-. cbn [Value.setitem]. eauto.
  - (* an object file *)
    pose proof Hfile as (_ & c & vits & -> & _ & _ & Hc & Hvits).
    rewrite (run_merge_file_dict _ _ _ _ _ Hc).
    destruct M as [q|ms|Mits]; [by destruct Hacc| |].
    + pose proof (refine_dict_onto_list S h m f c ms its Hacc Hfile) as H.
      destruct its as [|kj its]; simpl.
      * destruct H as (h' & Hrun & Hacc' & Hun). eauto.
      * done.
    + destruct (refine_dict_onto_dict S h m f c Mits its Hacc Hfile)
        as (h' & Hrun & Hacc' & Hun).
      simpl. eauto.
Qed.

Lemma files_ok_untouched S h h' (svs : list (string * val)) (fjs : fileset) :
  untouched n0 owner S h h' -> (forall f, f ∈ keys fjs -> f ∉ S) ->
  files_ok n0 owner fuel h svs fjs -> files_ok n0 owner fuel h' svs fjs.
Proof.
  intros Hun Hnew Hfiles. unfold files_ok, keys in *.
  induction Hfiles as [|[g w] [g' i] svs fjs [Hg Hgi] _ IH]; [done|].
  csimpl in *. subst g'. constructor.
  - split; [done|]. apply (file_ok_untouched S h); [done| |done].
    apply Hnew, elem_of_cons. by left.
  - apply IH. intros f Hf. apply Hnew, elem_of_cons. by right.
Qed.

Lemma merge_loop_refines (fjs : fileset) :
  forall (svs : list (string * val)) S h m M,
    acc_ok n0 owner S h m M -> files_ok n0 owner fuel h svs fjs ->
    NoDup (keys fjs) -> (forall f, f ∈ keys fjs -> f ∉ S) ->
    match Value.merge_loop M fjs with
    | Ok M' =>
        exists m' h' S',
          for_each (merge_file fuel) svs m h = (Returns m', h')
          /\ acc_ok n0 owner S' h' m' M'
    | Raise e =>
        exists h', for_each (merge_file fuel) svs m h = (Raises e, h')
    end.
Proof.
  induction fjs as [|[f j] fjs IH]; intros svs S h m M Hacc Hfiles Hnd Hnew;
    inversion Hfiles as [|[f' v] ? svs' ? [Hf Hfile] Hfiles']; subst.
  - simpl. by exists m, h, S.
  - simpl in Hf, Hfile. subst f'. unfold keys in Hnd, Hnew.
    rewrite fmap_cons in Hnd, Hnew. cbn [fst] in Hnd, Hnew.
    apply NoDup_cons in Hnd as [Hf Hnd].
    assert (f ∉ S) as HfS by (apply Hnew, elem_of_cons; by left).
    pose proof (merge_file_refines S h m M f v j Hacc HfS Hfile) as Hstep.
    cbn [for_each Value.merge_loop].
    destruct (Value.merge_file M (f, j)) as [M1|e]; cbn [rbind].
    + destruct Hstep as (m1 & h1 & Hrun & Hacc1 & Hun).
      rewrite (bind_returns _ _ _ _ _ Hrun).
      apply (IH svs' (f :: S)); [done| |done|].
      * apply (files_ok_untouched S h); [done| |done].
        intros g Hg. apply Hnew, elem_of_cons. by right.
      * intros g Hg [->|HgS]%elem_of_cons; [done|].
        apply (Hnew g); [apply elem_of_cons; by right | done].
    + destruct Hstep as (h1 & Hrun). exists h1. unfold bind. by rewrite Hrun.
Qed.

(** The accumulator is its value. *)
Lemma acc_ok_repr S h m M :
  acc_ok n0 owner S h m M -> repr (fun _ => True) h (VRef m) M.
Proof.
  destruct M as [p|js|its]; intros [_ Hacc]; [done|..].
  - destruct Hacc as (_ & es & Hlook & Hes). apply repr_list with es; [done..|].
    eapply Forall2_impl; [exact Hes|]. intros x y Hxy.
    by eapply repr_mono; [|exact Hxy].
  - destruct Hacc as (_ & _ & mitems & Hlook & Hitems).
    apply repr_dict with mitems; [done..|].
    eapply Forall2_impl; [exact Hitems|]. intros x y [Hk Hxy].
    split; [done|]. eapply repr_mono; [|eapply item_ok_repr; [|exact Hxy]].
    + done.
    + intros l Hl. by left.
Qed.

End refine.

(** ** Sorting the files of the store and those of the value *)

Section sorted_items_Forall2.
Context {V V' : Type} (P : string * V -> string * V' -> Prop).
Hypothesis P_name : forall x y, P x y -> x.1 = y.1.

Lemma list_merge_Forall2 l1 l1' l2 l2' :
  Forall2 P l1 l1' -> Forall2 P l2 l2' ->
  Forall2 P (list_merge file_le l1 l2) (list_merge file_le l1' l2').
Proof.
  intros H1. revert l2 l2'.
  induction H1 as [|x1 x1' l1 l1' Hx1 H1 IH1]; intros l2 l2' H2.
  { by rewrite !list_merge_nil_l. }
  induction H2 as [|x2 x2' l2 l2' Hx2 H2 IH2].
  { rewrite !list_merge_nil_r. by constructor. }
  rewrite !list_merge_cons.
  assert (file_le x1 x2 <-> file_le x1' x2') as Hle.
  { unfold file_le. by rewrite (P_name _ _ Hx1), (P_name _ _ Hx2). }
  destruct (decide (file_le x1 x2)), (decide (file_le x1' x2')); try tauto.
  - constructor; [done|]. apply IH1. by constructor.
  - constructor; [done|]. apply IH2.
Qed.

Lemma merge_list_to_stack_Forall2 st st' l l' :
  Forall2 (option_Forall2 (Forall2 P)) st st' -> Forall2 P l l' ->
  Forall2 (option_Forall2 (Forall2 P))
    (merge_list_to_stack file_le st l) (merge_list_to_stack file_le st' l').
Proof.
  intros Hst. revert l l'.
  induction Hst as [|o o' st st' Ho Hst IH]; intros l l' Hl; simpl.
  - repeat constructor. done.
  - destruct Ho as [k k' Hk|]; constructor; try done; try by constructor.
    apply IH. by apply list_merge_Forall2.
Qed.

Lemma merge_stack_Forall2 st st' :
  Forall2 (option_Forall2 (Forall2 P)) st st' ->
  Forall2 P (merge_stack file_le st) (merge_stack file_le st').
Proof.
  induction 1 as [|o o' st st' Ho Hst IH]; simpl; [constructor|].
  destruct Ho as [k k' Hk|]; [|done]. by apply list_merge_Forall2.
Qed.

Lemma merge_sort_aux_Forall2 st st' l l' :
  Forall2 (option_Forall2 (Forall2 P)) st st' -> Forall2 P l l' ->
  Forall2 P (merge_sort_aux file_le st l) (merge_sort_aux file_le st' l').
Proof.
  intros Hst Hl. revert st st' Hst.
  induction Hl as [|x x' l l' Hx Hl IH]; intros st st' Hst; simpl.
  - by apply merge_stack_Forall2.
  - apply IH, merge_list_to_stack_Forall2; [done|]. by repeat constructor.
Qed.

(** Sorting by name takes the files of the store and those of the value
    to the same places. *)
Lemma sorted_items_Forall2 l l' :
  Forall2 P l l' -> Forall2 P (sorted_items l) (sorted_items l').
Proof. intros Hl. apply merge_sort_aux_Forall2; [constructor | done]. Qed.

End sorted_items_Forall2.

Lemma sorted_items_keys {V} (l : list (string * V)) :
  keys (sorted_items l) ≡ₚ keys l.
Proof. unfold keys, sorted_items. by rewrite merge_sort_Permutation. Qed.

(** ** [merge_json_files] over the store and over values *)

(** When the FileSet lies in the store as [json.loads] leaves it (the files
    apart from each other, the values under the keys of an object file apart
    from each other, no list among its own elements), [merge_json_files]
    over the store ends as it does over values: with the same exception, or
    with an object that is the value returned. *)
Theorem store_merge_json_files_refines (fuel : nat)
    (owner : Store.loc -> option (string * string)) (h : Store.heap)
    (lf : Store.loc) (fitems : list (string * Store.val)) (fs : fileset) :
  (forall l fk, owner l = Some fk -> (l < List.length h)%nat) ->
  h !! lf = Some (Store.ODict fitems) ->
  files_ok (List.length h) owner fuel h fitems fs ->
  NoDup (keys fs) ->
  match merge_json_files fs with
  | Ok M =>
      exists m h',
        Store.merge_json_files fuel (Store.VRef lf) h = (Store.Returns m, h')
        /\ Store.repr (fun _ => True) h' (Store.VRef m) M
  | Raise e =>
      exists h',
        Store.merge_json_files fuel (Store.VRef lf) h = (Store.Raises e, h')
  end.
Proof.
  intros Hown Hlf Hfiles Hnd.
  set (n0 := List.length h). set (h1 := h ++ [Store.ODict []]).
  assert (Store.merge_json_files fuel (Store.VRef lf) h
          = Store.for_each (Store.merge_file fuel) (sorted_items fitems) n0 h1)
    as ->.
  { unfold Store.merge_json_files, Store.items, Store.bind, Store.alloc,
      Store.read, Store.ret.
    rewrite lookup_app_l by by apply lookup_lt_Some in Hlf. by rewrite Hlf. }
  assert (acc_ok n0 owner [] h1 n0 (JObj [])) as Hacc.
  { split_and!; [subst h1; rewrite length_app; lia | done | constructor |].
    exists []. split; [by apply list_lookup_middle | constructor]. }
  assert (files_ok n0 owner fuel h1 (sorted_items fitems) (sorted_items fs))
    as Hsorted.
  { apply sorted_items_Forall2; [by intros ?? [? _]|].
    apply (files_ok_untouched n0 owner fuel Hown [] h);
      [|intros ? _; apply not_elem_of_nil|done].
    apply untouched_old; [subst h1; rewrite length_app; lia| |done].
    intros l Hl. by apply lookup_app_l. }
  pose proof (merge_loop_refines n0 owner fuel Hown (sorted_items fs)
                (sorted_items fitems) [] h1 n0 (JObj []) Hacc Hsorted) as Hrun.
  unfold merge_json_files.
  destruct (merge_loop (JObj []) (sorted_items fs)) as [M|e].
  - destruct Hrun as (m & h' & S' & Hrun & Hacc').
    + by rewrite sorted_items_keys.
    + intros f _. apply not_elem_of_nil.
    + exists m, h'. split; [done|]. by eapply acc_ok_repr.
  - apply Hrun; [by rewrite sorted_items_keys|].
    intros f _. apply not_elem_of_nil.
Qed.

(** ** [json.loads] into the store *)

Section store_facts.
Import Store.
Implicit Types (h : heap) (v : val) (j : json).

Lemma store_list_eq (elems : list json) :
  store (JList elems)
  = bind (store_list elems) (fun vs =>
    bind (alloc (OList vs)) (fun l => ret (VRef l))).
Proof. reflexivity. Qed.

Lemma store_items_eq (its : dict) :
  store (JObj its)
  = bind (store_items its) (fun vits =>
    bind (alloc (ODict vits)) (fun l => ret (VRef l))).
Proof. reflexivity. Qed.

Lemma prefix_lookup_lt h h' l :
  h `prefix_of` h' -> (l < List.length h)%nat -> h' !! l = h !! l.
Proof. intros [k ->] Hl. by apply lookup_app_l. Qed.

Lemma store_list_spec (elems : list json) :
  Forall stores elems ->
  forall h, exists vs h',
    store_list elems h = (Returns vs, h') /\ h `prefix_of` h'
    /\ Forall2 (repr (range (List.length h) (List.length h')) h') vs elems.
Proof.
  induction 1 as [|x elems Hx _ IH]; intros h; simpl.
  - exists [], h. split_and!; [done|done|constructor].
  - destruct (Hx h) as (v & h1 & Hrun1 & Hpre1 & Hv).
    destruct (IH h1) as (vs & h2 & Hrun2 & Hpre2 & Hvs).
    exists (v :: vs), h2.
    pose proof (prefix_length _ _ Hpre1) as Hlen1.
    pose proof (prefix_length _ _ Hpre2) as Hlen2.
    split_and!.
    + rewrite (bind_returns _ _ _ _ _ Hrun1).
      by rewrite (bind_returns _ _ _ _ _ Hrun2).
    + by etrans.
    + constructor.
      * eapply repr_mono; [|eapply item_ok_repr; [|exact Hv]]; [|done].
        intros l [Hl1 Hl2]. split; [unfold range; lia|].
        by apply prefix_lookup_lt.
      * eapply Forall2_impl; [exact Hvs|]. intros a b Hab.
        eapply repr_mono; [|exact Hab]. intros l [Hl1 Hl2].
        split; [unfold range; lia|done].
Qed.

Lemma store_items_spec (its : dict) :
  Forall (fun kj => stores kj.2) its ->
  forall h, exists vits h',
    store_items its h = (Returns vits, h') /\ h `prefix_of` h'
    /\ items_repr (range (List.length h) (List.length h')) h' vits its.
Proof.
  induction 1 as [|[k x] its Hx _ IH]; intros h; simpl.
  - exists [], h. split_and!; [done|done|constructor].
  - destruct (Hx h) as (v & h1 & Hrun1 & Hpre1 & Hv).
    destruct (IH h1) as (vs & h2 & Hrun2 & Hpre2 & Hvs).
    exists ((k, v) :: vs), h2.
    pose proof (prefix_length _ _ Hpre1) as Hlen1.
    pose proof (prefix_length _ _ Hpre2) as Hlen2.
    split_and!.
    + rewrite (bind_returns _ _ _ _ _ Hrun1).
      by rewrite (bind_returns _ _ _ _ _ Hrun2).
    + by etrans.
    + constructor.
      * split; [done|]. simpl.
        eapply repr_mono; [|eapply item_ok_repr; [|exact Hv]]; [|done].
        intros l [Hl1 Hl2]. split; [unfold range; lia|].
        by apply prefix_lookup_lt.
      * eapply items_repr_mono; [|exact Hvs]. intros l [Hl1 Hl2].
        split; [unfold range; lia|done].
Qed.

Lemma alloc_prefix h (o : object) : h `prefix_of` h ++ [o].
Proof. by exists [o]. Qed.

(** [store] puts a value above what is there, a list after its elements. *)
Lemma store_spec j : stores j.
Proof.
  induction j as [p|elems IH|its IH] using json_ind; intros h.
  - exists (VPrim p), h. split_and!; [done|done|constructor].
  - destruct (store_list_spec elems IH h) as (vs & h1 & Hrun & Hpre & Hvs).
    pose proof (prefix_length _ _ Hpre) as Hlen.
    exists (VRef (List.length h1)), (h1 ++ [OList vs]).
    rewrite store_list_eq, (bind_returns _ _ _ _ _ Hrun). split_and!.
    + reflexivity.
    + etrans; [done|apply alloc_prefix].
    + exists (List.length h1), vs. rewrite length_app. simpl.
      split_and!; [done|unfold range; lia|by apply list_lookup_middle|].
      eapply Forall2_impl; [exact Hvs|]. intros a b Hab.
      eapply repr_mono; [|exact Hab]. intros l [Hl1 Hl2].
      split_and!; [unfold range; lia|lia|by apply lookup_app_l].
  - destruct (store_items_spec its IH h) as (vits & h1 & Hrun & Hpre & Hvs).
    pose proof (prefix_length _ _ Hpre) as Hlen.
    exists (VRef (List.length h1)), (h1 ++ [ODict vits]).
    rewrite store_items_eq, (bind_returns _ _ _ _ _ Hrun). split_and!.
    + reflexivity.
    + etrans; [done|apply alloc_prefix].
    + rewrite length_app. simpl.
      apply repr_dict with vits;
        [unfold range; lia | by apply list_lookup_middle |].
      eapply items_repr_mono; [|exact Hvs]. intros l [Hl1 Hl2].
      split_and!; [unfold range; lia|by apply lookup_app_l].
Qed.

End store_facts.

Section store_owned.
Import Store.
Implicit Types (h : heap) (v : val) (j : json).

Lemma item_ok_root (R D : loc -> Prop) h c j :
  item_ok R D h (VRef c) j -> R c \/ D c.
Proof.
  destruct j as [p|js|its]; simpl.
  - inversion 1.
  - intros (e & es & [= ->] & He & _). by left.
  - inversion 1; subst. by right.
Qed.

(** The items of an object file, each value on objects of its own. *)
Lemma store_items_owned (its : dict) h :
  exists vits h' (own : loc -> option string),
    store_items its h = (Returns vits, h') /\ h `prefix_of` h'
    /\ (forall l k, own l = Some k ->
          range (List.length h) (List.length h') l)
    /\ items_ok (fun k l => own l = Some k) (fun k l => own l = Some k)
         h' vits its.
Proof.
  revert h. induction its as [|[k x] its IH]; intros h; simpl.
  - exists [], h, (fun _ => None). split_and!; [done|done|done|constructor].
  - destruct (store_spec x h) as (v & h1 & Hrun1 & Hpre1 & Hv).
    destruct (IH h1) as (vs & h2 & own2 & Hrun2 & Hpre2 & Hsup & Hvs).
    pose proof (prefix_length _ _ Hpre1) as Hlen1.
    pose proof (prefix_length _ _ Hpre2) as Hlen2.
    set (own := fun l : loc =>
                  if decide (l < List.length h1)%nat
                  then if decide (List.length h <= l)%nat then Some k else None
                  else own2 l).
    assert (forall l, range (List.length h) (List.length h1) l ->
              own l = Some k /\ h2 !! l = h1 !! l) as Hin.
    { intros l [Hl1 Hl2]. unfold own. repeat case_decide; try lia.
      split; [done|by apply prefix_lookup_lt]. }
    assert (forall k' l, own2 l = Some k' ->
              own l = Some k' /\ h2 !! l = h2 !! l) as Hout.
    { intros k' l Hl. destruct (Hsup _ _ Hl) as [Hl1 Hl2].
      unfold own. by case_decide; [lia|]. }
    assert (items_ok (fun k l => own l = Some k) (fun k l => own l = Some k)
              h2 vs its) as Htail.
    { eapply items_ok_mono; [exact Hout|exact Hout|exact Hvs]. }
    exists ((k, v) :: vs), h2, own. split_and!.
    + rewrite (bind_returns _ _ _ _ _ Hrun1).
      by rewrite (bind_returns _ _ _ _ _ Hrun2).
    + by etrans.
    + intros l k'. unfold own, range. repeat case_decide; [lia|done|].
      intros Hl%Hsup. unfold range in Hl. lia.
    + unfold items_ok in *. constructor; [|exact Htail].
      split; [done|]. simpl.
      eapply item_ok_mono; [exact Hin|exact Hin|exact Hv].
Qed.

Lemma file_ok_mono (n n' : nat) (owner owner' : loc -> option (string * string))
    (fuel : nat) h h' (f : string) v j :
  (n <= n')%nat ->
  (forall l fk, owner l = Some fk -> owner' l = Some fk /\ h' !! l = h !! l) ->
  (forall c, v = VRef c -> (c < n)%nat -> owner c = None ->
     owner' c = None /\ h' !! c = h !! c) ->
  file_ok n owner fuel h f v j -> file_ok n' owner' fuel h' f v j.
Proof.
  intros Hn Hown Hroot [Hdepth Hfile]. split; [done|].
  destruct j as [p|js|its].
  - eapply item_ok_mono; [| |exact Hfile]; intros l Hl; by apply Hown.
  - eapply item_ok_mono; [| |exact Hfile]; intros l Hl; by apply Hown.
  - destruct Hfile as (c & vits & -> & Hc & Hnone & Hl & Hits).
    destruct (Hroot c eq_refl Hc Hnone) as [Hnone' Hl'].
    exists c, vits. split_and!; [done|lia|done|congruence|].
    eapply items_ok_mono; [| |exact Hits]; intros k l Hkl; by apply Hown.
Qed.

(** One file of the FileSet, on objects of its own. *)
Lemma store_file_owned (fuel : nat) (f : string) j h :
  (depth j <= fuel)%nat ->
  exists v h' (owner : loc -> option (string * string)),
    store j h = (Returns v, h') /\ h `prefix_of` h'
    /\ (forall l fk, owner l = Some fk ->
          range (List.length h) (List.length h') l)
    /\ (forall c, v = VRef c -> range (List.length h) (List.length h') c)
    /\ file_ok (List.length h') owner fuel h' f v j.
Proof.
  intros Hdepth. destruct j as [p|js|its].
  - exists (VPrim p), h, (fun _ => None).
    split_and!; [done|done|done|done|]. split; [done|constructor].
  - destruct (store_spec (JList js) h) as (v & h' & Hrun & Hpre & Hv).
    exists v, h',
      (fun l => if decide (range (List.length h) (List.length h') l)
                then Some (f, splitext_root f) else None).
    split_and!; [done|done| | |].
    + intros l fk. by case_decide.
    + intros c ->. by destruct (item_ok_root _ _ _ _ _ Hv).
    + split; [done|].
      eapply item_ok_mono; [| |exact Hv]; intros l Hl;
        (split; [|done]); unfold owned_by; by case_decide.
  - destruct (store_items_owned its h)
      as (vits & h1 & own & Hrun & Hpre & Hsup & Hits).
    pose proof (prefix_length _ _ Hpre) as Hlen.
    exists (VRef (List.length h1)), (h1 ++ [ODict vits]),
      (fun l => pair f <$> own l).
    rewrite store_items_eq, (bind_returns _ _ _ _ _ Hrun), length_app.
    simpl. split_and!.
    + reflexivity.
    + etrans; [done|apply alloc_prefix].
    + intros l fk Hl. destruct (own l) as [k|] eqn:Hk; [|done].
      destruct (Hsup _ _ Hk). unfold range in *. lia.
    + intros c [= <-]. unfold range. lia.
    + split; [done|]. exists (List.length h1), vits. split_and!.
      * done.
      * lia.
      * destruct (own (List.length h1)) as [k|] eqn:Hk; [|done].
        destruct (Hsup _ _ Hk). lia.
      * by apply list_lookup_middle.
      * eapply items_ok_mono; [| |exact Hits]; simpl; intros k l Hl;
          (split; [unfold owned_by; by rewrite Hl|]);
          destruct (Hsup _ _ Hl); by apply lookup_app_l.
Qed.

(** The files of the FileSet, each on objects of its own. *)
Lemma store_files_owned (fuel : nat) (fs : fileset) h :
  Forall (fun fj => (depth fj.2 <= fuel)%nat) fs ->
  exists fitems h' (owner : loc -> option (string * string)),
    store_items fs h = (Returns fitems, h') /\ h `prefix_of` h'
    /\ (forall l fk, owner l = Some fk ->
          range (List.length h) (List.length h') l)
    /\ Forall2 (fun fv fj =>
                  fv.1 = fj.1
                  /\ file_ok (List.length h') owner fuel h' fv.1 fv.2 fj.2
                  /\ forall c, fv.2 = VRef c -> (List.length h <= c)%nat)
         fitems fs.
Proof.
  intros Hall. revert h.
  induction Hall as [|[f j] fs Hdepth _ IH]; intros h; simpl.
  - exists [], h, (fun _ => None). split_and!; [done|done|done|constructor].
  - destruct (store_file_owned fuel f j h Hdepth)
      as (v & h1 & own1 & Hrun1 & Hpre1 & Hsup1 & Hroot1 & Hfile).
    destruct (IH h1) as (vs & h2 & own2 & Hrun2 & Hpre2 & Hsup2 & Hfiles).
    pose proof (prefix_length _ _ Hpre1) as Hlen1.
    pose proof (prefix_length _ _ Hpre2) as Hlen2.
    exists ((f, v) :: vs), h2,
      (fun l => if decide (l < List.length h1)%nat then own1 l else own2 l).
    split_and!.
    + rewrite (bind_returns _ _ _ _ _ Hrun1).
      by rewrite (bind_returns _ _ _ _ _ Hrun2).
    + by etrans.
    + intros l fk. case_decide; intros [Hl1 Hl2]%Hsup1 || intros [Hl1 Hl2]%Hsup2;
        unfold range; lia.
    + constructor.
      * split_and!; [done| |]; simpl.
        -- eapply file_ok_mono; [exact Hlen2| | |exact Hfile].
           ++ intros l fk Hl. destruct (Hsup1 _ _ Hl) as [Hl1 Hl2].
              case_decide; [|lia]. split; [done|by apply prefix_lookup_lt].
           ++ intros c Hc Hlt Hnone. case_decide; [|lia].
              split; [done|by apply prefix_lookup_lt].
        -- intros c Hc. by destruct (Hroot1 c Hc).
      * eapply Forall2_impl; [exact Hfiles|]. simpl.
        intros [g w] [g' x] (Hg & Hgx & Hroot). simpl in *. split_and!.
        -- done.
        -- eapply file_ok_mono; [reflexivity| | |exact Hgx].
           ++ intros l fk Hl. destruct (Hsup2 _ _ Hl) as [Hl1 Hl2].
              case_decide; [lia|done].
           ++ intros c Hc Hlt Hnone. specialize (Hroot c Hc).
              case_decide; [lia|done].
        -- intros c Hc. specialize (Hroot c Hc). lia.
Qed.

(** Reading back a value of the store, with fuel for its height. *)
Lemma load_repr (D : loc -> Prop) h j :
  forall fuel v, repr D h v j -> (height j <= fuel)%nat ->
    load fuel h v = Some j.
Proof.
  induction j as [p|elems IH|its IH] using json_ind; intros fuel v Hv Hfuel;
    inversion Hv as [|l vs ? HD Hl Hall|l vits ? HD Hl Hall]; subst.
  - by destruct fuel.
  - destruct fuel as [|fuel]; simpl in Hfuel; [lia|]. simpl. rewrite Hl.
    apply Nat.succ_le_mono in Hfuel.
    assert (mapM (load fuel h) vs = Some elems) as ->; [|done].
    apply mapM_Some. clear Hl Hv.
    induction Hall as [|w x vs elems Hwx _ IHall]; [constructor|].
    simpl in Hfuel. inversion IH as [|?? IHx IHrest]; subst.
    constructor; [apply IHx; [done|lia] | apply IHall; [done|lia]].
  - destruct fuel as [|fuel]; simpl in Hfuel; [lia|]. simpl. rewrite Hl.
    apply Nat.succ_le_mono in Hfuel.
    assert (mapM (fun kv => pair kv.1 <$> load fuel h kv.2) vits = Some its)
      as ->; [|done].
    apply mapM_Some. clear Hl Hv.
    induction Hall as [|[k w] [k' x] vits its [Hk Hwx] _ IHall];
      [constructor|].
    simpl in *. subst k'. inversion IH as [|?? IHx IHrest]; subst.
    constructor; [|apply IHall; [done|lia]].
    simpl. rewrite (IHx fuel w Hwx) by (simpl; lia). done.
Qed.

End store_owned.

(** ** [run_merge] is [merge_json_files] over values *)

(** Put into an empty store as [json.loads] does, a FileSet of distinct file
    names is merged over the store as it is over values, when the fuel
    covers the objects nested in a file. *)
Theorem store_fileset_refines (fuel : nat) (fs : fileset) :
  NoDup (keys fs) ->
  Forall (fun fj => (depth fj.2 <= fuel)%nat) fs ->
  exists lf h,
    Store.store (JObj fs) [] = (Store.Returns (Store.VRef lf), h)
    /\ match merge_json_files fs with
       | Ok M =>
           exists m h',
             Store.merge_json_files fuel (Store.VRef lf) h
             = (Store.Returns m, h')
             /\ Store.repr (fun _ => True) h' (Store.VRef m) M
       | Raise e =>
           exists h',
             Store.merge_json_files fuel (Store.VRef lf) h
             = (Store.Raises e, h')
       end.
Proof.
  intros Hnd Hdepth.
  destruct (store_files_owned fuel fs [] Hdepth)
    as (fitems & h1 & owner & Hrun & _ & Hsup & Hfiles).
  exists (List.length h1), (h1 ++ [Store.ODict fitems]). split.
  { by rewrite store_items_eq, (bind_returns _ _ _ _ _ Hrun). }
  apply store_merge_json_files_refines with owner fitems.
  - intros l fk [_ Hl]%Hsup. rewrite length_app. simpl. lia.
  - by apply list_lookup_middle.
  - eapply Forall2_impl; [exact Hfiles|]. simpl.
    intros [g w] [g' x] (Hg & Hgx & _). split; [done|].
    eapply file_ok_mono; [| | |exact Hgx].
    + rewrite length_app. simpl. lia.
    + intros l fk Hl. split; [done|].
      destruct (Hsup _ _ Hl). by apply lookup_app_l.
    + intros c _ Hc Hnone. split; [done|]. by apply lookup_app_l.
  - done.
Qed.

(** X1: [run_merge] gives what [merge_json_files] gives on values, for a
    FileSet of distinct file names and fuel for the objects nested in a file
    and for the height of the result. *)
Theorem run_merge_refines (fuel : nat) (fs : fileset) :
  NoDup (keys fs) ->
  Forall (fun fj => (depth fj.2 <= fuel)%nat) fs ->
  match merge_json_files fs with
  | Ok M => (height M <= fuel)%nat
  | Raise _ => True
  end ->
  run_merge fuel fs = Some (merge_json_files fs).
Proof.
  intros Hnd Hdepth Hheight.
  destruct (store_fileset_refines fuel fs Hnd Hdepth) as (lf & h & Hrun & Hm).
  unfold run_merge. rewrite Hrun.
  destruct (merge_json_files fs) as [M|e].
  - destruct Hm as (m & h' & -> & HM).
    by rewrite (load_repr _ _ _ _ _ HM Hheight).
  - by destruct Hm as (h' & ->).
Qed.

Lemma run_merge_refines_witness :
  let json_files :=
    [("b.json", JList [JPrim (PInt 2)]);
     ("a.json", JObj [("b", JList [JPrim (PInt 1)]);
                      ("o", JObj [("p", JPrim PNull)])]);
     ("c.json", JObj [("o", JObj [("q", JPrim PNull)])])] in
  run_merge 3 json_files = Some (merge_json_files json_files).
Proof.
  intros json_files. apply run_merge_refines.
  - apply (bool_decide_unpack _). vm_compute. exact I.
  - repeat constructor; simpl; lia.
  - vm_compute. lia.
Defined.

(** ** [sorted] on the items of a dictionary *)

Section sorted_facts.
Context {V : Type}.
Implicit Types l : list (string * V).

Lemma sorted_items_Permutation l : sorted_items l ≡ₚ l.
Proof. apply merge_sort_Permutation. Qed.

Lemma sorted_items_StronglySorted l : StronglySorted file_le (sorted_items l).
Proof. apply StronglySorted_merge_sort; apply _. Qed.

Lemma NoDup_keys_agree l k (v1 v2 : V) :
  NoDup (keys l) -> (k, v1) ∈ l -> (k, v2) ∈ l -> v1 = v2.
Proof.
  induction l as [|[k' v'] l IH]; simpl; [by intros _ ?%elem_of_nil|].
  intros [Hk Hnd]%NoDup_cons [[= -> ->]|H1]%elem_of_cons
    [[= ->]|H2]%elem_of_cons; try done.
  - destruct Hk. apply list_elem_of_fmap. by exists (k', v2).
  - simplify_eq. destruct Hk. apply list_elem_of_fmap. by exists (k', v1).
  - by apply IH.
Qed.

(** The order of the items in the dictionary does not show after sorting. *)
Lemma sorted_items_unique l l' :
  NoDup (keys l) -> l ≡ₚ l' -> sorted_items l = sorted_items l'.
Proof.
  intros Hnd Hperm.
  apply (StronglySorted_unique_strong file_le);
    [|apply sorted_items_StronglySorted..|].
  - intros [k1 v1] [k2 v2] H1 H2 Hle Hge. unfold file_le in *. simpl in *.
    assert (k1 = k2) as -> by by apply (anti_symm String.le).
    f_equal. apply (NoDup_keys_agree l k2); [done| |].
    + by rewrite <- (sorted_items_Permutation l).
    + by rewrite Hperm, <- (sorted_items_Permutation l').
  - by rewrite !sorted_items_Permutation.
Qed.

End sorted_facts.

Lemma sorted_items_fmap {V W} (g : V -> W) (l : list (string * V)) :
  sorted_items (prod_map id g <$> l) = prod_map id g <$> sorted_items l.
Proof.
  assert (Forall2 (fun (x : string * V) (y : string * W) => y = prod_map id g x)
            (sorted_items l) (sorted_items (prod_map id g <$> l))) as Hall.
  { apply sorted_items_Forall2; [by intros [??] ? ->|].
    apply Forall2_fmap_r, Forall_Forall2_diag, Forall_true. done. }
  induction Hall as [|x y s s' -> _ IH]; [done|]. by rewrite fmap_cons, IH.
Qed.

(** ** What the accumulator has become *)

Lemma dict_set_nonempty {V} (key : string) (v : V) (d : list (string * V)) :
  dict_set key v d <> [].
Proof. destruct d as [|[k x] d]; simpl; [done|]. by case_match. Qed.

Lemma deep_merge_dict_nonempty (r n : dict) :
  r <> [] -> deep_merge_dict r n <> [].
Proof.
  revert r. induction n as [|[k v] n IH]; intros r Hr; simpl; [done|].
  apply IH, dict_set_nonempty.
Qed.

Lemma deep_merge_dict_nonempty_r (r n : dict) :
  n <> [] -> deep_merge_dict r n <> [].
Proof.
  destruct n as [|[k v] n]; [done|]. intros _. simpl.
  apply deep_merge_dict_nonempty, dict_set_nonempty.
Qed.

(** A sequence accumulator takes sequences and empty objects, and nothing
    else. *)
Lemma merge_loop_sequence (files : fileset) :
  forall m : list json,
    merge_loop (JList m) files
    = if existsb breaks_sequence files.*2 then Raise TypeError
      else Ok (JList (m ++ elements files.*2)).
Proof.
  induction files as [|[f [p|c|[|kv d]]] files IH]; intros m; csimpl.
  - by rewrite app_nil_r.
  - done.
  - destruct m as [|x m]; cbn [truthy negb rbind]; rewrite IH; case_match;
      try done.
    by rewrite <- app_assoc.
  - apply IH.
  - done.
Qed.

(** A non-empty object accumulator takes every file and stays one. *)
Lemma merge_loop_object (files : fileset) :
  forall acc : dict,
    acc <> [] ->
    exists r : dict, r <> [] /\ merge_loop (JObj acc) files = Ok (JObj r).
Proof.
  induction files as [|[f [p|c|d]] files IH]; intros acc Hacc.
  - by exists acc.
  - apply (IH (dict_set (splitext_root f) (JPrim p) acc)), dict_set_nonempty.
  - destruct acc as [|kv acc]; [done|].
    cbn [merge_loop merge_file truthy negb].
    destruct (dict_get (splitext_root f) (kv :: acc)) as [[q|old|sub]|];
      cbn [setitem rbind]; apply IH, dict_set_nonempty.
  - apply (IH (deep_merge_dict acc d)). by apply deep_merge_dict_nonempty.
Qed.

Lemma merge_loop_outcome (files : fileset) :
  if sequence_then_other files.*2
  then merge_loop (JObj []) files = Raise TypeError
  else exists merged,
      merge_loop (JObj []) files = Ok merged /\ is_container merged = true.
Proof.
  induction files as [|[f [p|c|[|kv d]]] files IH]; csimpl.
  - by exists (JObj []).
  - destruct (merge_loop_object files [(splitext_root f, JPrim p)])
      as (r & _ & ->); [done|]. by exists (JObj r).
  - rewrite merge_loop_sequence.
    destruct (existsb breaks_sequence files.*2); [done|by eexists].
  - apply IH.
  - destruct (merge_loop_object files (deep_merge_dict [] (kv :: d)))
      as (r & _ & Hr); [by apply deep_merge_dict_nonempty_r|].
    exists (JObj r). split; [|done]. destruct kv. exact Hr.
Qed.

(** X2: [merge_json_files] raises exactly when, in the order of the names,
    the first file that is not the empty object is a sequence and a later
    one is a non-empty object or a primitive; what it raises then is a
    TypeError, and what it returns otherwise is an object or a sequence. *)
Theorem merge_json_files_outcome (json_files : fileset) :
  if sequence_then_other (sorted_items json_files).*2
  then merge_json_files json_files = Raise TypeError
  else exists merged,
      merge_json_files json_files = Ok merged /\ is_container merged = true.
Proof. apply merge_loop_outcome. Qed.

(** X3: the result does not depend on the order in which the files were put
    into the FileSet. *)
Theorem merge_json_files_insertion_order (json_files json_files' : fileset) :
  NoDup (keys json_files) -> json_files ≡ₚ json_files' ->
  merge_json_files json_files = merge_json_files json_files'.
Proof.
  intros Hnd Hperm. unfold merge_json_files.
  by rewrite (sorted_items_unique json_files json_files').
Qed.

Lemma merge_json_files_insertion_order_witness :
  merge_json_files [("b.json", JList [JPrim (PInt 2)]);
                    ("a.json", JObj [("k", JPrim PNull)])]
  = merge_json_files [("a.json", JObj [("k", JPrim PNull)]);
                      ("b.json", JList [JPrim (PInt 2)])].
Proof.
  apply merge_json_files_insertion_order.
  - apply (bool_decide_unpack _). vm_compute. exact I.
  - apply perm_swap.
Defined.

(** ** Sequence files only *)

Lemma elements_lists (files : list (string * list json)) :
  elements (prod_map id JList <$> files).*2 = List.concat files.*2.
Proof.
  induction files as [|[f c] files IH]; csimpl; [done|]. by rewrite IH.
Qed.

Lemma breaks_sequence_lists (files : list (string * list json)) :
  existsb breaks_sequence (prod_map id JList <$> files).*2 = false.
Proof. induction files as [|[f c] files IH]; csimpl; done. Qed.

(** X4: a FileSet of sequence files only is merged to one sequence, the
    elements of the files one after the other in the order of the names. *)
Theorem merge_json_files_all_sequences (files : list (string * list json)) :
  files <> [] ->
  merge_json_files (prod_map id JList <$> files)
  = Ok (JList (List.concat (sorted_items files).*2)).
Proof.
  intros Hne. unfold merge_json_files. rewrite sorted_items_fmap.
  destruct (sorted_items files) as [|[f c] sorted] eqn:Hsorted.
  { apply (f_equal List.length) in Hsorted.
    rewrite (Permutation_length (sorted_items_Permutation files)) in Hsorted.
    by destruct files. }
  csimpl. rewrite merge_loop_sequence, breaks_sequence_lists.
  by rewrite elements_lists.
Qed.

Lemma merge_json_files_all_sequences_witness :
  merge_json_files [("b.json", JList [JPrim (PInt 2)]);
                    ("c.json", JList []);
                    ("a.json", JList [JPrim (PInt 1); JPrim PNull])]
  = Ok (JList [JPrim (PInt 1); JPrim PNull; JPrim (PInt 2)]).
Proof.
  exact (merge_json_files_all_sequences
           [("b.json", [JPrim (PInt 2)]); ("c.json", []);
            ("a.json", [JPrim (PInt 1); JPrim PNull])] ltac:(done)).
Defined.

(** ** Object files only *)

Lemma merge_loop_objects (files : list (string * dict)) :
  forall acc : dict,
    merge_loop (JObj acc) (prod_map id JObj <$> files)
    = Ok (JObj (foldl deep_merge_dict acc files.*2)).
Proof.
  induction files as [|[f d] files IH]; intros acc; csimpl; [done|apply IH].
Qed.

Lemma merge_json_files_objects (files : list (string * dict)) :
  merge_json_files (prod_map id JObj <$> files)
  = Ok (JObj (foldl deep_merge_dict [] (sorted_items files).*2)).
Proof.
  unfold merge_json_files. rewrite sorted_items_fmap. apply merge_loop_objects.
Qed.

Lemma dict_set_new {V} (key : string) (v : V) (d : list (string * V)) :
  key ∉ keys d -> dict_set key v d = d ++ [(key, v)].
Proof.
  induction d as [|[k x] d IH]; simpl; [done|].
  intros [Hk Hd]%not_elem_of_cons. destruct (String.eqb_spec k key); [done|].
  by rewrite IH.
Qed.

(** Onto keys it does not have, [deep_merge] adds the new items behind. *)
Lemma deep_merge_dict_disjoint (r n : dict) :
  NoDup (keys (r ++ n)) -> deep_merge_dict r n = r ++ n.
Proof.
  revert r. induction n as [|[k v] n IH]; intros r Hnd; simpl.
  { by rewrite app_nil_r. }
  assert (k ∉ keys r) as Hk.
  { unfold keys in Hnd. rewrite fmap_app in Hnd.
    apply NoDup_app in Hnd as (_ & Hnd & _). intros Hin.
    apply (Hnd k Hin). simpl. apply elem_of_cons. by left. }
  apply dict_get_None in Hk as Hget. rewrite Hget, merge_value_new.
  rewrite dict_set_new by done. rewrite IH; rewrite <- app_assoc; done.
Qed.

Lemma foldl_deep_merge_dict_disjoint (ds : list dict) :
  forall acc : dict,
    NoDup (keys (acc ++ List.concat ds)) ->
    foldl deep_merge_dict acc ds = acc ++ List.concat ds.
Proof.
  induction ds as [|d ds IH]; intros acc Hnd; simpl.
  { by rewrite app_nil_r. }
  simpl in Hnd. rewrite app_assoc in Hnd.
  rewrite deep_merge_dict_disjoint.
  - rewrite IH by done. by rewrite <- app_assoc.
  - unfold keys in *. rewrite fmap_app in Hnd.
    by apply NoDup_app in Hnd as [? _].
Qed.

Lemma concat_Permutation {A} (l l' : list (list A)) :
  l ≡ₚ l' -> List.concat l ≡ₚ List.concat l'.
Proof.
  induction 1 as [|x l l' _ IH|x y l|l l' l'' _ IH1 _ IH2]; simpl.
  - done.
  - by rewrite IH.
  - rewrite !app_assoc. f_equiv. apply Permutation_app_comm.
  - by etrans.
Qed.

(** X5: object files that have no key in common are merged to the object of
    all their items, file after file in the order of the names. *)
Theorem merge_json_files_disjoint (files : list (string * dict)) :
  NoDup (keys (List.concat files.*2)) ->
  merge_json_files (prod_map id JObj <$> files)
  = Ok (JObj (List.concat (sorted_items files).*2)).
Proof.
  intros Hnd. rewrite merge_json_files_objects. do 2 f_equal.
  apply (foldl_deep_merge_dict_disjoint _ []). simpl.
  assert (keys (List.concat (sorted_items files).*2)
          ≡ₚ keys (List.concat files.*2)) as Hperm; [|by rewrite Hperm].
  unfold keys. apply fmap_Permutation, concat_Permutation, fmap_Permutation.
  apply sorted_items_Permutation.
Qed.

Lemma merge_json_files_disjoint_witness :
  merge_json_files
    [("offsets.json",
      JObj [("client.dll", JObj [("dwEntityList", JPrim (PInt 1))])]);
     ("buttons.json",
      JObj [("attack", JPrim (PInt 2)); ("jump", JPrim (PInt 3))])]
  = Ok (JObj [("attack", JPrim (PInt 2)); ("jump", JPrim (PInt 3));
              ("client.dll", JObj [("dwEntityList", JPrim (PInt 1))])]).
Proof.
  apply (merge_json_files_disjoint
           [("offsets.json",
             [("client.dll", JObj [("dwEntityList", JPrim (PInt 1))])]);
            ("buttons.json",
             [("attack", JPrim (PInt 2)); ("jump", JPrim (PInt 3))])]).
  apply (bool_decide_unpack _). vm_compute. exact I.
Defined.

(** ** Key by key *)

Lemma dict_get_foldl_deep_merge (k : string) (ds : list dict) :
  forall acc : dict,
    Forall (fun d => NoDup (keys d)) ds ->
    dict_get k (foldl deep_merge_dict acc ds)
    = foldl merge_opt (dict_get k acc) (dict_get k <$> ds).
Proof.
  induction ds as [|d ds IH]; intros acc Hnd; csimpl; [done|].
  inversion Hnd; subst. rewrite IH by done. by rewrite dict_get_deep_merge.
Qed.

Lemma dict_get_is_Some {V} (k : string) (d : list (string * V)) :
  is_Some (dict_get k d) <-> k ∈ keys d.
Proof.
  rewrite <- not_eq_None_Some, dict_get_None.
  destruct (decide (k ∈ keys d)); tauto.
Qed.

Lemma foldl_merge_opt_is_Some (os : list (option json)) :
  forall o, is_Some (foldl merge_opt o os)
            <-> is_Some o \/ exists o', o' ∈ os /\ is_Some o'.
Proof.
  induction os as [|x os IH]; intros o; simpl.
  { split; [by left|]. intros [?|(? & ?%elem_of_nil & _)]; done. }
  rewrite IH. split.
  - intros [Hx|(o' & Hin & Ho')].
    + destruct x as [v|]; simpl in Hx.
      * right. exists (Some v). split; [apply elem_of_cons; by left|done].
      * by left.
    + right. exists o'. split; [apply elem_of_cons; by right|done].
  - intros [Ho|(o' & [->|Hin]%elem_of_cons & Ho')].
    + left. by destruct x.
    + left. by destruct Ho' as [v ->].
    + right. by exists o'.
Qed.

Lemma foldl_merge_opt_None (os : list (option json)) (o : option json) :
  Forall (fun x => x = None) os -> foldl merge_opt o os = o.
Proof. induction 1 as [|x os -> _ IH]; simpl; done. Qed.

(** X6: the keys of the object merged from object files are the keys of the
    files: none is lost and none is made up. *)
Theorem merge_json_files_keys (files : list (string * dict)) :
  Forall (fun file => NoDup (keys file.2)) files ->
  exists r : dict,
    merge_json_files (prod_map id JObj <$> files) = Ok (JObj r)
    /\ forall k, k ∈ keys r <-> exists f d, (f, d) ∈ files /\ k ∈ keys d.
Proof.
  intros Hnd. eexists. split; [apply merge_json_files_objects|]. intros k.
  assert (Forall (fun d : dict => NoDup (keys d)) (sorted_items files).*2)
    as Hnd'.
  { apply Forall_fmap. by rewrite sorted_items_Permutation. }
  rewrite <- dict_get_is_Some, dict_get_foldl_deep_merge by done.
  rewrite foldl_merge_opt_is_Some. simpl. split.
  - intros [[? [=]]|(o & Hin & Ho)].
    apply list_elem_of_fmap in Hin as (d & -> & Hin).
    apply list_elem_of_fmap in Hin as ([f d'] & -> & Hin).
    exists f, d'. split; [by rewrite <- (sorted_items_Permutation files)|].
    by apply dict_get_is_Some.
  - intros (f & d & Hin & Hk). right. exists (dict_get k d). split.
    + apply list_elem_of_fmap. exists d. split; [done|].
      apply list_elem_of_fmap. exists (f, d). split; [done|].
      by rewrite sorted_items_Permutation.
    + by apply dict_get_is_Some.
Qed.

Lemma merge_json_files_keys_witness :
  exists r : dict,
    merge_json_files
      [("b.json", JObj [("k", JPrim (PInt 2)); ("m", JPrim PNull)]);
       ("a.json", JObj [("k", JPrim (PInt 1))])]
    = Ok (JObj r)
    /\ forall k, k ∈ keys r
         <-> exists f d,
             (f, d) ∈ [("b.json",
                        [("k", JPrim (PInt 2)); ("m", JPrim PNull)]);
                       ("a.json", [("k", JPrim (PInt 1))])]
             /\ k ∈ keys d.
Proof.
  apply (merge_json_files_keys
           [("b.json", [("k", JPrim (PInt 2)); ("m", JPrim PNull)]);
            ("a.json", [("k", JPrim (PInt 1))])]).
  repeat constructor; simpl; apply (bool_decide_unpack _); vm_compute; exact I.
Defined.

Lemma merge_value_not_dict (existing : option json) (v : json) :
  is_dict v = false -> merge_value existing v = v.
Proof. destruct existing as [[| |]|], v; done. Qed.

(** X7: among object files, the file latest in the order of the names that
    has a key decides the value at that key, when that value is no object
    or no earlier file has the key. *)
Theorem merge_json_files_last_wins (files before rest : list (string * dict))
    (f : string) (d : dict) (k : string) (v : json) :
  Forall (fun file => NoDup (keys file.2)) files ->
  sorted_items files = before ++ (f, d) :: rest ->
  dict_get k d = Some v ->
  Forall (fun file => dict_get k file.2 = None) rest ->
  is_dict v = false \/ Forall (fun file => dict_get k file.2 = None) before ->
  exists r : dict,
    merge_json_files (prod_map id JObj <$> files) = Ok (JObj r)
    /\ dict_get k r = Some v.
Proof.
  intros Hnd Hsorted Hv Hrest Hbefore.
  eexists. split; [apply merge_json_files_objects|].
  rewrite dict_get_foldl_deep_merge.
  2:{ apply Forall_fmap. by rewrite sorted_items_Permutation. }
  rewrite Hsorted, !fmap_app, !fmap_cons, foldl_app. simpl. rewrite Hv.
  rewrite foldl_merge_opt_None.
  2:{ apply Forall_fmap, Forall_fmap. exact Hrest. }
  simpl. f_equal. destruct Hbefore as [Hscalar|Hbefore].
  - by apply merge_value_not_dict.
  - rewrite foldl_merge_opt_None; [apply merge_value_new|].
    apply Forall_fmap, Forall_fmap. exact Hbefore.
Qed.

Lemma merge_json_files_last_wins_witness :
  exists r : dict,
    merge_json_files
      [("b.json", JObj [("k", JPrim (PInt 2)); ("m", JPrim PNull)]);
       ("c.json", JObj [("n", JObj [])]);
       ("a.json", JObj [("k", JObj [("x", JPrim (PInt 1))])])]
    = Ok (JObj r)
    /\ dict_get "k" r = Some (JPrim (PInt 2)).
Proof.
  apply (merge_json_files_last_wins
           [("b.json", [("k", JPrim (PInt 2)); ("m", JPrim PNull)]);
            ("c.json", [("n", JObj [])]);
            ("a.json", [("k", JObj [("x", JPrim (PInt 1))])])]
           [("a.json", [("k", JObj [("x", JPrim (PInt 1))])])]
           [("c.json", [("n", JObj [])])]
           "b.json" [("k", JPrim (PInt 2)); ("m", JPrim PNull)]).
  - repeat constructor; simpl; apply (bool_decide_unpack _); vm_compute;
      exact I.
  - vm_compute. reflexivity.
  - reflexivity.
  - by repeat constructor.
  - by left.
Defined.

(** ** Laws of [deep_merge] *)

(** X8: what [deep_merge] leaves at a key: at a key of [new], the merge of
    the two values when [base] has the key and both values are objects and
    else the value of [new]; at any other key what [base] has there. *)
Theorem deep_merge_lookup (base new : dict) (key : string) :
  NoDup (keys new) ->
  exists result : dict,
    deep_merge (JObj base) (JObj new) = Ok (JObj result)
    /\ match dict_get key new with
       | None => dict_get key result = dict_get key base
       | Some value =>
           match dict_get key base with
           | Some existing =>
               if is_dict existing && is_dict value
               then exists merged,
                   deep_merge existing value = Ok merged
                   /\ dict_get key result = Some merged
               else dict_get key result = Some value
           | None => dict_get key result = Some value
           end
       end.
Proof.
  intros Hnd. eexists. split; [reflexivity|].
  rewrite dict_get_deep_merge by done.
  destruct (dict_get key new) as [value|]; [|done]. cbn [merge_opt].
  destruct (dict_get key base) as [[p|l|sub]|]; cbn [is_dict andb].
  - by destruct value.
  - by destruct value.
  - destruct value as [p|l|n]; cbn [is_dict andb]; try done.
    eexists. split; [reflexivity|]. by rewrite merge_value_dict.
  - by rewrite merge_value_new.
Qed.

Lemma deep_merge_lookup_witness :
  exists result : dict,
    deep_merge (JObj [("k", JObj [("p", JPrim (PInt 1))])])
      (JObj [("k", JObj [("q", JPrim (PInt 2))])])
    = Ok (JObj result)
    /\ exists merged,
        deep_merge (JObj [("p", JPrim (PInt 1))]) (JObj [("q", JPrim (PInt 2))])
        = Ok merged
        /\ dict_get "k" result = Some merged.
Proof.
  apply (deep_merge_lookup [("k", JObj [("p", JPrim (PInt 1))])]
           [("k", JObj [("q", JPrim (PInt 2))])] "k").
  apply (bool_decide_unpack _). vm_compute. exact I.
Defined.

(** X9: the keys of the result of [deep_merge] are the keys of [base] in
    their order, followed by the keys only [new] has, in the order [new] has
    them. *)
Theorem deep_merge_keys (base new : dict) :
  NoDup (keys new) ->
  exists result : dict,
    deep_merge (JObj base) (JObj new) = Ok (JObj result)
    /\ keys result = keys base ++ filter (fun k => k ∉ keys base) (keys new).
Proof.
  intros Hnd. eexists. split; [reflexivity|]. by apply keys_deep_merge.
Qed.

Lemma deep_merge_keys_witness :
  exists result : dict,
    deep_merge (JObj [("b", JPrim PNull); ("a", JPrim PNull)])
      (JObj [("c", JPrim PNull); ("a", JPrim (PInt 1)); ("0", JPrim PNull)])
    = Ok (JObj result)
    /\ keys result = ["b"; "a"; "c"; "0"].
Proof.
  apply (deep_merge_keys [("b", JPrim PNull); ("a", JPrim PNull)]
           [("c", JPrim PNull); ("a", JPrim (PInt 1)); ("0", JPrim PNull)]).
  apply (bool_decide_unpack _). vm_compute. exact I.
Defined.

Lemma dict_get_elem {V} (k : string) (v : V) (d : list (string * V)) :
  NoDup (keys d) -> (k, v) ∈ d -> dict_get k d = Some v.
Proof.
  intros Hnd Hin.
  assert (is_Some (dict_get k d)) as [v' Hv'].
  { apply dict_get_is_Some, list_elem_of_fmap. by exists (k, v). }
  rewrite Hv'. f_equal.
  eapply NoDup_keys_agree; [done|by apply dict_get_Some_elem|done].
Qed.

Lemma Forall_dict_get (P : json -> Prop) (k : string) (v : json) (d : dict) :
  Forall (fun kv => P kv.2) d -> dict_get k d = Some v -> P v.
Proof.
  intros Hall Hin%dict_get_Some_elem. rewrite Forall_forall in Hall.
  exact (Hall _ Hin).
Qed.

Lemma filter_none {A} (P : A -> Prop) `{!forall x, Decision (P x)}
    (l : list A) :
  Forall (fun x => ~ P x) l -> filter P l = [].
Proof.
  induction 1 as [|x l Hx _ IH]; [done|].
  rewrite filter_cons, decide_False by done. exact IH.
Qed.

(** Merging the same dictionary in once more changes nothing, provided it
    is so one level down. *)
Lemma deep_merge_dict_absorb_with (n : dict) :
  Forall (fun kv =>
            forall x : option json,
              (forall y, x = Some y -> wf y = true) ->
              merge_value (Some (merge_value x kv.2)) kv.2
              = merge_value x kv.2) n ->
  forall sub : dict,
    wf (JObj sub) = true -> NoDup (keys n) ->
    deep_merge_dict (deep_merge_dict sub n) n = deep_merge_dict sub n.
Proof.
  intros IH sub Hwf Hn. apply wf_obj in Hwf as Hsub. destruct Hsub as [Hsub _].
  assert (NoDup (keys (deep_merge_dict sub n))) as Hnd
    by by apply NoDup_keys_deep_merge.
  apply dict_ext.
  - rewrite (keys_deep_merge (deep_merge_dict sub n)) by done.
    rewrite <- (app_nil_r (keys (deep_merge_dict sub n))) at 2. f_equal.
    apply filter_none, Forall_forall. intros k' Hk' Hnot. apply Hnot.
    apply dict_get_is_Some. rewrite dict_get_deep_merge by done.
    apply dict_get_is_Some in Hk' as [v ->]. done.
  - by apply NoDup_keys_deep_merge.
  - intros k. rewrite !dict_get_deep_merge by done.
    destruct (dict_get k n) as [v|] eqn:Hv; [|done]. cbn [merge_opt].
    f_equal.
    apply (Forall_dict_get
             (fun v => forall x : option json,
                  (forall y, x = Some y -> wf y = true) ->
                  merge_value (Some (merge_value x v)) v = merge_value x v)
             k v n IH Hv).
    intros y Hy. by apply (wf_dict_get k y sub).
Qed.

Lemma merge_value_absorb (v : json) :
  wf v = true ->
  forall x : option json,
    (forall y, x = Some y -> wf y = true) ->
    merge_value (Some (merge_value x v)) v = merge_value x v.
Proof.
  induction v as [p|elems _|n IH] using json_ind; intros Hv x Hx;
    [by destruct x as [[| |]|]..|].
  apply wf_obj in Hv as [Hn Hvals].
  assert (Forall (fun kv : string * json =>
                    forall x : option json,
                      (forall y, x = Some y -> wf y = true) ->
                      merge_value (Some (merge_value x kv.2)) kv.2
                      = merge_value x kv.2) n) as IH'.
  { rewrite Forall_forall in *. intros kv Hin. by apply IH, Hvals. }
  assert (deep_merge_dict n n = n) as Hidem.
  { pose proof (deep_merge_dict_absorb_with n IH' [] eq_refl Hn) as Habsorb.
    by rewrite (deep_merge_dict_empty_l n) in Habsorb. }
  destruct x as [[p|l|sub]|].
  - rewrite (merge_value_over (Some (JPrim p))) by done.
    by rewrite merge_value_dict, Hidem.
  - rewrite (merge_value_over (Some (JList l))) by done.
    by rewrite merge_value_dict, Hidem.
  - rewrite !merge_value_dict. f_equal.
    apply deep_merge_dict_absorb_with; [done| |done]. by apply Hx.
  - rewrite merge_value_new. by rewrite merge_value_dict, Hidem.
Qed.

(** X10: merging the same object in a second time changes nothing, and an
    object merged into itself stays as it is. *)
Theorem deep_merge_absorbs (a b : dict) :
  wf (JObj a) = true -> wf (JObj b) = true ->
  rbind (deep_merge (JObj a) (JObj b)) (fun ab => deep_merge ab (JObj b))
  = deep_merge (JObj a) (JObj b)
  /\ deep_merge (JObj b) (JObj b) = Ok (JObj b).
Proof.
  intros Ha Hb.
  pose proof (merge_value_absorb (JObj b) Hb) as Habsorb.
  split.
  - specialize (Habsorb (Some (JObj a))). rewrite !merge_value_dict in Habsorb.
    simpl. f_equal. apply Habsorb. by intros y [= <-].
  - specialize (Habsorb None). rewrite merge_value_new in Habsorb.
    rewrite merge_value_dict in Habsorb. simpl. f_equal. by apply Habsorb.
Qed.

Lemma deep_merge_absorbs_witness :
  let a := [("k", JObj [("p", JPrim (PInt 1))]); ("l", JList [])] in
  let b := [("k", JObj [("q", JPrim (PInt 2))]); ("l", JPrim PNull)] in
  rbind (deep_merge (JObj a) (JObj b)) (fun ab => deep_merge ab (JObj b))
  = deep_merge (JObj a) (JObj b)
  /\ deep_merge (JObj b) (JObj b) = Ok (JObj b).
Proof. intros a b. by apply (deep_merge_absorbs a b). Defined.

(** ** No key twice *)

Lemma wf_deep_merge_dict_with (n : dict) :
  Forall (fun kv =>
            forall x : option json,
              (forall y, x = Some y -> wf y = true) ->
              wf (merge_value x kv.2) = true) n ->
  forall sub : dict,
    wf (JObj sub) = true -> NoDup (keys n) ->
    wf (JObj (deep_merge_dict sub n)) = true.
Proof.
  intros IH sub Hwf Hn. apply wf_obj in Hwf as Hsub.
  destruct Hsub as [Hsub Hvals].
  assert (NoDup (keys (deep_merge_dict sub n))) as Hnd
    by by apply NoDup_keys_deep_merge.
  apply wf_obj. split; [done|]. apply Forall_forall. intros [k y] Hin.
  apply dict_get_elem in Hin; [|done].
  rewrite dict_get_deep_merge in Hin by done. simpl.
  destruct (dict_get k n) as [v|] eqn:Hv; simpl in Hin.
  - injection Hin as <-.
    apply (Forall_dict_get
             (fun v => forall x : option json,
                  (forall y, x = Some y -> wf y = true) ->
                  wf (merge_value x v) = true) k v n IH Hv).
    intros y Hy. by apply (wf_dict_get k y sub).
  - by apply (wf_dict_get k y sub).
Qed.

Lemma wf_merge_value (v : json) :
  wf v = true ->
  forall x : option json,
    (forall y, x = Some y -> wf y = true) -> wf (merge_value x v) = true.
Proof.
  induction v as [p|elems _|n IH] using json_ind; intros Hv x Hx;
    [by destruct x as [[| |]|]..|].
  destruct x as [[p|l|sub]|];
    [by rewrite merge_value_over by done..| |by rewrite merge_value_new].
  rewrite merge_value_dict. apply wf_obj in Hv as Hn. destruct Hn as [Hn Hvals].
  apply wf_deep_merge_dict_with; [|by apply Hx|done].
  rewrite Forall_forall in *. intros kv Hin. by apply IH, Hvals.
Qed.

Lemma wf_dict_set (key : string) (v : json) (d : dict) :
  wf (JObj d) = true -> wf v = true -> wf (JObj (dict_set key v d)) = true.
Proof.
  rewrite !wf_obj. intros [Hnd Hvals] Hv. split.
  - by apply NoDup_keys_dict_set.
  - apply Forall_forall. intros [k x] [[= -> ->]|Hin]%elem_of_dict_set; [done|].
    rewrite Forall_forall in Hvals. exact (Hvals _ Hin).
Qed.

Lemma wf_list_app (m c : list json) :
  wf (JList m) = true -> wf (JList c) = true -> wf (JList (m ++ c)) = true.
Proof. simpl. rewrite forallb_app. by intros -> ->. Qed.

Lemma wf_merge_file (merged merged' : json) (file : string * json) :
  wf merged = true -> wf file.2 = true ->
  merge_file merged file = Ok merged' -> wf merged' = true.
Proof.
  destruct file as [f content]. cbn [snd]. intros Hm Hc.
  destruct content as [p|c|d]; cbn [merge_file].
  - destruct merged as [q|m|acc]; cbn [setitem]; [done..|].
    intros [= <-]. by apply wf_dict_set.
  - destruct (truthy merged); cbn [negb]; [|by intros [= <-]].
    destruct merged as [q|m|acc]; [done| |].
    + intros [= <-]. by apply wf_list_app.
    + destruct (dict_get (splitext_root f) acc) as [[q|old|sub]|] eqn:Hget;
        cbn [setitem]; intros [= <-]; apply wf_dict_set; try done.
      apply wf_list_app; [|done]. by apply (wf_dict_get _ _ _ Hm Hget).
  - destruct merged as [q|m|acc]; cbn [deep_merge]; [done| |].
    + destruct d; [|done]. by intros [= <-].
    + intros [= <-]. rewrite <- merge_value_dict.
      apply wf_merge_value; [done|]. by intros y [= <-].
Qed.

Lemma wf_merge_loop (files : fileset) :
  forall merged merged',
    wf merged = true -> Forall (fun file => wf file.2 = true) files ->
    merge_loop merged files = Ok merged' -> wf merged' = true.
Proof.
  induction files as [|file files IH]; intros merged merged' Hm Hfiles; simpl.
  { by intros [= <-]. }
  inversion Hfiles; subst.
  destruct (merge_file merged file) as [m|e] eqn:Hfile; [|done]. simpl.
  apply IH; [|done]. by apply (wf_merge_file merged m file).
Qed.

(** X11: when no object of a file has a key twice, at any depth, no object of
    the merged document has. *)
Theorem merge_json_files_wf (json_files : fileset) (merged : json) :
  Forall (fun file => wf file.2 = true) json_files ->
  merge_json_files json_files = Ok merged -> wf merged = true.
Proof.
  intros Hfiles. apply wf_merge_loop; [done|].
  by rewrite sorted_items_Permutation.
Qed.

Lemma merge_json_files_wf_witness :
  wf (JObj [("k", JObj [("p", JPrim (PInt 1)); ("q", JPrim (PInt 2))]);
            ("c", JList [JPrim PNull])]) = true.
Proof.
  apply (merge_json_files_wf
           [("b.json", JObj [("k", JObj [("q", JPrim (PInt 2))])]);
            ("a.json", JObj [("k", JObj [("p", JPrim (PInt 1))])]);
            ("c.json", JList [JPrim PNull])]).
  - by repeat constructor.
  - vm_compute. reflexivity.
Defined.

(** ** Strings *)

Section string_facts.
Implicit Types (s t : string) (c : ascii) (n m : nat).

Lemma append_nil_l t : "" +:+ t = t.
Proof. reflexivity. Qed.

Lemma append_cons (a : ascii) s t : String a s +:+ t = String a (s +:+ t).
Proof. reflexivity. Qed.

Lemma length_append s t :
  String.length (s +:+ t) = (String.length s + String.length t)%nat.
Proof.
  induction s as [|a s IH]; [done|]. rewrite append_cons. simpl. by rewrite IH.
Qed.

Lemma append_assoc s t u : (s +:+ t) +:+ u = s +:+ (t +:+ u).
Proof.
  induction s as [|a s IH]; [done|]. rewrite !append_cons. by rewrite IH.
Qed.

Lemma append_nil_r s : s +:+ "" = s.
Proof.
  induction s as [|a s IH]; [done|]. rewrite append_cons. by rewrite IH.
Qed.

Lemma substring_all s : substring 0 (String.length s) s = s.
Proof. induction s as [|a s IH]; simpl; [done|]. by rewrite IH. Qed.

Lemma substring_prefix s t :
  substring 0 (String.length s) (s +:+ t) = s.
Proof.
  induction s as [|a s IH]; [by destruct t|].
  rewrite append_cons. simpl. by rewrite IH.
Qed.

Lemma substring_skip s t n m :
  substring (String.length s + n) m (s +:+ t) = substring n m t.
Proof. induction s as [|a s IH]; [done|]. rewrite append_cons. exact IH. Qed.

Lemma substring_suffix s t :
  substring (String.length s) (String.length t) (s +:+ t) = t.
Proof.
  rewrite <- (Nat.add_0_r (String.length s)), substring_skip.
  apply substring_all.
Qed.

Lemma substring_app_l s t n m :
  (n + m <= String.length s)%nat ->
  substring n m (s +:+ t) = substring n m s.
Proof.
  revert n m. induction s as [|a s IH]; intros n m Hle.
  { simpl in Hle. assert (n = 0 /\ m = 0)%nat as [-> ->] by lia.
    by destruct t. }
  rewrite append_cons. simpl in *. destruct n as [|n].
  - destruct m as [|m]; [done|]. f_equal. apply IH. lia.
  - apply IH. lia.
Qed.

Lemma substring_split s n :
  (n <= String.length s)%nat ->
  s = substring 0 n s +:+ substring n (String.length s - n) s.
Proof.
  revert n. induction s as [|a s IH]; intros n Hle; simpl in *.
  { by assert (n = 0)%nat as -> by lia. }
  destruct n as [|n]; simpl.
  - by rewrite substring_all.
  - rewrite append_cons. f_equal. apply IH. lia.
Qed.

Lemma length_substring s n m :
  (n + m <= String.length s)%nat -> String.length (substring n m s) = m.
Proof.
  revert n m. induction s as [|a s IH]; intros n m Hle; simpl in *.
  { assert (n = 0 /\ m = 0)%nat as [-> ->] by lia. done. }
  destruct n as [|n].
  - destruct m as [|m]; [done|]. simpl. f_equal. apply IH. lia.
  - apply IH. lia.
Qed.

Lemma contains_char_append c s t :
  contains_char c (s +:+ t) = contains_char c s || contains_char c t.
Proof.
  induction s as [|a s IH]; [done|]. rewrite append_cons. simpl.
  by rewrite IH, orb_assoc.
Qed.

(** [rfind] *)

Lemma rfind_from_app c s t (i last : Z) :
  rfind_from c (s +:+ t) i last
  = rfind_from c t (i + Z.of_nat (String.length s)) (rfind_from c s i last).
Proof.
  revert i last. induction s as [|a s IH]; intros i last.
  { simpl. by rewrite Z.add_0_r. }
  rewrite append_cons. simpl. rewrite IH. f_equal. lia.
Qed.

Lemma rfind_from_absent c t (i last : Z) :
  contains_char c t = false -> rfind_from c t i last = last.
Proof.
  revert i last. induction t as [|a t IH]; intros i last; simpl; [done|].
  intros [-> Ht]%orb_false_iff. by apply IH.
Qed.

Lemma rfind_from_bounds c t (i last : Z) :
  rfind_from c t i last = last
  \/ i <= rfind_from c t i last < i + Z.of_nat (String.length t).
Proof.
  revert i last. induction t as [|a t IH]; intros i last; simpl; [by left|].
  destruct (IH (i + 1) (if Ascii.eqb a c then i else last)) as [->|Hb].
  - destruct (Ascii.eqb a c); [right; lia|by left].
  - right. lia.
Qed.

Lemma rfind_last c s t :
  contains_char c t = false ->
  rfind c (s +:+ String c t) = Z.of_nat (String.length s).
Proof.
  intros Ht. unfold rfind. rewrite rfind_from_app. simpl.
  rewrite Ascii.eqb_refl. by rewrite rfind_from_absent.
Qed.

Lemma rfind_absent c s : contains_char c s = false -> rfind c s = -1.
Proof. apply rfind_from_absent. Qed.

Lemma rfind_append_absent c s t :
  contains_char c t = false -> rfind c (s +:+ t) = rfind c s.
Proof.
  intros Ht. unfold rfind. rewrite rfind_from_app. by apply rfind_from_absent.
Qed.

Lemma rfind_bounds c s : -1 <= rfind c s < Z.of_nat (String.length s).
Proof.
  unfold rfind. destruct (rfind_from_bounds c s 0 (-1)) as [->|?]; lia.
Qed.

(** Every path ends in a part without [/], which is all of it or comes
    after a [/]. *)
Lemma last_component s :
  contains_char "/" s = false
  \/ exists dir name,
      s = dir +:+ String "/" name /\ contains_char "/" name = false.
Proof.
  induction s as [|a s IH]; [by left|].
  destruct IH as [Hs|(dir & name & -> & Hname)].
  - simpl. destruct (Ascii.eqb_spec a "/") as [->|]; [|by left].
    right. by exists "", s.
  - right. by exists (String a dir), name.
Qed.

End string_facts.

(** ** [os.path.basename], [os.path.splitext], [str.endswith] *)

Lemma basename_plain (name : string) :
  contains_char "/" name = false -> basename name = name.
Proof.
  intros Hname. unfold basename. rewrite rfind_absent by done. simpl.
  rewrite Nat.sub_0_r. apply substring_all.
Qed.

Lemma basename_after (dir name : string) :
  contains_char "/" name = false -> basename (dir +:+ String "/" name) = name.
Proof.
  intros Hname. unfold basename. rewrite rfind_last by done.
  replace (Z.to_nat (Z.of_nat (String.length dir) + 1))
    with (String.length dir + 1)%nat by lia.
  rewrite length_append. simpl.
  replace (String.length dir + S (String.length name)
           - (String.length dir + 1))%nat with (String.length name) by lia.
  rewrite substring_skip. simpl. apply substring_all.
Qed.

(** X12: [os.path.basename] gives what follows the last [/], and all of a
    path without [/]. *)
Theorem basename_last (dir name : string) :
  contains_char "/" name = false ->
  basename (dir +:+ String "/" name) = name /\ basename name = name.
Proof. intros Hname. by rewrite basename_after, basename_plain. Qed.

Lemma basename_last_witness :
  basename "output/sub/offsets.json" = "offsets.json"
  /\ basename "offsets.json" = "offsets.json".
Proof. exact (basename_last "output/sub" "offsets.json" eq_refl). Defined.

Lemma contains_char_basename (p : string) :
  contains_char "/" (basename p) = false.
Proof.
  destruct (last_component p) as [Hp|(dir & name & -> & Hname)].
  - by rewrite basename_plain.
  - by rewrite basename_after.
Qed.

Lemma splitext_root_stem (stem ext : string) :
  contains_char "/" ext = false -> contains_char "." ext = false ->
  splitext_root (stem +:+ String "." ext)
  = if has_non_dot (basename stem) then stem else stem +:+ String "." ext.
Proof.
  intros Hsep Hdot. unfold splitext_root.
  rewrite (rfind_last "." stem ext) by done.
  rewrite (rfind_append_absent "/" stem (String "." ext)) by done.
  pose proof (rfind_bounds "/" stem) as Hb.
  rewrite (proj2 (Z.ltb_lt _ _)) by lia. cbn [andb].
  rewrite substring_app_l by lia.
  replace (Z.to_nat (Z.of_nat (String.length stem) - (rfind "/" stem + 1)))
    with (String.length stem - Z.to_nat (rfind "/" stem + 1))%nat by lia.
  change (substring (Z.to_nat (rfind "/" stem + 1))
            (String.length stem - Z.to_nat (rfind "/" stem + 1)) stem)
    with (basename stem).
  rewrite Nat2Z.id, substring_prefix. done.
Qed.

Lemma splitext_root_no_dot (p : string) :
  contains_char "." (basename p) = false -> splitext_root p = p.
Proof.
  unfold splitext_root.
  destruct (last_component p) as [Hp|(dir & name & -> & Hname)].
  - rewrite basename_plain by done. intros Hdot.
    by rewrite (rfind_absent "." p), (rfind_absent "/" p).
  - rewrite basename_after by done. intros Hdot.
    rewrite (rfind_last "/" dir name) by done.
    rewrite (rfind_append_absent "." dir (String "/" name)) by done.
    pose proof (rfind_bounds "." dir).
    by rewrite (proj2 (Z.ltb_ge _ _)) by lia.
Qed.

(** X13: [os.path.splitext] takes the part from the last dot off a path,
    when nothing but the extension follows that dot and the name before it
    is more than dots; a path with no dot in its last part, or only leading
    dots before the last one, is left as it is. *)
Theorem splitext_root_extension (stem ext : string) :
  contains_char "/" ext = false -> contains_char "." ext = false ->
  splitext_root (stem +:+ String "." ext)
  = (if has_non_dot (basename stem) then stem else stem +:+ String "." ext)
  /\ forall p, contains_char "." (basename p) = false -> splitext_root p = p.
Proof.
  intros Hsep Hdot. split; [by apply splitext_root_stem|].
  apply splitext_root_no_dot.
Qed.

Lemma splitext_root_extension_witness :
  splitext_root "sub/offsets.json" = "sub/offsets"
  /\ forall p, contains_char "." (basename p) = false -> splitext_root p = p.
Proof.
  exact (splitext_root_extension "sub/offsets" "json" eq_refl eq_refl).
Defined.

Lemma endswith_iff (s suffix : string) :
  endswith s suffix = true <-> exists p, s = p +:+ suffix.
Proof.
  unfold endswith. rewrite andb_true_iff, Nat.leb_le, String.eqb_eq. split.
  - intros [Hle Hsuffix].
    exists (substring 0 (String.length s - String.length suffix) s).
    etrans; [apply (substring_split s
                      (String.length s - String.length suffix)); lia|].
    f_equal.
    replace (String.length s - (String.length s - String.length suffix))%nat
      with (String.length suffix) by lia.
    exact Hsuffix.
  - intros [p ->]. rewrite length_append. split; [lia|].
    replace (String.length p + String.length suffix - String.length suffix)%nat
      with (String.length p) by lia.
    apply substring_suffix.
Qed.

(** The base name of a path that ends in [.json] ends in [.json]. *)
Lemma basename_json (p : string) :
  endswith p ".json" = true ->
  exists name,
    basename p = name +:+ ".json" /\ contains_char "/" name = false.
Proof.
  intros [s ->]%endswith_iff.
  destruct (last_component s) as [Hs|(dir & name & -> & Hname)].
  - exists s. split; [|done]. apply basename_plain.
    by rewrite contains_char_append, Hs.
  - exists name. split; [|done]. rewrite append_assoc, append_cons.
    apply basename_after. by rewrite contains_char_append, Hname.
Qed.

(** ** The collector: names, lines and endings *)

Section collector_more.
Context (loads : string -> parse).
Implicit Types (json_files : fileset) (out : list event) (e : entry).

(** How a round of the walk that returns can have gone. *)
Lemma visit_Ok recurse json_files (it : item) download subdir out json_files' :
  visit loads recurse json_files (it, download, subdir)
  = (out, Ok json_files') ->
  (exists text content,
      is_json_file it = true /\ url_given (download_url it) = true
      /\ download = Http 200 text /\ loads text = Parsed content
      /\ json_files' = dict_set (basename (item_path it)) content json_files
      /\ out = [Downloading (item_path it); Loaded (basename (item_path it))])
  \/ (exists out' subdir_files,
      is_json_file it = false /\ is_dir it = true
      /\ recurse (item_path it) subdir = (out', Ok subdir_files)
      /\ json_files' = update json_files subdir_files
      /\ out = ExploringSubdirectory (item_path it) :: out')
  \/ (json_files' = json_files /\ forall filename, Loaded filename ∉ out).
Proof.
  unfold visit. cbv beta iota. destruct (is_json_file it) eqn:Hjson.
  - intros (o1 & [] & o2 & [= <-] & Hvisit & ->)%bind_Ok.
    destruct (url_given (download_url it)) eqn:Hurl.
    2:{ injection Hvisit as <- <-. right. right. split; [done|].
        intros f [[=]|?%elem_of_nil]%elem_of_cons. done. }
    destruct download as [st text|]; [|done].
    destruct (Z.eqb_spec st 200) as [->|Hst].
    + destruct (loads text) as [content| |e] eqn:Hloads; [| |done].
      * apply bind_Ok in Hvisit as (? & [] & ? & [= <-] & [= <- <-] & ->).
        left. by exists text, content.
      * apply bind_Ok in Hvisit as (? & [] & ? & [= <-] & [= <- <-] & ->).
        right. right. split; [done|].
        intros f [[=]|[[=]|?%elem_of_nil]%elem_of_cons]%elem_of_cons. done.
    + apply bind_Ok in Hvisit as (? & [] & ? & [= <-] & [= <- <-] & ->).
      right. right. split; [done|].
      intros f [[=]|[[=]|?%elem_of_nil]%elem_of_cons]%elem_of_cons. done.
  - destruct (is_dir it) eqn:Hdir.
    + intros (? & [] & ? & [= <-] & Hvisit & ->)%bind_Ok.
      apply bind_Ok in Hvisit
        as (out' & subdir_files & ? & Hsub & [= <- <-] & ->).
      right. left. exists out', subdir_files. by rewrite app_nil_r.
    + intros [= <- <-]. right. right. split; [done|].
      intros f ?%elem_of_nil. done.
Qed.

Lemma collector_Ok path status_code files out json_files :
  get_file_contents_from_github loads path (Listing (Http status_code files))
  = (out, Ok json_files) ->
  exists out',
    out = FetchingFileList path :: out'
    /\ for_each (visit loads (get_file_contents_from_github loads)) files []
       = (out', Ok json_files).
Proof.
  rewrite get_file_contents_from_github_unfold.
  intros (? & [] & out' & [= <-] & Hrun & ->)%bind_Ok.
  destruct (status_code =? 200); [|done]. by exists out'.
Qed.

Lemma keys_update json_files (subdir_files : fileset) (k : string) :
  k ∈ keys (update json_files subdir_files)
  <-> k ∈ keys json_files \/ k ∈ keys subdir_files.
Proof.
  unfold update. revert json_files.
  induction subdir_files as [|[k' v] l IH]; intros json_files; simpl.
  { rewrite elem_of_nil. tauto. }
  rewrite IH, elem_of_cons, keys_dict_set.
  destruct (dict_get k' json_files) eqn:Hget.
  - assert (k' ∈ keys json_files) as Hk'
        by (apply dict_get_is_Some; by eexists).
    split; [tauto|]. intros [?|[->|?]]; tauto.
  - rewrite elem_of_app, list_elem_of_singleton. tauto.
Qed.

Lemma NoDup_keys_update json_files (subdir_files : fileset) :
  NoDup (keys json_files) -> NoDup (keys (update json_files subdir_files)).
Proof.
  unfold update. revert json_files.
  induction subdir_files as [|[k v] l IH]; intros json_files Hnd; simpl;
    [done|].
  by apply IH, NoDup_keys_dict_set.
Qed.

Lemma keys_dict_set_elem {V} (key k : string) (v : V) (d : list (string * V)) :
  k ∈ keys (dict_set key v d) <-> k = key \/ k ∈ keys d.
Proof.
  rewrite keys_dict_set. destruct (dict_get key d) eqn:Hget.
  - assert (key ∈ keys d) by (apply dict_get_is_Some; by eexists).
    split; [tauto|]. intros [->|?]; tauto.
  - rewrite elem_of_app, list_elem_of_singleton. tauto.
Qed.


(** The names in the FileSet stay distinct and end in [.json]. *)
Lemma collector_names (remote : listing) :
  forall path out json_files,
    get_file_contents_from_github loads path remote = (out, Ok json_files) ->
    NoDup (keys json_files)
    /\ forall filename,
        filename ∈ keys json_files ->
        exists name,
          filename = name +:+ ".json" /\ contains_char "/" name = false.
Proof.
  induction remote as [|status_code files IH] using listing_ind;
    intros path out json_files Hrun.
  { rewrite get_file_contents_from_github_unfold in Hrun.
    by apply bind_Ok in Hrun as (? & [] & ? & _ & ? & _). }
  apply collector_Ok in Hrun as (out' & _ & Hrun).
  refine (for_each_invariant
            (fun acc : fileset =>
               NoDup (keys acc)
               /\ forall filename,
                   filename ∈ keys acc ->
                   exists name,
                     filename = name +:+ ".json"
                     /\ contains_char "/" name = false)
            _ files [] json_files out' _ _ Hrun).
  - clear Hrun. rewrite Forall_forall in IH. apply Forall_forall.
    intros [[it download] subdir] He a a' o [Hnd Hnames] Hvisit.
    apply visit_Ok in Hvisit
      as [(text & content & Hjson & _ & _ & _ & -> & _)
         |[(o' & sub & _ & _ & Hsub & -> & _)|[-> _]]]; [| |done].
    + split; [by apply NoDup_keys_dict_set|].
      intros filename [->|Hin]%keys_dict_set_elem; [|by apply Hnames].
      apply basename_json. unfold is_json_file in Hjson.
      by apply andb_true_iff in Hjson as [_ ?].
    + split; [by apply NoDup_keys_update|].
      intros filename [Hin|Hin]%keys_update; [by apply Hnames|].
      by apply (IH _ He _ _ _ Hsub).
  - split; [constructor|]. by intros ? ?%elem_of_nil.
Qed.

(** A name once in the FileSet stays in it. *)
Lemma for_each_visit_keys (filename : string) (files : list entry)
    json_files json_files' out :
  filename ∈ keys json_files ->
  for_each (visit loads (get_file_contents_from_github loads)) files json_files
  = (out, Ok json_files') ->
  filename ∈ keys json_files'.
Proof.
  intros Hacc Hrun.
  refine (for_each_invariant (fun a : fileset => filename ∈ keys a)
            _ files json_files json_files' out _ Hacc Hrun).
  apply Forall_forall. intros [[it download] subdir] _ a a' o' Ha Hvisit.
  apply visit_Ok in Hvisit
    as [(? & ? & _ & _ & _ & _ & -> & _)
       |[(? & ? & _ & _ & _ & -> & _)|[-> _]]]; [| |done].
  - apply keys_dict_set_elem. by right.
  - apply keys_update. by left.
Qed.

(** What a directory serves is in the FileSet when the walk returns. *)
Lemma collector_complete (remote : listing) (filename : string)
    (content : json) :
  serves loads remote filename content ->
  forall path out json_files,
    get_file_contents_from_github loads path remote = (out, Ok json_files) ->
    filename ∈ keys json_files.
Proof.
  induction 1 as [status_code files it text subdir content Hin Hjson Hurl Hloads
                 |status_code files it download subdir filename content
                    Hin Hjson Hdir _ IH];
    intros path out json_files Hrun;
    apply collector_Ok in Hrun as (out' & _ & Hrun);
    apply list_elem_of_split in Hin as (before & after & ->);
    rewrite for_each_app in Hrun;
    apply bind_Ok in Hrun as (o1 & acc & o2 & _ & Hrun & _);
    cbn [for_each] in Hrun;
    apply bind_Ok in Hrun as (o3 & acc' & o4 & Hvisit & Hrun & _);
    apply (for_each_visit_keys _ after acc' json_files o4); [|done| |done].
  - unfold visit in Hvisit. rewrite Hjson, Hurl in Hvisit. simpl in Hvisit.
    rewrite Hloads in Hvisit. injection Hvisit as _ <-.
    apply keys_dict_set_elem. by left.
  - unfold visit in Hvisit. rewrite Hjson, Hdir in Hvisit.
    apply bind_Ok in Hvisit as (? & [] & ? & _ & Hvisit & _).
    apply bind_Ok in Hvisit as (? & sub & ? & Hsub & [= _ <-] & _).
    apply keys_update. right. by apply (IH _ _ _ Hsub).
Qed.

(** The success lines are those of the names in the FileSet. *)
Lemma collector_loaded (remote : listing) :
  forall path out json_files,
    get_file_contents_from_github loads path remote = (out, Ok json_files) ->
    forall filename, filename ∈ keys json_files <-> Loaded filename ∈ out.
Proof.
  induction remote as [|status_code files IH] using listing_ind;
    intros path out json_files Hrun.
  { rewrite get_file_contents_from_github_unfold in Hrun.
    by apply bind_Ok in Hrun as (? & [] & ? & _ & ? & _). }
  apply collector_Ok in Hrun as (out' & -> & Hrun). intros filename.
  rewrite elem_of_cons.
  assert (forall acc acc' o,
            for_each (visit loads (get_file_contents_from_github loads))
              files acc = (o, Ok acc') ->
            filename ∈ keys acc'
            <-> filename ∈ keys acc \/ Loaded filename ∈ o) as Hgen.
  { clear Hrun. rewrite Forall_forall in IH.
    induction files as [|[[it download] subdir] files IHfiles];
      intros acc acc' o Hrun.
    { injection Hrun as <- <-. rewrite elem_of_nil. tauto. }
    cbn [for_each] in Hrun.
    apply bind_Ok in Hrun as (o1 & a & o2 & Hvisit & Hrun & ->).
    rewrite (IHfiles (fun e He => IH e (list_elem_of_further _ _ _ He))
               _ _ _ Hrun), elem_of_app.
    apply visit_Ok in Hvisit
      as [(? & ? & _ & _ & _ & _ & -> & ->)
         |[(o' & sub & _ & _ & Hsub & -> & ->)|[-> Hnone]]].
    - rewrite keys_dict_set_elem, !elem_of_cons, elem_of_nil.
      split; [intros [[->|?]|?]; auto|].
      intros [?|[[[=]|[[= ->]|[]]]|?]]; auto.
    - rewrite keys_update, elem_of_cons.
      rewrite (IH _ (list_elem_of_here _ _) _ _ _ Hsub filename).
      split; [intros [[?|?]|?]; auto|]. intros [?|[[[=]|?]|?]]; auto.
    - specialize (Hnone filename). tauto. }
  rewrite (Hgen _ _ _ Hrun), elem_of_nil. split; [intros [[]|?]; auto|].
  intros [[=]|?]; auto.
Qed.

End collector_more.

(** X14: the names in the FileSet the collector returns are distinct, and
    each is a name without [/] that ends in [.json]; the key
    [merge_json_files] makes of it is the name without that ending, unless
    nothing but dots comes before it. *)
Theorem collector_names_distinct (loads : string -> parse)
    (path : string) (remote : listing) (out : list event)
    (json_files : fileset) :
  get_file_contents_from_github loads path remote = (out, Ok json_files) ->
  NoDup (keys json_files)
  /\ forall filename,
      filename ∈ keys json_files ->
      exists name,
        filename = name +:+ ".json" /\ contains_char "/" name = false
        /\ splitext_root filename
           = if has_non_dot name then name else filename.
Proof.
  intros Hrun.
  destruct (collector_names loads remote _ _ _ Hrun) as [Hnd Hnames].
  split; [done|]. intros filename Hin.
  destruct (Hnames filename Hin) as (name & -> & Hname).
  exists name. split_and!; [done|done|].
  rewrite (splitext_root_stem name "json") by done.
  by rewrite basename_plain.
Qed.

Lemma collector_names_distinct_witness :
  NoDup (keys [("a.json", JPrim (PInt 1)); ("c.json", JList [JPrim (PInt 2)])])
  /\ forall filename,
      filename ∈ keys [("a.json", JPrim (PInt 1));
                       ("c.json", JList [JPrim (PInt 2)])] ->
      exists name,
        filename = name +:+ ".json" /\ contains_char "/" name = false
        /\ splitext_root filename
           = if has_non_dot name then name else filename.
Proof.
  exact (collector_names_distinct sample_loads "output" sample_remote _ _
           eq_refl).
Defined.

(** X15: when the walk returns, every file that is listed, downloaded and
    parsed has its name in the FileSet. *)
Theorem collector_keeps_served (loads : string -> parse) (path : string)
    (remote : listing) (out : list event) (json_files : fileset)
    (filename : string) (content : json) :
  get_file_contents_from_github loads path remote = (out, Ok json_files) ->
  serves loads remote filename content ->
  filename ∈ keys json_files.
Proof. intros Hrun Hserves. by eapply collector_complete. Qed.

Lemma collector_keeps_served_witness :
  "c.json" ∈ keys [("a.json", JPrim (PInt 1));
                   ("c.json", JList [JPrim (PInt 2)])].
Proof.
  apply (collector_keeps_served sample_loads "output" sample_remote _ _
           "c.json" (JList [JPrim (PInt 2)]) eq_refl).
  apply (serves_dir sample_loads 200 _
           (Item "output/sub" (Some "dir") None) ConnectionFailed
           (Listing (Http 200 [sample_file "output/sub/c.json" "[2]"])));
    [|reflexivity|reflexivity|].
  - do 2 (apply elem_of_cons; right). apply elem_of_cons. by left.
  - apply (serves_file sample_loads 200 _
             (Item "output/sub/c.json" (Some "file")
                (Some "https://raw.example/f")) "[2]"
             (Listing ConnectionFailed));
      [|reflexivity..].
    apply elem_of_cons. by left.
Defined.

(** X16: when the walk returns, the names in the FileSet are those for which
    the line of success was printed. *)
Theorem collector_success_lines (loads : string -> parse) (path : string)
    (remote : listing) (out : list event) (json_files : fileset)
    (filename : string) :
  get_file_contents_from_github loads path remote = (out, Ok json_files) ->
  filename ∈ keys json_files <-> Loaded filename ∈ out.
Proof. intros Hrun. by eapply collector_loaded. Qed.

Lemma collector_success_lines_witness :
  "b.json" ∈ keys [("a.json", JPrim (PInt 1));
                   ("c.json", JList [JPrim (PInt 2)])]
  <-> Loaded "b.json"
      ∈ [FetchingFileList "output";
         Downloading "output/a.json"; Loaded "a.json";
         Downloading "output/b.json"; FailedToParse "output/b.json";
         ExploringSubdirectory "output/sub"; FetchingFileList "output/sub";
         Downloading "output/sub/c.json"; Loaded "c.json"].
Proof.
  exact (collector_success_lines sample_loads "output" sample_remote _ _
           "b.json" eq_refl).
Defined.

Section collector_ends.
Context (loads : string -> parse).
Implicit Types (json_files : fileset) (out : list event) (e : entry).

Lemma visit_raises json_files e out (ex : exn) :
  entry_raises loads e out ex ->
  visit loads (get_file_contents_from_github loads) json_files e
  = (out, Raise ex).
Proof.
  intros [it subdir Hjson Hurl|it download subdir out' ex' Hjson Hdir Hsub];
    unfold visit.
  - by rewrite Hjson, Hurl.
  - rewrite Hjson, Hdir. unfold mbind, M_bind, bind, print. by rewrite Hsub.
Qed.

Lemma collector_raises path (before after : list entry) e out1 json_files out2
    (ex : exn) :
  get_file_contents_from_github loads path (Listing (Http 200 before))
  = (out1, Ok json_files) ->
  entry_raises loads e out2 ex ->
  get_file_contents_from_github loads path
    (Listing (Http 200 (before ++ e :: after)))
  = (out1 ++ out2, Raise ex).
Proof.
  intros (out' & -> & Hbefore)%collector_Ok Hraises.
  rewrite get_file_contents_from_github_unfold.
  change (200 =? 200) with true. cbv iota. rewrite for_each_app.
  unfold mbind, M_bind, bind, print. rewrite Hbefore. cbn [for_each].
  unfold mbind, M_bind, bind. by rewrite (visit_raises _ _ _ _ Hraises).
Qed.

Lemma visit_passed_over recurse json_files (it : item) download subdir :
  passed_over it = true ->
  visit loads recurse json_files (it, download, subdir)
  = (if is_json_file it then [Downloading (item_path it)] else [],
     Ok json_files).
Proof.
  unfold passed_over, visit. destruct (is_json_file it).
  - by intros ->%negb_true_iff.
  - by intros ->%negb_true_iff.
Qed.

Lemma collector_passes path (before after : list entry) (it : item) download
    subdir :
  passed_over it = true ->
  let listed :=
    get_file_contents_from_github loads path
      (Listing (Http 200 (before ++ (it, download, subdir) :: after))) in
  let unlisted :=
    get_file_contents_from_github loads path
      (Listing (Http 200 (before ++ after))) in
  listed.2 = unlisted.2
  /\ forall ev, ev ∈ listed.1 ->
       ev ∈ unlisted.1 \/ ev = Downloading (item_path it).
Proof.
  intros Hpass listed unlisted. subst listed unlisted.
  rewrite !get_file_contents_from_github_unfold.
  change (200 =? 200) with true. cbv iota. rewrite !for_each_app.
  destruct (for_each _ before []) as [out1 [acc|ex]];
    unfold mbind, M_bind, bind, print; [|by auto].
  cbn [for_each]. rewrite (visit_passed_over _ _ _ _ _ Hpass).
  unfold mbind, M_bind, bind.
  destruct (for_each _ after acc) as [out2 r]. simpl. split; [done|].
  intros ev. rewrite !elem_of_cons, !elem_of_app.
  destruct (is_json_file it); rewrite ?elem_of_cons, ?elem_of_nil; tauto.
Qed.

End collector_ends.

(** X17: a request that fails on a file, or a directory whose walk ends with
    an exception, ends the whole walk with that exception, whatever was
    loaded before; [main] then reports it and writes no file. *)
Theorem collector_aborts (loads : string -> parse)
    (before after : list entry) (e : entry) (out1 out2 : list event)
    (json_files : fileset) (ex : exn) :
  get_file_contents_from_github loads OUTPUT_PATH (Listing (Http 200 before))
  = (out1, Ok json_files) ->
  entry_raises loads e out2 ex ->
  let remote := Listing (Http 200 (before ++ e :: after)) in
  get_file_contents_from_github loads OUTPUT_PATH remote
  = (out1 ++ out2, Raise ex)
  /\ forall write : json -> write_outcome,
      main loads write remote
      = Outcome (FetchingJsonFiles :: out1 ++ out2
                 ++ [match ex with
                     | RequestException => NetworkError
                     | _ => ErrorWithTraceback ex
                     end]) Untouched.
Proof.
  intros Hbefore Hraises remote.
  pose proof (collector_raises loads OUTPUT_PATH before after e _ _ _ _
                Hbefore Hraises) as Hrun.
  split; [done|]. intros write.
  unfold main, mbind, M_bind, bind, print. subst remote.
  rewrite Hrun. destruct ex; simpl; by rewrite <- app_assoc.
Qed.

Lemma collector_aborts_witness :
  let remote :=
    Listing (Http 200
      [sample_file "output/a.json" "1";
       (Item "output/sub" (Some "dir") None, ConnectionFailed,
        Listing (Http 404 []))]) in
  main sample_loads sample_write remote
  = Outcome [FetchingJsonFiles; FetchingFileList "output";
             Downloading "output/a.json"; Loaded "a.json";
             ExploringSubdirectory "output/sub"; FetchingFileList "output/sub";
             ErrorWithTraceback OtherException] Untouched.
Proof.
  refine (proj2 (collector_aborts sample_loads
                   [sample_file "output/a.json" "1"] []
                   (Item "output/sub" (Some "dir") None, ConnectionFailed,
                    Listing (Http 404 []))
                   [FetchingFileList "output"; Downloading "output/a.json";
                    Loaded "a.json"]
                   [ExploringSubdirectory "output/sub";
                    FetchingFileList "output/sub"]
                   [("a.json", JPrim (PInt 1))] OtherException eq_refl _)
            sample_write).
  by apply (subdir_raises sample_loads (Item "output/sub" (Some "dir") None)
              ConnectionFailed (Listing (Http 404 []))
              [FetchingFileList "output/sub"] OtherException).
Defined.

Lemma visit_parse_raises (loads : string -> parse) recurse
    (json_files : fileset) (it : item) (text : string) (subdir : listing)
    (ex : exn) :
  is_json_file it = true -> url_given (download_url it) = true ->
  loads text = ParseRaises ex ->
  visit loads recurse json_files (it, Http 200 text, subdir)
  = ([Downloading (item_path it)], Raise ex).
Proof.
  intros Hjson Hurl Hloads. unfold visit. rewrite Hjson, Hurl.
  change (200 =? 200) with true. cbv iota. by rewrite Hloads.
Qed.

(** X25: an exception of [json.loads] that is not the decoding error of
    line 57 is not recovered from: on a downloaded [*.json] file whose text
    makes [json.loads] raise it, the walk ends with that exception after the
    line that announces the download, whatever was loaded before and
    whatever is listed after; [main] then reports it and writes no file. *)
Theorem collector_parse_raises (loads : string -> parse)
    (before after : list entry) (it : item) (text : string) (subdir : listing)
    (out1 : list event) (json_files : fileset) (ex : exn) :
  get_file_contents_from_github loads OUTPUT_PATH (Listing (Http 200 before))
  = (out1, Ok json_files) ->
  is_json_file it = true -> url_given (download_url it) = true ->
  loads text = ParseRaises ex ->
  let remote :=
    Listing (Http 200 (before ++ (it, Http 200 text, subdir) :: after)) in
  get_file_contents_from_github loads OUTPUT_PATH remote
  = (out1 ++ [Downloading (item_path it)], Raise ex)
  /\ forall write : json -> write_outcome,
      main loads write remote
      = Outcome (FetchingJsonFiles :: out1
                 ++ [Downloading (item_path it); report ex]) Untouched.
Proof.
  intros (out' & -> & Hbefore)%collector_Ok Hjson Hurl Hloads remote.
  assert (get_file_contents_from_github loads OUTPUT_PATH remote
          = ((FetchingFileList OUTPUT_PATH :: out')
             ++ [Downloading (item_path it)], Raise ex)) as Hrun.
  { subst remote. rewrite get_file_contents_from_github_unfold.
    change (200 =? 200) with true. cbv iota. rewrite for_each_app.
    unfold mbind, M_bind, bind, print. rewrite Hbefore. cbn [for_each].
    unfold mbind, M_bind, bind.
    by rewrite (visit_parse_raises _ _ _ _ _ _ _ Hjson Hurl Hloads). }
  split; [done|]. intros write.
  unfold main, mbind, M_bind, bind, print. rewrite Hrun.
  simpl. by rewrite <- app_assoc.
Qed.

Lemma collector_parse_raises_witness :
  let remote :=
    Listing (Http 200
      [sample_file "output/a.json" "1";
       sample_file "output/big.json" (nines 4301);
       sample_file "output/c.json" "[2]"]) in
  main sample_loads sample_write remote
  = Outcome [FetchingJsonFiles; FetchingFileList "output";
             Downloading "output/a.json"; Loaded "a.json";
             Downloading "output/big.json";
             ErrorWithTraceback ValueError] Untouched.
Proof.
  refine (proj2 (collector_parse_raises sample_loads
                   [sample_file "output/a.json" "1"]
                   [sample_file "output/c.json" "[2]"]
                   (Item "output/big.json" (Some "file")
                      (Some "https://raw.example/f"))
                   (nines 4301) (Listing ConnectionFailed)
                   [FetchingFileList "output"; Downloading "output/a.json";
                    Loaded "a.json"]
                   [("a.json", JPrim (PInt 1))] ValueError
                   eq_refl eq_refl eq_refl _)
            sample_write).
  vm_compute. reflexivity.
Defined.

(** X18: a [*.json] entry without a download address, and an entry that is
    neither a [*.json] file nor a directory, is passed over: the walk ends
    as it does without the entry, and prints for it at most the line that
    announces the download. *)
Theorem collector_passes_over (loads : string -> parse) (path : string)
    (before after : list entry) (it : item) (download : http string)
    (subdir : listing) :
  passed_over it = true ->
  let listed :=
    get_file_contents_from_github loads path
      (Listing (Http 200 (before ++ (it, download, subdir) :: after))) in
  let unlisted :=
    get_file_contents_from_github loads path
      (Listing (Http 200 (before ++ after))) in
  listed.2 = unlisted.2
  /\ forall ev, ev ∈ listed.1 ->
       ev ∈ unlisted.1 \/ ev = Downloading (item_path it).
Proof. apply collector_passes. Qed.

Lemma collector_passes_over_witness :
  let it := Item "output/a.json" (Some "file") None in
  let listed :=
    get_file_contents_from_github sample_loads "output"
      (Listing (Http 200 [(it, Http 200 "1", Listing ConnectionFailed);
                          sample_file "output/sub/c.json" "[2]"])) in
  let unlisted :=
    get_file_contents_from_github sample_loads "output"
      (Listing (Http 200 [sample_file "output/sub/c.json" "[2]"])) in
  listed.2 = unlisted.2
  /\ forall ev, ev ∈ listed.1 ->
       ev ∈ unlisted.1 \/ ev = Downloading "output/a.json".
Proof.
  exact (collector_passes_over sample_loads "output" []
           [sample_file "output/sub/c.json" "[2]"]
           (Item "output/a.json" (Some "file") None) (Http 200 "1")
           (Listing ConnectionFailed) eq_refl).
Defined.

Section collector_last.
Context (loads : string -> parse).
Implicit Types (json_files : fileset) (out : list event) (e : entry).



End collector_last.



(** ** The store: what [merge_json_files] leaves alone *)

Section grows_facts.
Import Store.
Implicit Types (h : heap) (n m l : nat).

Lemma grows_refl n h : grows n h h.
Proof.
  split; [done|]. intros l _. destruct (h !! l) as [[its|es]|]; [done| |done].
  exists []. by rewrite app_nil_r.
Qed.

Lemma grows_trans n h1 h2 h3 : grows n h1 h2 -> grows n h2 h3 -> grows n h1 h3.
Proof.
  intros [Hlen1 H1] [Hlen2 H2]. split; [lia|]. intros l Hl.
  specialize (H1 l Hl). specialize (H2 l Hl).
  destruct (h1 !! l) as [[its|es]|]; [| |done].
  - by rewrite H1 in H2.
  - destruct H1 as [more1 H1]. rewrite H1 in H2. destruct H2 as [more2 H2].
    exists (more1 ++ more2). by rewrite app_assoc.
Qed.

Lemma grows_take n k h h' :
  (n <= k)%nat -> (List.length h <= List.length h')%nat ->
  take k h' = take k h -> grows n h h'.
Proof.
  intros Hnk Hlen Htake. split; [done|]. intros l Hl.
  rewrite (take_lookup_agree k h h' l Htake) by lia.
  destruct (h !! l) as [[its|es]|]; [done| |done].
  exists []. by rewrite app_nil_r.
Qed.

Lemma grows_insert_new n m h (o : object) :
  (n <= m)%nat -> grows n h (<[m := o]> h).
Proof.
  intros Hm. split; [by rewrite length_insert|]. intros l Hl.
  rewrite list_lookup_insert_ne by lia.
  destruct (h !! l) as [[its|es]|]; [done| |done].
  exists []. by rewrite app_nil_r.
Qed.

Lemma grows_extend n m h (es more : list val) :
  h !! m = Some (OList es) -> grows n h (<[m := OList (es ++ more)]> h).
Proof.
  intros Hm. split; [by rewrite length_insert|]. intros l Hl.
  destruct (decide (l = m)) as [->|Hne].
  - rewrite Hm. exists more. apply list_lookup_insert_eq.
    by apply lookup_lt_Some in Hm.
  - rewrite list_lookup_insert_ne by done.
    destruct (h !! l) as [[its|es']|]; [done| |done].
    exists []. by rewrite app_nil_r.
Qed.

Lemma new_or_list_grows n h h' m :
  grows n h h' -> new_or_list n h m -> new_or_list n h' m.
Proof.
  intros [_ Hgrows] [Hm|[es Hes]]; [by left|].
  destruct (decide (n <= m)%nat) as [|Hlt]; [by left|]. right.
  specialize (Hgrows m ltac:(lia)). rewrite Hes in Hgrows.
  destruct Hgrows as [more ?]. by eexists.
Qed.

Lemma new_or_list_dict n h m (its : list (string * val)) :
  new_or_list n h m -> h !! m = Some (ODict its) -> (n <= m)%nat.
Proof. intros [?|[es Hes]] Hm; [done|congruence]. Qed.

End grows_facts.

Section frame.
Import Store.
Implicit Types (h : heap) (n m l : nat).

Local Ltac same_store :=
  intros [= <- <-]; (split; [apply grows_refl|]); intros ? [= <-]; try done.

Lemma merge_file_grows n fuel m (file : string * val) h (o : outcome loc) h' :
  (n <= List.length h)%nat -> new_or_list n h m ->
  merge_file fuel m file h = (o, h') ->
  grows n h h' /\ forall m', o = Returns m' -> new_or_list n h' m'.
Proof.
  intros Hn Hm. destruct file as [f [p|c]].
  - unfold merge_file, kind_of, setitem, bind, ret, read, write, throw.
    destruct (h !! m) as [[its|es]|] eqn:Hlook; rewrite ?Hlook;
      [|same_store..].
    intros [= <- <-]. pose proof (new_or_list_dict _ _ _ _ Hm Hlook).
    split; [by apply grows_insert_new|]. intros ? [= <-]. by left.
  - unfold merge_file, kind_of, nonempty, extend, contains, getitem, setitem,
      bind, ret, read, write, throw.
    destruct (h !! c) as [[cits|cs]|] eqn:Hc; rewrite ?Hc; [| |same_store].
    + intros Hrun.
      destruct (keeps_deep_merge fuel (List.length h) (VRef m) (VRef c)
                  h o h' ltac:(done) Hrun) as (Hlen & Htake & Hnew).
      split; [by apply (grows_take n (List.length h))|].
      intros m' Hm'. left. specialize (Hnew m' Hm'). lia.
    + destruct (h !! m) as [[[|kv mits]|[|x mes]]|] eqn:Hlook;
        rewrite ?Hlook, ?Hc; cbn [negb].
      * same_store. right. by exists cs.
      * pose proof (new_or_list_dict _ _ _ _ Hm Hlook) as Hnm.
        assert (forall x : val, bool_decide (is_Some (Some x)) = true)
          as Hsome by (intros x; by apply bool_decide_true).
        assert (bool_decide (is_Some (@None val)) = false)
          as Hnone by (apply bool_decide_false; by intros [? ?]).
        destruct (dict_get (splitext_root f) (kv :: mits)) as [[p|e]|] eqn:Hkey;
          repeat (first [rewrite Hlook | rewrite Hkey | rewrite Hsome
                        | rewrite Hnone | rewrite Hc];
                  cbv beta iota; cbn [negb]).
        -- intros [= <- <-]. split; [by apply grows_insert_new|].
           intros ? [= <-]. by left.
        -- destruct (h !! e) as [[eits|old]|] eqn:He;
             repeat (first [rewrite Hlook | rewrite Hc | rewrite He];
                     cbv beta iota).
           ++ intros [= <- <-]. split; [by apply grows_insert_new|].
              intros ? [= <-]. by left.
           ++ intros [= <- <-]. split; [by apply grows_extend|].
              intros ? [= <-]. by left.
           ++ same_store.
        -- intros [= <- <-]. split; [by apply grows_insert_new|].
           intros ? [= <-]. by left.
      * same_store. right. by exists cs.
      * repeat (first [rewrite Hlook | rewrite Hc]; cbv beta iota).
        intros [= <- <-]. split; [by apply (grows_extend n m h (x :: mes) cs)|].
        intros ? [= <-]. right. eexists. apply list_lookup_insert_eq.
        by apply lookup_lt_Some in Hlook.
      * same_store.
Qed.

Lemma for_each_merge_file_grows n fuel (files : list (string * val)) :
  forall m h (o : outcome loc) h',
    (n <= List.length h)%nat -> new_or_list n h m ->
    for_each (merge_file fuel) files m h = (o, h') ->
    grows n h h' /\ forall m', o = Returns m' -> new_or_list n h' m'.
Proof.
  induction files as [|file files IH]; intros m h o h' Hn Hm; simpl.
  { intros [= <- <-]. split; [apply grows_refl|]. by intros ? [= <-]. }
  unfold bind. destruct (merge_file fuel m file h) as [o1 h1] eqn:Hfile.
  destruct (merge_file_grows n fuel m file h o1 h1 Hn Hm Hfile)
    as [Hgrows Hacc].
  destruct o1 as [m1| | |]; [|by intros [= <- <-]..].
  intros Hrest.
  destruct (IH m1 h1 o h') as [Hgrows' Hacc']; [|by apply Hacc|done|].
  { destruct Hgrows. lia. }
  split; [by eapply grows_trans|done].
Qed.

End frame.

(** X21: whatever the store holds and however it ends, [merge_json_files]
    takes no object away and changes no dictionary there is; a list there
    is can only get longer at its end.  What it returns is a new object or
    a list that was there. *)
Theorem merge_json_files_frame (fuel : nat) (json_files : Store.val)
    (h h' : Store.heap) (o : Store.outcome Store.loc) :
  Store.merge_json_files fuel json_files h = (o, h') ->
  grows (List.length h) h h'
  /\ forall merged,
      o = Store.Returns merged ->
      (List.length h <= merged)%nat
      \/ exists es, h !! merged = Some (Store.OList es).
Proof.
  unfold Store.merge_json_files, Store.bind, Store.alloc.
  set (n := List.length h). set (h1 := h ++ [Store.ODict []]).
  assert (grows n h h1) as Hgrows1.
  { apply (grows_take n n); [done|subst h1; rewrite length_app; lia|].
    subst h1 n. by rewrite take_app_length, take_ge. }
  destruct (Store.items json_files h1) as [[files| | |] h2] eqn:Hitems.
  2-4: assert (h2 = h1) as ->
         by (destruct json_files as [p|l]; simpl in Hitems;
             unfold Store.throw, Store.bind, Store.read, Store.ret in Hitems;
             [congruence|];
             destruct (h1 !! l) as [[]|]; congruence);
       intros [= <- <-]; split; [done|by intros ? [=]].
  assert (h2 = h1) as ->.
  { destruct json_files as [p|l]; simpl in Hitems;
      unfold Store.throw, Store.bind, Store.read, Store.ret in Hitems;
      [congruence|].
    destruct (h1 !! l) as [[]|]; congruence. }
  intros Hrun.
  destruct (for_each_merge_file_grows n fuel (sorted_items files) n h1 o h')
    as [Hgrows Hacc]; [subst h1; rewrite length_app; lia|by left|done|].
  split; [by eapply grows_trans|].
  intros merged Hmerged. destruct (Hacc merged Hmerged) as [?|[es Hes]];
    [by left|].
  destruct (decide (n <= merged)%nat) as [|Hlt]; [by left|]. right.
  destruct (grows_trans _ _ _ _ Hgrows1 Hgrows) as [_ Hall].
  specialize (Hall merged ltac:(lia)).
  destruct (h !! merged) as [[its|es']|] eqn:Hlook.
  - congruence.
  - by eexists.
  - apply lookup_ge_None in Hlook. lia.
Qed.

Lemma merge_json_files_frame_witness :
  let h := [Store.OList [Store.VPrim (PInt 1)];
            Store.OList [Store.VPrim (PInt 2)];
            Store.ODict [("b.json", Store.VRef 1); ("a.json", Store.VRef 0)]] in
  let h' := [Store.OList [Store.VPrim (PInt 1); Store.VPrim (PInt 2)];
             Store.OList [Store.VPrim (PInt 2)];
             Store.ODict [("b.json", Store.VRef 1); ("a.json", Store.VRef 0)];
             Store.ODict []] in
  grows 3 h h'
  /\ forall merged,
      Store.Returns 0%nat = Store.Returns merged ->
      (3 <= merged)%nat \/ exists es, h !! merged = Some (Store.OList es).
Proof.
  intros h h'.
  exact (merge_json_files_frame 1 (Store.VRef 2) h h' (Store.Returns 0%nat)
           eq_refl).
Defined.

(** ** [deep_merge] on values that are no dictionaries *)

Section deep_merge_any_values.
Import Store.
Implicit Types (h : heap) (D : loc -> Prop).

Lemma repr_list_inv D h v elems :
  repr D h v (JList elems) ->
  exists l vs, v = VRef l /\ D l /\ h !! l = Some (OList vs)
               /\ Forall2 (repr D h) vs elems.
Proof. inversion 1; subst. by eexists _, _. Qed.

Lemma repr_dict_inv D h v its :
  repr D h v (JObj its) ->
  exists l vits, v = VRef l /\ D l /\ h !! l = Some (ODict vits)
                 /\ items_repr D h vits its.
Proof. inversion 1; subst. by eexists _, _. Qed.

Lemma repr_prim_inv D h v p : repr D h v (JPrim p) -> v = VPrim p.
Proof. by inversion 1. Qed.

Lemma bind_raises {A B} (m : St A) (k : A -> St B) h (e : exn) h1 :
  m h = (Raises e, h1) -> bind m k h = (Raises e, h1).
Proof. unfold bind. by intros ->. Qed.

Lemma deep_merge_S fuel (base new : val) :
  Store.deep_merge (S fuel) base new
  = bind (copy base) (fun result =>
    bind (items new) (fun new_items =>
    bind (for_each (fun _ => merge_item (Store.deep_merge fuel) result)
            new_items tt) (fun _ => ret result))).
Proof. reflexivity. Qed.

Lemma run_copy h l (o : object) :
  h !! l = Some o -> copy (VRef l) h = (Returns (List.length h), h ++ [o]).
Proof. intros Hl. unfold copy, bind, read, alloc. by rewrite Hl. Qed.

Lemma run_items_dict h l (its : list (string * val)) :
  h !! l = Some (ODict its) -> items (VRef l) h = (Returns its, h).
Proof. intros Hl. unfold items, bind, read, ret. by rewrite Hl. Qed.

Lemma run_items_list h l (es : list val) :
  h !! l = Some (OList es) -> items (VRef l) h = (Raises AttributeError, h).
Proof. intros Hl. unfold items, bind, read, throw. by rewrite Hl. Qed.

Lemma run_merge_item_list recurse h r (es : list val) (item : string * val) :
  h !! r = Some (OList es) ->
  merge_item recurse r item h = (Raises TypeError, h).
Proof.
  intros Hr. destruct item as [key value].
  unfold merge_item, contains, getitem, setitem, bind, read, ret, throw.
  rewrite Hr. destruct (existsb _ es); by rewrite Hr.
Qed.

Lemma deep_merge_list_base fuel D h base new (elems : list json) jn :
  (forall l, D l -> (l < List.length h)%nat) ->
  repr D h base (JList elems) -> repr D h new jn ->
  exists h',
    match Value.deep_merge (JList elems) jn with
    | Ok r =>
        Store.deep_merge (S fuel) base new h = (Returns (List.length h), h')
        /\ repr (fun l => D l \/ (List.length h <= l < List.length h')%nat) h'
             (VRef (List.length h)) r
    | Raise e => Store.deep_merge (S fuel) base new h = (Raises e, h')
    end.
Proof.
  intros HD (lb & vs & -> & Hlb & Hvs & Helems)%repr_list_inv Hnew.
  exists (h ++ [OList vs]).
  rewrite deep_merge_S, (bind_returns _ _ _ _ _ (run_copy h lb _ Hvs)).
  destruct jn as [p|c|[|[k x] its]]; cbn [Value.deep_merge].
  - apply repr_prim_inv in Hnew as ->. done.
  - apply repr_list_inv in Hnew as (ln & ws & -> & Hln & Hws & _).
    apply bind_raises, (run_items_list _ _ ws).
    by rewrite lookup_app_l by by apply HD.
  - apply repr_dict_inv in Hnew as (ln & vits & -> & Hln & Hits & Hall).
    apply Forall2_nil_inv_r in Hall as ->.
    rewrite (bind_returns _ _ _ [] (h ++ [OList vs])).
    2:{ apply run_items_dict. by rewrite lookup_app_l by by apply HD. }
    split; [done|]. rewrite length_app. simpl.
    apply repr_list with vs;
      [right; lia | by apply list_lookup_middle |].
    eapply Forall2_impl; [exact Helems|]. intros v j Hvj.
    eapply repr_mono; [|exact Hvj]. intros l Hl.
    split; [by left|]. by apply lookup_app_l, HD.
  - apply repr_dict_inv in Hnew as (ln & vits & -> & Hln & Hits & Hall).
    apply Forall2_cons_inv_r in Hall as ([k' v] & vits' & _ & _ & ->).
    rewrite (bind_returns _ _ _ ((k', v) :: vits') (h ++ [OList vs])).
    2:{ apply run_items_dict. by rewrite lookup_app_l by by apply HD. }
    apply bind_raises. cbn [for_each]. apply bind_raises.
    apply (run_merge_item_list _ _ _ vs). by apply list_lookup_middle.
Qed.

Lemma deep_merge_dict_base fuel D h base new (a : dict) jn :
  (forall l, D l -> (l < List.length h)%nat) ->
  repr D h base (JObj a) -> repr D h new jn -> is_dict jn = false ->
  exists h',
    Store.deep_merge (S fuel) base new h = (Raises AttributeError, h').
Proof.
  intros HD (lb & vits & -> & Hlb & Hvits & _)%repr_dict_inv Hnew Hjn.
  exists (h ++ [ODict vits]).
  rewrite deep_merge_S, (bind_returns _ _ _ _ _ (run_copy h lb _ Hvits)).
  destruct jn as [p|c|its]; [| |done].
  - apply repr_prim_inv in Hnew as ->. done.
  - apply repr_list_inv in Hnew as (ln & ws & -> & Hln & Hws & _).
    apply bind_raises, (run_items_list _ _ ws).
    by rewrite lookup_app_l by by apply HD.
Qed.

End deep_merge_any_values.

(** X22: [deep_merge] over the store ends as the table of [deep_merge] over
    values says, whatever the two values are: an AttributeError when [base]
    is a primitive or [new] is no dictionary, a TypeError when [base] is a
    list and [new] a dictionary that is not empty, a copy of the list when
    [new] is the empty dictionary, and the merge of two dictionaries. *)
Theorem deep_merge_outcome (fuel : nat) (D : Store.loc -> Prop)
    (h : Store.heap) (base new : Store.val) (jb jn : json) :
  (forall l, D l -> (l < List.length h)%nat) ->
  Store.repr D h base jb -> Store.repr D h new jn ->
  (1 <= fuel)%nat -> (depth jn <= fuel)%nat ->
  exists h',
    match deep_merge jb jn with
    | Ok r =>
        Store.deep_merge fuel base new h
        = (Store.Returns (List.length h), h')
        /\ Store.repr
             (fun l => D l \/ (List.length h <= l < List.length h')%nat) h'
             (Store.VRef (List.length h)) r
    | Raise e => Store.deep_merge fuel base new h = (Store.Raises e, h')
    end.
Proof.
  intros HD Hbase Hnew Hfuel Hdepth. destruct fuel as [|fuel]; [lia|].
  destruct jb as [p|elems|a].
  - exists h. apply repr_prim_inv in Hbase as ->. done.
  - by apply (deep_merge_list_base fuel D).
  - destruct jn as [q|c|b].
    + by apply (deep_merge_dict_base fuel D h base new a (JPrim q)).
    + by apply (deep_merge_dict_base fuel D h base new a (JList c)).
    + destruct (deep_merge_repr (S fuel) D h base new a b) as (h' & ? & ?);
        [done..|]. by exists h'.
Qed.

Lemma deep_merge_outcome_witness :
  let h := [Store.OList [Store.VPrim (PInt 1)];
            Store.ODict [("k", Store.VPrim (PInt 1))]] in
  exists h',
    Store.deep_merge 1 (Store.VRef 0) (Store.VRef 1) h
    = (Store.Raises TypeError, h').
Proof.
  intros h.
  apply (deep_merge_outcome 1 (fun l => (l < 2)%nat) h
           (Store.VRef 0) (Store.VRef 1)
           (JList [JPrim (PInt 1)]) (JObj [("k", JPrim (PInt 1))])).
  - intros l Hl. simpl. lia.
  - apply Store.repr_list with [Store.VPrim (PInt 1)]; [lia|done|].
    repeat constructor.
  - apply Store.repr_dict with [("k", Store.VPrim (PInt 1))]; [lia|done|].
    repeat constructor.
  - lia.
  - simpl. lia.
Defined.

(** ** What the result of [deep_merge] is made of *)

Section shares.
Import Store.
Implicit Types (h : heap) (r : loc).



Variable recurse : val -> val -> St loc.
Hypothesis recurse_keeps :
  forall n b v, keeps n (recurse b v) (fun l => (n <= l)%nat).

Variables (Q : string * val -> Prop) (r : loc).



End shares.



(** ** A single file *)

(** X24: a FileSet of one file that is an object or a list is merged to
    that very document, whatever the name of the file; one primitive file is
    merged to the object that holds the value under the name without its
    extension. *)
Theorem merge_json_files_single (filename : string) (content : json) :
  wf content = true ->
  merge_json_files [(filename, content)]
  = Ok (match content with
        | JPrim _ => JObj [(splitext_root filename, content)]
        | _ => content
        end).
Proof.
  intros Hwf. unfold merge_json_files.
  change (sorted_items [(filename, content)]) with [(filename, content)].
  destruct content as [p|c|d]; cbn [merge_loop merge_file rbind]; [done..|].
  cbn [deep_merge rbind]. apply wf_obj in Hwf as [Hnd _].
  by rewrite deep_merge_dict_empty_l.
Qed.

Lemma merge_json_files_single_witness :
  merge_json_files
    [("merged_output.json",
      JObj [("k", JList [JPrim (PInt 2); JPrim (PInt 1)]); ("z", JPrim PNull)])]
  = Ok (JObj [("k", JList [JPrim (PInt 2); JPrim (PInt 1)]); ("z", JPrim PNull)]).
Proof.
  exact (merge_json_files_single "merged_output.json"
           (JObj [("k", JList [JPrim (PInt 2); JPrim (PInt 1)]);
                  ("z", JPrim PNull)]) eq_refl).
Defined.
